(** * UBI attaching sub-system (drivers/mtd/ubi/attach.c)

    A shallow embedding of the scanning core of [attach.c] and the
    properties of it that the specification states.

    Conventions.
    - C integers are [Z]; every place where the C code converts to a
      narrower or signed type is written out with [to_s32], [to_u32],
      [to_s64], [to_u64] (two's complement wrap-around, as the kernel is
      built with [-fno-strict-overflow]).
    - On-flash header fields are kept in CPU byte order: a field [f] of
      a header record stands for [beNN_to_cpu(hdr->f)].
    - The flash, the slab allocator and the random source are external:
      they are oracles of a [ubi_platform].  The device descriptor
      carries, besides the fields [attach.c] reads and writes, the trace
      of I/O calls ([io_log]) and the number of allocation requests
      ([allocs]); an oracle may answer differently at different times.
    - The RB-tree library (lib/rbtree.c) is an interface, [RbTreeLib].
    - The model is the build without CONFIG_MTK_SLC_BUFFER_SUPPORT
      (its helpers live outside attach.c) and is parametric in
      CONFIG_MTD_UBI_LOWPAGE_BACKUP.  [scan_peb] is modelled as
      [scan_all] calls it (both out-parameters NULL). *)

From Stdlib Require Import ZArith List Bool Lia Sorted.
Import ListNotations.
Open Scope Z_scope.

(** ** Machine integers *)

Definition to_u32 (x : Z) : Z := x mod 2 ^ 32.
Definition to_s32 (x : Z) : Z := (x + 2 ^ 31) mod 2 ^ 32 - 2 ^ 31.
Definition to_u64 (x : Z) : Z := x mod 2 ^ 64.
Definition to_s64 (x : Z) : Z := (x + 2 ^ 63) mod 2 ^ 64 - 2 ^ 63.

Definition INT_MAX : Z := 2 ^ 31 - 1.

(** ** Constants of ubi.h, ubi-media.h and errno.h *)

Definition UBI_UNKNOWN : Z := -1.
Definition UBI_VERSION : Z := 1.
Definition UBI_MAX_ERASECOUNTER : Z := 0x7FFFFFFF.
Definition UBI_CRC32_INIT : Z := 0xFFFFFFFF.

Definition UBI_MAX_VOLUMES : Z := 128.
Definition UBI_INTERNAL_VOL_START : Z := 0x7FFFFFFF - 4096.
Definition UBI_LAYOUT_VOLUME_ID : Z := UBI_INTERNAL_VOL_START.

Definition UBI_VID_DYNAMIC : Z := 1.
Definition UBI_VID_STATIC : Z := 2.
Definition UBI_DYNAMIC_VOLUME : Z := 3.
Definition UBI_STATIC_VOLUME : Z := 4.

Definition UBI_COMPAT_DELETE : Z := 1.
Definition UBI_COMPAT_RO : Z := 2.
Definition UBI_COMPAT_PRESERVE : Z := 4.
Definition UBI_COMPAT_REJECT : Z := 5.

Definition UBI_IO_FF : Z := 1.
Definition UBI_IO_FF_BITFLIPS : Z := 2.
Definition UBI_IO_BAD_HDR : Z := 3.
Definition UBI_IO_BAD_HDR_EBADMSG : Z := 4.
Definition UBI_IO_BITFLIPS : Z := 5.

Definition EIO : Z := 5.
Definition ENOMEM : Z := 12.
Definition EINVAL : Z := 22.
Definition EBADMSG : Z := 74.

(** [mtd_is_eccerr] of linux/mtd/mtd.h. *)
Definition mtd_is_eccerr (err : Z) : bool := err =? - EBADMSG.

(** ** CRC-32 *)

(** Modelled from the spec: [crc32] of linux/crc32.h, the little-endian
    CRC-32 (polynomial 0xEDB88320) continued from a given seed, with no
    final inversion. *)
Fixpoint crc32_bits (n : nat) (crc : Z) : Z :=
  match n with
  | O => crc
  | S n' =>
      crc32_bits n'
        (if Z.odd crc then Z.lxor (Z.shiftr crc 1) 0xEDB88320
         else Z.shiftr crc 1)
  end.

Fixpoint crc32 (crc : Z) (buf : list Z) : Z :=
  match buf with
  | [] => crc
  | b :: buf' => crc32 (crc32_bits 8 (Z.lxor crc (b mod 256))) buf'
  end.

(** ** On-flash headers *)

Record ubi_ec_hdr := mk_ec_hdr {
  ech_version : Z;
  ech_ec : Z;
  ech_image_seq : Z
}.

Record ubi_vid_hdr := mk_vid_hdr {
  vh_vol_type : Z;
  vh_copy_flag : Z;
  vh_compat : Z;
  vh_vol_id : Z;
  vh_lnum : Z;
  vh_data_size : Z;
  vh_used_ebs : Z;
  vh_data_pad : Z;
  vh_data_crc : Z;
  vh_sqnum : Z
}.

(** ** RB-trees

    [struct rb_node] is embedded in the entry it links, so a node of the
    model carries its entry.  In-order traversal ([rb_first]/[rb_next],
    the order of [ubi_rb_for_each_entry]) visits the left sub-tree, the
    node, then the right sub-tree. *)

Inductive rb_color := RB_RED | RB_BLACK.

Inductive rb_root (A : Type) : Type :=
| RB_ROOT : rb_root A
| rb_node (c : rb_color) (rb_left : rb_root A) (entry : A) (rb_right : rb_root A) : rb_root A.

Arguments RB_ROOT {A}.
Arguments rb_node {A} c rb_left entry rb_right.

Fixpoint rb_inorder {A} (t : rb_root A) : list A :=
  match t with
  | RB_ROOT => []
  | rb_node _ l x r => rb_inorder l ++ x :: rb_inorder r
  end.

Fixpoint rb_map {A} (f : A -> A) (t : rb_root A) : rb_root A :=
  match t with
  | RB_ROOT => RB_ROOT
  | rb_node c l x r => rb_node c (rb_map f l) (f x) (rb_map f r)
  end.

(** The outcome of one comparison of a descent loop. *)
Inductive rb_step := GO_LEFT | GO_RIGHT | FOUND.

(** The descent loops of [add_volume] and [ubi_add_to_av]: the entry the
    loop stops at, if any. *)
Fixpoint rb_walk {A} (cmp : A -> rb_step) (t : rb_root A) : option A :=
  match t with
  | RB_ROOT => None
  | rb_node _ l x r =>
      match cmp x with
      | FOUND => Some x
      | GO_LEFT => rb_walk cmp l
      | GO_RIGHT => rb_walk cmp r
      end
  end.

(** [rb_link_node(node, parent, p)] for the link [p] the descent ended
    at: the new node is a red leaf there. *)
Fixpoint rb_link_node {A} (cmp : A -> rb_step) (node : A) (t : rb_root A) : rb_root A :=
  match t with
  | RB_ROOT => rb_node RB_RED RB_ROOT node RB_ROOT
  | rb_node c l x r =>
      match cmp x with
      | FOUND => t
      | GO_LEFT => rb_node c (rb_link_node cmp node l) x r
      | GO_RIGHT => rb_node c l x (rb_link_node cmp node r)
      end
  end.

(** A store through the pointer the descent stopped at. *)
Fixpoint rb_assign {A} (cmp : A -> rb_step) (node : A) (t : rb_root A) : rb_root A :=
  match t with
  | RB_ROOT => RB_ROOT
  | rb_node c l x r =>
      match cmp x with
      | FOUND => rb_node c l node r
      | GO_LEFT => rb_node c (rb_assign cmp node l) x r
      | GO_RIGHT => rb_node c l x (rb_assign cmp node r)
      end
  end.

(** [rb_insert_color] of lib/rbtree.c re-balances after a link: it
    recolours and rotates, which keeps the in-order sequence. *)
Class RbTreeLib : Type := {
  rb_insert_color : forall {A : Type}, A -> rb_root A -> rb_root A;
  rb_insert_color_inorder :
    forall (A : Type) (node : A) (t : rb_root A),
      rb_inorder (rb_insert_color node t) = rb_inorder t
}.

(** ** Attaching information (ubi.h)

    [scrub] and [copy_flag] of [struct ubi_ainf_peb] are one-bit
    bit-fields: a store keeps the low bit of the value. *)

Record ubi_ainf_peb := mk_aeb {
  aeb_ec : Z;
  aeb_pnum : Z;
  aeb_vol_id : Z;
  aeb_lnum : Z;
  aeb_scrub : bool;
  aeb_copy_flag : bool;
  aeb_sqnum : Z
}.

Record ubi_ainf_volume := mk_av {
  av_vol_id : Z;
  av_highest_lnum : Z;
  av_leb_count : Z;
  av_vol_type : Z;
  av_used_ebs : Z;
  av_last_data_size : Z;
  av_data_pad : Z;
  av_compat : Z;
  av_root : rb_root ubi_ainf_peb
}.

Record ubi_attach_info := mk_ai {
  ai_volumes : rb_root ubi_ainf_volume;
  ai_corr : list ubi_ainf_peb;
  ai_free : list ubi_ainf_peb;
  ai_erase : list ubi_ainf_peb;
  ai_alien : list ubi_ainf_peb;
  ai_waiting : list ubi_ainf_peb;
  corr_peb_count : Z;
  empty_peb_count : Z;
  alien_peb_count : Z;
  bad_peb_count : Z;
  maybe_bad_peb_count : Z;
  vols_found : Z;
  highest_vol_id : Z;
  is_empty : Z;
  min_ec : Z;
  max_ec : Z;
  max_sqnum : Z;
  mean_ec : Z;
  ec_sum : Z;
  ec_count : Z
}.

(** The list heads [add_to_list] accepts; any other pointer is a BUG(). *)
Inductive ai_list := LIST_FREE | LIST_ERASE | LIST_ALIEN | LIST_WAITING.

Inductive io_event :=
| IO_IS_BAD (pnum : Z)
| IO_READ_EC_HDR (pnum : Z)
| IO_READ_VID_HDR (pnum : Z)
| IO_READ (pnum offset len : Z).

Record ubi_device := mk_ubi {
  peb_count : Z;
  leb_size : Z;
  leb_start : Z;
  image_seq : Z;
  ro_mode : Z;
  peb_buf : list Z;
  dbg_chk_gen : bool;
  io_log : list io_event;
  allocs : nat
}.

(** The collaborators of [attach.c]: the I/O sub-system, the allocators
    and the random source, each asked at a time (the number of earlier
    requests of its kind), and the build option. *)
Record ubi_platform := mk_platform {
  CONFIG_MTD_UBI_LOWPAGE_BACKUP : bool;
  io_is_bad : nat -> Z -> Z;
  io_read_ec_hdr : nat -> Z -> Z * ubi_ec_hdr;
  io_read_vid_hdr : nat -> Z -> Z * ubi_vid_hdr;
  io_read : nat -> Z -> Z -> Z -> Z * list Z;
  slab_alloc : nat -> option ubi_ainf_peb;
  kmalloc_av : nat -> option ubi_ainf_volume;
  kmalloc_ok : nat -> bool;
  random_bytes : nat -> Z
}.

(** ** Field stores *)

Definition set_ai_volumes (v : rb_root ubi_ainf_volume) (ai : ubi_attach_info) : ubi_attach_info :=
  mk_ai v (ai_corr ai) (ai_free ai) (ai_erase ai) (ai_alien ai)
    (ai_waiting ai) (corr_peb_count ai) (empty_peb_count ai)
    (alien_peb_count ai) (bad_peb_count ai) (maybe_bad_peb_count ai)
    (vols_found ai) (highest_vol_id ai) (is_empty ai) (min_ec ai) (max_ec ai)
    (max_sqnum ai) (mean_ec ai) (ec_sum ai) (ec_count ai).

Definition set_ai_corr (v : list ubi_ainf_peb) (ai : ubi_attach_info) : ubi_attach_info :=
  mk_ai (ai_volumes ai) v (ai_free ai) (ai_erase ai) (ai_alien ai)
    (ai_waiting ai) (corr_peb_count ai) (empty_peb_count ai)
    (alien_peb_count ai) (bad_peb_count ai) (maybe_bad_peb_count ai)
    (vols_found ai) (highest_vol_id ai) (is_empty ai) (min_ec ai) (max_ec ai)
    (max_sqnum ai) (mean_ec ai) (ec_sum ai) (ec_count ai).

Definition set_ai_free (v : list ubi_ainf_peb) (ai : ubi_attach_info) : ubi_attach_info :=
  mk_ai (ai_volumes ai) (ai_corr ai) v (ai_erase ai) (ai_alien ai)
    (ai_waiting ai) (corr_peb_count ai) (empty_peb_count ai)
    (alien_peb_count ai) (bad_peb_count ai) (maybe_bad_peb_count ai)
    (vols_found ai) (highest_vol_id ai) (is_empty ai) (min_ec ai) (max_ec ai)
    (max_sqnum ai) (mean_ec ai) (ec_sum ai) (ec_count ai).

Definition set_ai_erase (v : list ubi_ainf_peb) (ai : ubi_attach_info) : ubi_attach_info :=
  mk_ai (ai_volumes ai) (ai_corr ai) (ai_free ai) v (ai_alien ai)
    (ai_waiting ai) (corr_peb_count ai) (empty_peb_count ai)
    (alien_peb_count ai) (bad_peb_count ai) (maybe_bad_peb_count ai)
    (vols_found ai) (highest_vol_id ai) (is_empty ai) (min_ec ai) (max_ec ai)
    (max_sqnum ai) (mean_ec ai) (ec_sum ai) (ec_count ai).

Definition set_ai_alien (v : list ubi_ainf_peb) (ai : ubi_attach_info) : ubi_attach_info :=
  mk_ai (ai_volumes ai) (ai_corr ai) (ai_free ai) (ai_erase ai) v
    (ai_waiting ai) (corr_peb_count ai) (empty_peb_count ai)
    (alien_peb_count ai) (bad_peb_count ai) (maybe_bad_peb_count ai)
    (vols_found ai) (highest_vol_id ai) (is_empty ai) (min_ec ai) (max_ec ai)
    (max_sqnum ai) (mean_ec ai) (ec_sum ai) (ec_count ai).

Definition set_ai_waiting (v : list ubi_ainf_peb) (ai : ubi_attach_info) : ubi_attach_info :=
  mk_ai (ai_volumes ai) (ai_corr ai) (ai_free ai) (ai_erase ai) (ai_alien ai)
    v (corr_peb_count ai) (empty_peb_count ai) (alien_peb_count ai)
    (bad_peb_count ai) (maybe_bad_peb_count ai) (vols_found ai)
    (highest_vol_id ai) (is_empty ai) (min_ec ai) (max_ec ai) (max_sqnum ai)
    (mean_ec ai) (ec_sum ai) (ec_count ai).

Definition set_corr_peb_count (v : Z) (ai : ubi_attach_info) : ubi_attach_info :=
  mk_ai (ai_volumes ai) (ai_corr ai) (ai_free ai) (ai_erase ai) (ai_alien ai)
    (ai_waiting ai) v (empty_peb_count ai) (alien_peb_count ai)
    (bad_peb_count ai) (maybe_bad_peb_count ai) (vols_found ai)
    (highest_vol_id ai) (is_empty ai) (min_ec ai) (max_ec ai) (max_sqnum ai)
    (mean_ec ai) (ec_sum ai) (ec_count ai).

Definition set_empty_peb_count (v : Z) (ai : ubi_attach_info) : ubi_attach_info :=
  mk_ai (ai_volumes ai) (ai_corr ai) (ai_free ai) (ai_erase ai) (ai_alien ai)
    (ai_waiting ai) (corr_peb_count ai) v (alien_peb_count ai)
    (bad_peb_count ai) (maybe_bad_peb_count ai) (vols_found ai)
    (highest_vol_id ai) (is_empty ai) (min_ec ai) (max_ec ai) (max_sqnum ai)
    (mean_ec ai) (ec_sum ai) (ec_count ai).

Definition set_alien_peb_count (v : Z) (ai : ubi_attach_info) : ubi_attach_info :=
  mk_ai (ai_volumes ai) (ai_corr ai) (ai_free ai) (ai_erase ai) (ai_alien ai)
    (ai_waiting ai) (corr_peb_count ai) (empty_peb_count ai) v
    (bad_peb_count ai) (maybe_bad_peb_count ai) (vols_found ai)
    (highest_vol_id ai) (is_empty ai) (min_ec ai) (max_ec ai) (max_sqnum ai)
    (mean_ec ai) (ec_sum ai) (ec_count ai).

Definition set_bad_peb_count (v : Z) (ai : ubi_attach_info) : ubi_attach_info :=
  mk_ai (ai_volumes ai) (ai_corr ai) (ai_free ai) (ai_erase ai) (ai_alien ai)
    (ai_waiting ai) (corr_peb_count ai) (empty_peb_count ai)
    (alien_peb_count ai) v (maybe_bad_peb_count ai) (vols_found ai)
    (highest_vol_id ai) (is_empty ai) (min_ec ai) (max_ec ai) (max_sqnum ai)
    (mean_ec ai) (ec_sum ai) (ec_count ai).

Definition set_maybe_bad_peb_count (v : Z) (ai : ubi_attach_info) : ubi_attach_info :=
  mk_ai (ai_volumes ai) (ai_corr ai) (ai_free ai) (ai_erase ai) (ai_alien ai)
    (ai_waiting ai) (corr_peb_count ai) (empty_peb_count ai)
    (alien_peb_count ai) (bad_peb_count ai) v (vols_found ai)
    (highest_vol_id ai) (is_empty ai) (min_ec ai) (max_ec ai) (max_sqnum ai)
    (mean_ec ai) (ec_sum ai) (ec_count ai).

Definition set_vols_found (v : Z) (ai : ubi_attach_info) : ubi_attach_info :=
  mk_ai (ai_volumes ai) (ai_corr ai) (ai_free ai) (ai_erase ai) (ai_alien ai)
    (ai_waiting ai) (corr_peb_count ai) (empty_peb_count ai)
    (alien_peb_count ai) (bad_peb_count ai) (maybe_bad_peb_count ai) v
    (highest_vol_id ai) (is_empty ai) (min_ec ai) (max_ec ai) (max_sqnum ai)
    (mean_ec ai) (ec_sum ai) (ec_count ai).

Definition set_highest_vol_id (v : Z) (ai : ubi_attach_info) : ubi_attach_info :=
  mk_ai (ai_volumes ai) (ai_corr ai) (ai_free ai) (ai_erase ai) (ai_alien ai)
    (ai_waiting ai) (corr_peb_count ai) (empty_peb_count ai)
    (alien_peb_count ai) (bad_peb_count ai) (maybe_bad_peb_count ai)
    (vols_found ai) v (is_empty ai) (min_ec ai) (max_ec ai) (max_sqnum ai)
    (mean_ec ai) (ec_sum ai) (ec_count ai).

Definition set_is_empty (v : Z) (ai : ubi_attach_info) : ubi_attach_info :=
  mk_ai (ai_volumes ai) (ai_corr ai) (ai_free ai) (ai_erase ai) (ai_alien ai)
    (ai_waiting ai) (corr_peb_count ai) (empty_peb_count ai)
    (alien_peb_count ai) (bad_peb_count ai) (maybe_bad_peb_count ai)
    (vols_found ai) (highest_vol_id ai) v (min_ec ai) (max_ec ai)
    (max_sqnum ai) (mean_ec ai) (ec_sum ai) (ec_count ai).

Definition set_min_ec (v : Z) (ai : ubi_attach_info) : ubi_attach_info :=
  mk_ai (ai_volumes ai) (ai_corr ai) (ai_free ai) (ai_erase ai) (ai_alien ai)
    (ai_waiting ai) (corr_peb_count ai) (empty_peb_count ai)
    (alien_peb_count ai) (bad_peb_count ai) (maybe_bad_peb_count ai)
    (vols_found ai) (highest_vol_id ai) (is_empty ai) v (max_ec ai)
    (max_sqnum ai) (mean_ec ai) (ec_sum ai) (ec_count ai).

Definition set_max_ec (v : Z) (ai : ubi_attach_info) : ubi_attach_info :=
  mk_ai (ai_volumes ai) (ai_corr ai) (ai_free ai) (ai_erase ai) (ai_alien ai)
    (ai_waiting ai) (corr_peb_count ai) (empty_peb_count ai)
    (alien_peb_count ai) (bad_peb_count ai) (maybe_bad_peb_count ai)
    (vols_found ai) (highest_vol_id ai) (is_empty ai) (min_ec ai) v
    (max_sqnum ai) (mean_ec ai) (ec_sum ai) (ec_count ai).

Definition set_max_sqnum (v : Z) (ai : ubi_attach_info) : ubi_attach_info :=
  mk_ai (ai_volumes ai) (ai_corr ai) (ai_free ai) (ai_erase ai) (ai_alien ai)
    (ai_waiting ai) (corr_peb_count ai) (empty_peb_count ai)
    (alien_peb_count ai) (bad_peb_count ai) (maybe_bad_peb_count ai)
    (vols_found ai) (highest_vol_id ai) (is_empty ai) (min_ec ai) (max_ec ai)
    v (mean_ec ai) (ec_sum ai) (ec_count ai).

Definition set_mean_ec (v : Z) (ai : ubi_attach_info) : ubi_attach_info :=
  mk_ai (ai_volumes ai) (ai_corr ai) (ai_free ai) (ai_erase ai) (ai_alien ai)
    (ai_waiting ai) (corr_peb_count ai) (empty_peb_count ai)
    (alien_peb_count ai) (bad_peb_count ai) (maybe_bad_peb_count ai)
    (vols_found ai) (highest_vol_id ai) (is_empty ai) (min_ec ai) (max_ec ai)
    (max_sqnum ai) v (ec_sum ai) (ec_count ai).

Definition set_ec_sum (v : Z) (ai : ubi_attach_info) : ubi_attach_info :=
  mk_ai (ai_volumes ai) (ai_corr ai) (ai_free ai) (ai_erase ai) (ai_alien ai)
    (ai_waiting ai) (corr_peb_count ai) (empty_peb_count ai)
    (alien_peb_count ai) (bad_peb_count ai) (maybe_bad_peb_count ai)
    (vols_found ai) (highest_vol_id ai) (is_empty ai) (min_ec ai) (max_ec ai)
    (max_sqnum ai) (mean_ec ai) v (ec_count ai).

Definition set_ec_count (v : Z) (ai : ubi_attach_info) : ubi_attach_info :=
  mk_ai (ai_volumes ai) (ai_corr ai) (ai_free ai) (ai_erase ai) (ai_alien ai)
    (ai_waiting ai) (corr_peb_count ai) (empty_peb_count ai)
    (alien_peb_count ai) (bad_peb_count ai) (maybe_bad_peb_count ai)
    (vols_found ai) (highest_vol_id ai) (is_empty ai) (min_ec ai) (max_ec ai)
    (max_sqnum ai) (mean_ec ai) (ec_sum ai) v.

Definition set_image_seq (v : Z) (ubi : ubi_device) : ubi_device :=
  mk_ubi (peb_count ubi) (leb_size ubi) (leb_start ubi) v (ro_mode ubi)
    (peb_buf ubi) (dbg_chk_gen ubi) (io_log ubi) (allocs ubi).

Definition set_ro_mode (v : Z) (ubi : ubi_device) : ubi_device :=
  mk_ubi (peb_count ubi) (leb_size ubi) (leb_start ubi) (image_seq ubi) v
    (peb_buf ubi) (dbg_chk_gen ubi) (io_log ubi) (allocs ubi).

Definition set_peb_buf (v : list Z) (ubi : ubi_device) : ubi_device :=
  mk_ubi (peb_count ubi) (leb_size ubi) (leb_start ubi) (image_seq ubi)
    (ro_mode ubi) v (dbg_chk_gen ubi) (io_log ubi) (allocs ubi).

Definition set_io_log (v : list io_event) (ubi : ubi_device) : ubi_device :=
  mk_ubi (peb_count ubi) (leb_size ubi) (leb_start ubi) (image_seq ubi)
    (ro_mode ubi) (peb_buf ubi) (dbg_chk_gen ubi) v (allocs ubi).

Definition set_allocs (v : nat) (ubi : ubi_device) : ubi_device :=
  mk_ubi (peb_count ubi) (leb_size ubi) (leb_start ubi) (image_seq ubi)
    (ro_mode ubi) (peb_buf ubi) (dbg_chk_gen ubi) (io_log ubi) v.

Definition set_av_vol_id (v : Z) (av : ubi_ainf_volume) : ubi_ainf_volume :=
  mk_av v (av_highest_lnum av) (av_leb_count av) (av_vol_type av)
    (av_used_ebs av) (av_last_data_size av) (av_data_pad av) (av_compat av)
    (av_root av).

Definition set_av_highest_lnum (v : Z) (av : ubi_ainf_volume) : ubi_ainf_volume :=
  mk_av (av_vol_id av) v (av_leb_count av) (av_vol_type av) (av_used_ebs av)
    (av_last_data_size av) (av_data_pad av) (av_compat av) (av_root av).

Definition set_av_leb_count (v : Z) (av : ubi_ainf_volume) : ubi_ainf_volume :=
  mk_av (av_vol_id av) (av_highest_lnum av) v (av_vol_type av)
    (av_used_ebs av) (av_last_data_size av) (av_data_pad av) (av_compat av)
    (av_root av).

Definition set_av_vol_type (v : Z) (av : ubi_ainf_volume) : ubi_ainf_volume :=
  mk_av (av_vol_id av) (av_highest_lnum av) (av_leb_count av) v
    (av_used_ebs av) (av_last_data_size av) (av_data_pad av) (av_compat av)
    (av_root av).

Definition set_av_used_ebs (v : Z) (av : ubi_ainf_volume) : ubi_ainf_volume :=
  mk_av (av_vol_id av) (av_highest_lnum av) (av_leb_count av)
    (av_vol_type av) v (av_last_data_size av) (av_data_pad av) (av_compat av)
    (av_root av).

Definition set_av_last_data_size (v : Z) (av : ubi_ainf_volume) : ubi_ainf_volume :=
  mk_av (av_vol_id av) (av_highest_lnum av) (av_leb_count av)
    (av_vol_type av) (av_used_ebs av) v (av_data_pad av) (av_compat av)
    (av_root av).

Definition set_av_data_pad (v : Z) (av : ubi_ainf_volume) : ubi_ainf_volume :=
  mk_av (av_vol_id av) (av_highest_lnum av) (av_leb_count av)
    (av_vol_type av) (av_used_ebs av) (av_last_data_size av) v (av_compat av)
    (av_root av).

Definition set_av_compat (v : Z) (av : ubi_ainf_volume) : ubi_ainf_volume :=
  mk_av (av_vol_id av) (av_highest_lnum av) (av_leb_count av)
    (av_vol_type av) (av_used_ebs av) (av_last_data_size av) (av_data_pad av)
    v (av_root av).

Definition set_av_root (v : rb_root ubi_ainf_peb) (av : ubi_ainf_volume) : ubi_ainf_volume :=
  mk_av (av_vol_id av) (av_highest_lnum av) (av_leb_count av)
    (av_vol_type av) (av_used_ebs av) (av_last_data_size av) (av_data_pad av)
    (av_compat av) v.

Definition set_aeb_ec (v : Z) (aeb : ubi_ainf_peb) : ubi_ainf_peb :=
  mk_aeb v (aeb_pnum aeb) (aeb_vol_id aeb) (aeb_lnum aeb) (aeb_scrub aeb)
    (aeb_copy_flag aeb) (aeb_sqnum aeb).

Definition set_aeb_pnum (v : Z) (aeb : ubi_ainf_peb) : ubi_ainf_peb :=
  mk_aeb (aeb_ec aeb) v (aeb_vol_id aeb) (aeb_lnum aeb) (aeb_scrub aeb)
    (aeb_copy_flag aeb) (aeb_sqnum aeb).

Definition set_aeb_vol_id (v : Z) (aeb : ubi_ainf_peb) : ubi_ainf_peb :=
  mk_aeb (aeb_ec aeb) (aeb_pnum aeb) v (aeb_lnum aeb) (aeb_scrub aeb)
    (aeb_copy_flag aeb) (aeb_sqnum aeb).

Definition set_aeb_lnum (v : Z) (aeb : ubi_ainf_peb) : ubi_ainf_peb :=
  mk_aeb (aeb_ec aeb) (aeb_pnum aeb) (aeb_vol_id aeb) v (aeb_scrub aeb)
    (aeb_copy_flag aeb) (aeb_sqnum aeb).

Definition set_aeb_scrub (v : bool) (aeb : ubi_ainf_peb) : ubi_ainf_peb :=
  mk_aeb (aeb_ec aeb) (aeb_pnum aeb) (aeb_vol_id aeb) (aeb_lnum aeb) v
    (aeb_copy_flag aeb) (aeb_sqnum aeb).

Definition set_aeb_copy_flag (v : bool) (aeb : ubi_ainf_peb) : ubi_ainf_peb :=
  mk_aeb (aeb_ec aeb) (aeb_pnum aeb) (aeb_vol_id aeb) (aeb_lnum aeb)
    (aeb_scrub aeb) v (aeb_sqnum aeb).

Definition set_aeb_sqnum (v : Z) (aeb : ubi_ainf_peb) : ubi_ainf_peb :=
  mk_aeb (aeb_ec aeb) (aeb_pnum aeb) (aeb_vol_id aeb) (aeb_lnum aeb)
    (aeb_scrub aeb) (aeb_copy_flag aeb) v.

(** ** Small C idioms *)

Notation "x !=? y" := (negb (Z.eqb x y)) (at level 70, no associativity) : Z_scope.

Definition b2z (b : bool) : Z := if b then 1 else 0.

Definition list_add {A} (new : A) (head : list A) : list A := new :: head.
Definition list_add_tail {A} (new : A) (head : list A) : list A := head ++ [new].

(** [memcpy]-like store of [data] at the start of a buffer. *)
Definition buf_store (data buf : list Z) : list Z :=
  data ++ skipn (length data) buf.

Definition memset (buf : list Z) (c : Z) (n : Z) : list Z :=
  buf_store (repeat c (Z.to_nat n)) buf.

(** [ubi_check_pattern] of io.c: 1 iff the first [size] bytes are all
    [patt] (the same test as [check_pattern] in this file). *)
Definition ubi_check_pattern (buf : list Z) (patt : Z) (size : Z) : bool :=
  forallb (Z.eqb patt) (firstn (Z.to_nat size) buf).

(** A pointer result: [IS_ERR]/[PTR_ERR]. *)
Inductive ptr_or_err (A : Type) : Type :=
| PTR (a : A)
| ERR_PTR (err : Z).

Arguments PTR {A} a.
Arguments ERR_PTR {A} err.

Definition ai_list_get (lst : ai_list) (ai : ubi_attach_info) : list ubi_ainf_peb :=
  match lst with
  | LIST_FREE => ai_free ai
  | LIST_ERASE => ai_erase ai
  | LIST_ALIEN => ai_alien ai
  | LIST_WAITING => ai_waiting ai
  end.

Definition ai_list_set (lst : ai_list) (v : list ubi_ainf_peb)
    (ai : ubi_attach_info) : ubi_attach_info :=
  match lst with
  | LIST_FREE => set_ai_free v ai
  | LIST_ERASE => set_ai_erase v ai
  | LIST_ALIEN => set_ai_alien v ai
  | LIST_WAITING => set_ai_waiting v ai
  end.

(** ** The functions of attach.c *)

Section Attach.

Context {RB : RbTreeLib}.
Variable P : ubi_platform.

(** *** Calls into the collaborators *)

Definition now (ubi : ubi_device) : nat := length (io_log ubi).

Definition io_done (e : io_event) (ubi : ubi_device) : ubi_device :=
  set_io_log (io_log ubi ++ [e]) ubi.

Definition ubi_io_is_bad (ubi : ubi_device) (pnum : Z) : Z * ubi_device :=
  (io_is_bad P (now ubi) pnum, io_done (IO_IS_BAD pnum) ubi).

Definition ubi_io_read_ec_hdr (ubi : ubi_device) (pnum : Z)
    : Z * ubi_ec_hdr * ubi_device :=
  (io_read_ec_hdr P (now ubi) pnum, io_done (IO_READ_EC_HDR pnum) ubi).

Definition ubi_io_read_vid_hdr (ubi : ubi_device) (pnum : Z)
    : Z * ubi_vid_hdr * ubi_device :=
  (io_read_vid_hdr P (now ubi) pnum, io_done (IO_READ_VID_HDR pnum) ubi).

(** [ubi_io_read(ubi, ubi->peb_buf, pnum, offset, len)]. *)
Definition ubi_io_read (ubi : ubi_device) (pnum offset len : Z) : Z * ubi_device :=
  let '(err, data) := io_read P (now ubi) pnum offset len in
  (err,
   set_peb_buf (buf_store (firstn (Z.to_nat len) data) (peb_buf ubi))
     (io_done (IO_READ pnum offset len) ubi)).

(** [ubi_io_read_data] of ubi.h reads relative to the data area. *)
Definition ubi_io_read_data (ubi : ubi_device) (pnum offset len : Z) : Z * ubi_device :=
  ubi_io_read ubi pnum (to_s32 (offset + leb_start ubi)) len.

Definition alloc_done (ubi : ubi_device) : ubi_device :=
  set_allocs (S (allocs ubi)) ubi.

(** [kmem_cache_alloc(ai->aeb_slab_cache, GFP_KERNEL)]: NULL, or an
    object whose fields hold whatever the slab had there. *)
Definition kmem_cache_alloc (ubi : ubi_device) : option ubi_ainf_peb * ubi_device :=
  (slab_alloc P (allocs ubi), alloc_done ubi).

(** [kmalloc(sizeof(struct ubi_ainf_volume), GFP_KERNEL)]. *)
Definition kmalloc_volume (ubi : ubi_device) : option ubi_ainf_volume * ubi_device :=
  (kmalloc_av P (allocs ubi), alloc_done ubi).

(** [kzalloc] of a scratch object, and [ubi_zalloc_vid_hdr]. *)
Definition kzalloc (ubi : ubi_device) : bool * ubi_device :=
  (kmalloc_ok P (allocs ubi), alloc_done ubi).

Definition ubi_zalloc_vid_hdr := kzalloc.

(** *** add_to_list *)

Definition add_to_list (ubi : ubi_device) (ai : ubi_attach_info)
    (pnum vol_id lnum ec to_head : Z) (lst : ai_list)
    : Z * ubi_device * ubi_attach_info :=
  let ai :=
    match lst with
    | LIST_ALIEN => set_alien_peb_count (to_s32 (alien_peb_count ai + 1)) ai
    | _ => ai
    end in
  match kmem_cache_alloc ubi with
  | (None, ubi) => (- ENOMEM, ubi, ai)
  | (Some aeb, ubi) =>
      let aeb := set_aeb_pnum pnum aeb in
      let aeb := set_aeb_vol_id vol_id aeb in
      let aeb := set_aeb_lnum lnum aeb in
      let aeb := set_aeb_ec ec aeb in
      if to_head !=? 0
      then (0, ubi, ai_list_set lst (list_add aeb (ai_list_get lst ai)) ai)
      else (0, ubi, ai_list_set lst (list_add_tail aeb (ai_list_get lst ai)) ai)
  end.

(** *** add_corrupted *)

Definition add_corrupted (ubi : ubi_device) (ai : ubi_attach_info) (pnum ec : Z)
    : Z * ubi_device * ubi_attach_info :=
  match kmem_cache_alloc ubi with
  | (None, ubi) => (- ENOMEM, ubi, ai)
  | (Some aeb, ubi) =>
      let ai := set_corr_peb_count (to_s32 (corr_peb_count ai + 1)) ai in
      let aeb := set_aeb_pnum pnum aeb in
      let aeb := set_aeb_ec ec aeb in
      (0, ubi, set_ai_corr (list_add aeb (ai_corr ai)) ai)
  end.

(** *** validate_vid_hdr *)

Definition validate_vid_hdr (vid_hdr : ubi_vid_hdr) (av : ubi_ainf_volume) (pnum : Z) : Z :=
  let vol_type := vh_vol_type vid_hdr in
  let vol_id := to_s32 (vh_vol_id vid_hdr) in
  let used_ebs := to_s32 (vh_used_ebs vid_hdr) in
  let data_pad := to_s32 (vh_data_pad vid_hdr) in
  if av_leb_count av !=? 0 then
    if vol_id !=? av_vol_id av then - EINVAL
    else
      let av_vol_type :=
        if av_vol_type av =? UBI_STATIC_VOLUME then UBI_VID_STATIC
        else UBI_VID_DYNAMIC in
      if vol_type !=? av_vol_type then - EINVAL
      else if used_ebs !=? av_used_ebs av then - EINVAL
      else if data_pad !=? av_data_pad av then - EINVAL
      else 0
  else 0.

(** *** add_volume *)

(** The comparison of the volume tree: a larger [vol_id] goes left. *)
Definition vol_cmp (vol_id : Z) (av : ubi_ainf_volume) : rb_step :=
  if vol_id =? av_vol_id av then FOUND
  else if vol_id >? av_vol_id av then GO_LEFT
  else GO_RIGHT.

Definition add_volume (ubi : ubi_device) (ai : ubi_attach_info)
    (vol_id pnum : Z) (vid_hdr : ubi_vid_hdr)
    : ptr_or_err ubi_ainf_volume * ubi_device * ubi_attach_info :=
  match rb_walk (vol_cmp vol_id) (ai_volumes ai) with
  | Some av => (PTR av, ubi, ai)
  | None =>
      match kmalloc_volume ubi with
      | (None, ubi) => (ERR_PTR (- ENOMEM), ubi, ai)
      | (Some av, ubi) =>
          let av := set_av_leb_count 0 av in
          let av := set_av_highest_lnum 0 av in
          let av := set_av_vol_id vol_id av in
          let av := set_av_root RB_ROOT av in
          let av := set_av_used_ebs (to_s32 (vh_used_ebs vid_hdr)) av in
          let av := set_av_data_pad (to_s32 (vh_data_pad vid_hdr)) av in
          let av := set_av_compat (vh_compat vid_hdr) av in
          let av :=
            set_av_vol_type
              (if vh_vol_type vid_hdr =? UBI_VID_DYNAMIC then UBI_DYNAMIC_VOLUME
               else UBI_STATIC_VOLUME) av in
          let ai :=
            if vol_id >? highest_vol_id ai then set_highest_vol_id vol_id ai
            else ai in
          let ai :=
            set_ai_volumes
              (rb_insert_color av (rb_link_node (vol_cmp vol_id) av (ai_volumes ai)))
              ai in
          let ai := set_vols_found (to_s32 (vols_found ai + 1)) ai in
          (PTR av, ubi, ai)
      end
  end.

(** *** ubi_find_av *)

Fixpoint find_av_loop (vol_id : Z) (p : rb_root ubi_ainf_volume)
    : option ubi_ainf_volume :=
  match p with
  | RB_ROOT => None
  | rb_node _ l av r =>
      if vol_id =? av_vol_id av then Some av
      else if vol_id >? av_vol_id av then find_av_loop vol_id l
      else find_av_loop vol_id r
  end.

Definition ubi_find_av (ai : ubi_attach_info) (vol_id : Z) : option ubi_ainf_volume :=
  find_av_loop vol_id (ai_volumes ai).

(** *** ubi_compare_lebs *)

(** The part after "Read the data of the copy and check the CRC", for
    the values of [pnum], [vid_hdr], [second_is_newer] and [bitflips]
    the code reaches it with. *)
Definition compare_lebs_crc (ubi : ubi_device) (pnum : Z) (vid_hdr : ubi_vid_hdr)
    (second_is_newer : bool) (bitflips : Z) : Z * ubi_device :=
  let len := to_s32 (vh_data_size vid_hdr) in
  let '(err, ubi) := ubi_io_read_data ubi pnum 0 len in
  if (err !=? 0) && (err !=? UBI_IO_BITFLIPS) && negb (mtd_is_eccerr err)
  then (err, ubi)
  else
    let data_crc := to_u32 (vh_data_crc vid_hdr) in
    let crc := to_u32 (crc32 UBI_CRC32_INIT (firstn (Z.to_nat len) (peb_buf ubi))) in
    if crc !=? data_crc then
      (Z.lor (Z.lor (b2z (negb second_is_newer)) (Z.shiftl 0 1)) (Z.shiftl 1 2), ubi)
    else
      (Z.lor (Z.lor (b2z second_is_newer)
                (Z.shiftl (Z.lor bitflips (b2z (err !=? 0))) 1))
         (Z.shiftl 0 2), ubi).

Definition ubi_compare_lebs (ubi : ubi_device) (aeb : ubi_ainf_peb) (pnum : Z)
    (vid_hdr : ubi_vid_hdr) : Z * ubi_device :=
  let sqnum2 := vh_sqnum vid_hdr in
  if sqnum2 =? aeb_sqnum aeb then (- EINVAL, ubi)
  else
    let second_is_newer := sqnum2 >? aeb_sqnum aeb in
    if second_is_newer then
      if vh_copy_flag vid_hdr =? 0 then (1, ubi)
      else compare_lebs_crc ubi pnum vid_hdr true 0
    else
      if negb (aeb_copy_flag aeb) then (Z.shiftl 0 1, ubi)
      else
        match ubi_zalloc_vid_hdr ubi with
        | (false, ubi) => (- ENOMEM, ubi)
        | (true, ubi) =>
            let pnum := aeb_pnum aeb in
            let '(err, vh, ubi) := ubi_io_read_vid_hdr ubi pnum in
            if err !=? 0 then
              if err =? UBI_IO_BITFLIPS
              then compare_lebs_crc ubi pnum vh false 1
              else ((if err >? 0 then - EIO else err), ubi)
            else compare_lebs_crc ubi pnum vh false 0
        end.

(** *** ubi_add_to_av *)

(** The comparison of a volume's tree of LEBs: a smaller [lnum] goes left. *)
Definition lnum_cmp (lnum : Z) (aeb : ubi_ainf_peb) : rb_step :=
  if lnum !=? aeb_lnum aeb then
    if lnum <? aeb_lnum aeb then GO_LEFT else GO_RIGHT
  else FOUND.

(** Stores through the pointer [av] that [add_volume] returned.  The
    volume is the node of the tree that carries its [vol_id]; there is
    one such node (see [volumes_sorted_unique]). *)
Definition av_store (av : ubi_ainf_volume) (ai : ubi_attach_info) : ubi_attach_info :=
  set_ai_volumes
    (rb_map (fun v => if av_vol_id v =? av_vol_id av then av else v) (ai_volumes ai))
    ai.

Definition ubi_add_to_av (ubi : ubi_device) (ai : ubi_attach_info)
    (pnum ec : Z) (vid_hdr : ubi_vid_hdr) (bitflips : Z)
    : Z * ubi_device * ubi_attach_info :=
  let vol_id := to_s32 (vh_vol_id vid_hdr) in
  let lnum := to_s32 (vh_lnum vid_hdr) in
  let sqnum := vh_sqnum vid_hdr in
  match add_volume ubi ai vol_id pnum vid_hdr with
  | (ERR_PTR err, ubi, ai) => (err, ubi, ai)
  | (PTR av, ubi, ai) =>
      let ai := if max_sqnum ai <? sqnum then set_max_sqnum sqnum ai else ai in
      match rb_walk (lnum_cmp lnum) (av_root av) with
      | Some aeb =>
          if (aeb_sqnum aeb =? sqnum) && (sqnum !=? 0) then (- EINVAL, ubi, ai)
          else
            let '(cmp_res, ubi) := ubi_compare_lebs ubi aeb pnum vid_hdr in
            if cmp_res <? 0 then (cmp_res, ubi, ai)
            else if Z.land cmp_res 1 !=? 0 then
              let err := validate_vid_hdr vid_hdr av pnum in
              if err !=? 0 then (err, ubi, ai)
              else
                let '(err, ubi, ai) :=
                  add_to_list ubi ai (aeb_pnum aeb) (aeb_vol_id aeb) (aeb_lnum aeb)
                    (aeb_ec aeb) (Z.land cmp_res 4) LIST_ERASE in
                if err !=? 0 then (err, ubi, ai)
                else
                  let aeb := set_aeb_ec ec aeb in
                  let aeb := set_aeb_pnum pnum aeb in
                  let aeb := set_aeb_vol_id vol_id aeb in
                  let aeb := set_aeb_lnum lnum aeb in
                  let aeb :=
                    set_aeb_scrub ((Z.land cmp_res 2 !=? 0) || (bitflips !=? 0)) aeb in
                  let aeb := set_aeb_copy_flag (Z.odd (vh_copy_flag vid_hdr)) aeb in
                  let aeb := set_aeb_sqnum sqnum aeb in
                  let av := set_av_root (rb_assign (lnum_cmp lnum) aeb (av_root av)) av in
                  let av :=
                    if av_highest_lnum av =? lnum
                    then set_av_last_data_size (to_s32 (vh_data_size vid_hdr)) av
                    else av in
                  (0, ubi, av_store av ai)
            else
              add_to_list ubi ai pnum vol_id lnum ec (Z.land cmp_res 4) LIST_ERASE
      | None =>
          let err := validate_vid_hdr vid_hdr av pnum in
          if err !=? 0 then (err, ubi, ai)
          else
            match kmem_cache_alloc ubi with
            | (None, ubi) => (- ENOMEM, ubi, ai)
            | (Some aeb, ubi) =>
                let aeb := set_aeb_ec ec aeb in
                let aeb := set_aeb_pnum pnum aeb in
                let aeb := set_aeb_vol_id vol_id aeb in
                let aeb := set_aeb_lnum lnum aeb in
                let aeb := set_aeb_scrub (Z.odd bitflips) aeb in
                let aeb := set_aeb_copy_flag (Z.odd (vh_copy_flag vid_hdr)) aeb in
                let aeb := set_aeb_sqnum sqnum aeb in
                let av :=
                  if av_highest_lnum av <=? lnum
                  then set_av_last_data_size (to_s32 (vh_data_size vid_hdr))
                         (set_av_highest_lnum lnum av)
                  else av in
                let av := set_av_leb_count (to_s32 (av_leb_count av + 1)) av in
                let av :=
                  set_av_root
                    (rb_insert_color aeb (rb_link_node (lnum_cmp lnum) aeb (av_root av)))
                    av in
                (0, ubi, av_store av ai)
            end
      end
  end.

(** *** check_corruption *)

Definition check_corruption (ubi : ubi_device) (vid_hdr : ubi_vid_hdr) (pnum : Z)
    : Z * ubi_device :=
  let ubi := set_peb_buf (memset (peb_buf ubi) 0 (leb_size ubi)) ubi in
  let '(err, ubi) := ubi_io_read ubi pnum (leb_start ubi) (leb_size ubi) in
  if (err =? UBI_IO_BITFLIPS) || mtd_is_eccerr err then (0, ubi)
  else if err !=? 0 then (err, ubi)
  else if ubi_check_pattern (peb_buf ubi) 0xFF (leb_size ubi) then (err, ubi)
  else (1, ubi).

(** *** scan_peb *)

(** The label [adjust_mean_ec]. *)
Definition adjust_mean_ec (ai : ubi_attach_info) (ec_err ec : Z) : ubi_attach_info :=
  if ec_err =? 0 then
    let ai := set_ec_sum (to_u64 (ec_sum ai + ec)) ai in
    let ai := set_ec_count (to_s32 (ec_count ai + 1)) ai in
    let ai := if ec >? max_ec ai then set_max_ec (to_s32 ec) ai else ai in
    let ai := if ec <? min_ec ai then set_min_ec (to_s32 ec) ai else ai in
    ai
  else ai.

(** From the call of [ubi_add_to_av] to the end. *)
Definition scan_peb_admit (ubi : ubi_device) (ai : ubi_attach_info)
    (pnum ec : Z) (vidh : ubi_vid_hdr) (bitflips ec_err : Z)
    : Z * ubi_device * ubi_attach_info :=
  let '(err, ubi, ai) := ubi_add_to_av ubi ai pnum (to_s32 ec) vidh bitflips in
  if err !=? 0 then (err, ubi, ai)
  else (0, ubi, adjust_mean_ec ai ec_err ec).

(** After the VID header was read as valid: the dispatch on internal
    volumes. *)
Definition scan_peb_vol (ubi : ubi_device) (ai : ubi_attach_info)
    (pnum ec : Z) (vidh : ubi_vid_hdr) (bitflips ec_err : Z)
    : Z * ubi_device * ubi_attach_info :=
  let vol_id := to_s32 (vh_vol_id vidh) in
  if (vol_id >? UBI_MAX_VOLUMES) && (vol_id !=? UBI_LAYOUT_VOLUME_ID) then
    let lnum := to_s32 (vh_lnum vidh) in
    if vh_compat vidh =? UBI_COMPAT_DELETE then
      let '(err, ubi, ai) :=
        add_to_list ubi ai pnum vol_id lnum (to_s32 ec) 1 LIST_ERASE in
      if err !=? 0 then (err, ubi, ai) else (0, ubi, ai)
    else if vh_compat vidh =? UBI_COMPAT_RO then
      scan_peb_admit (set_ro_mode 1 ubi) ai pnum ec vidh bitflips ec_err
    else if vh_compat vidh =? UBI_COMPAT_PRESERVE then
      let '(err, ubi, ai) :=
        add_to_list ubi ai pnum vol_id lnum (to_s32 ec) 0 LIST_ALIEN in
      if err !=? 0 then (err, ubi, ai) else (0, ubi, ai)
    else if vh_compat vidh =? UBI_COMPAT_REJECT then (- EINVAL, ubi, ai)
    else scan_peb_admit ubi ai pnum ec vidh bitflips ec_err
  else scan_peb_admit ubi ai pnum ec vidh bitflips ec_err.

(** "OK, we've done with the EC header, let's look at the VID header". *)
Definition scan_peb_vid (ubi : ubi_device) (ai : ubi_attach_info)
    (pnum ec : Z) (bitflips ec_err : Z)
    : Z * ubi_device * ubi_attach_info :=
  let '(err, vidh, ubi) := ubi_io_read_vid_hdr ubi pnum in
  if err <? 0 then (err, ubi, ai)
  else if err =? 0 then scan_peb_vol ubi ai pnum ec vidh bitflips ec_err
  else if err =? UBI_IO_BITFLIPS then scan_peb_vol ubi ai pnum ec vidh 1 ec_err
  else if (err =? UBI_IO_BAD_HDR_EBADMSG) || (err =? UBI_IO_BAD_HDR) then
    let ai :=
      if (err =? UBI_IO_BAD_HDR_EBADMSG) && (ec_err =? UBI_IO_BAD_HDR_EBADMSG)
      then set_maybe_bad_peb_count (to_s32 (maybe_bad_peb_count ai + 1)) ai
      else ai in
    let '(err, ubi) :=
      if ec_err !=? 0 then (0, ubi) else check_corruption ubi vidh pnum in
    if err <? 0 then (err, ubi, ai)
    else
      let '(err, ubi, ai) :=
        if err =? 0 then
          add_to_list ubi ai pnum UBI_UNKNOWN UBI_UNKNOWN (to_s32 ec) 1
            (if CONFIG_MTD_UBI_LOWPAGE_BACKUP P then LIST_WAITING else LIST_ERASE)
        else add_corrupted ubi ai pnum (to_s32 ec) in
      if err !=? 0 then (err, ubi, ai)
      else (0, ubi, adjust_mean_ec ai ec_err ec)
  else if err =? UBI_IO_FF_BITFLIPS then
    let '(err, ubi, ai) :=
      add_to_list ubi ai pnum UBI_UNKNOWN UBI_UNKNOWN (to_s32 ec) 1 LIST_ERASE in
    if err !=? 0 then (err, ubi, ai)
    else (0, ubi, adjust_mean_ec ai ec_err ec)
  else if err =? UBI_IO_FF then
    let '(err, ubi, ai) :=
      if (ec_err !=? 0) || (bitflips !=? 0)
      then add_to_list ubi ai pnum UBI_UNKNOWN UBI_UNKNOWN (to_s32 ec) 1 LIST_ERASE
      else add_to_list ubi ai pnum UBI_UNKNOWN UBI_UNKNOWN (to_s32 ec) 0 LIST_FREE in
    if err !=? 0 then (err, ubi, ai)
    else (0, ubi, adjust_mean_ec ai ec_err ec)
  else (- EINVAL, ubi, ai).

(** After the switch on the result of [ubi_io_read_ec_hdr]. *)
Definition scan_peb_ec (ubi : ubi_device) (ai : ubi_attach_info)
    (pnum : Z) (ech : ubi_ec_hdr) (bitflips ec_err : Z)
    : Z * ubi_device * ubi_attach_info :=
  if ec_err =? 0 then
    if ech_version ech !=? UBI_VERSION then (- EINVAL, ubi, ai)
    else
      let ec := to_s64 (ech_ec ech) in
      if ec >? UBI_MAX_ERASECOUNTER then (- EINVAL, ubi, ai)
      else
        let seq := to_s32 (ech_image_seq ech) in
        let ubi := if image_seq ubi =? 0 then set_image_seq seq ubi else ubi in
        if (seq !=? 0) && (image_seq ubi !=? seq) then (- EINVAL, ubi, ai)
        else scan_peb_vid ubi ai pnum ec bitflips ec_err
  else scan_peb_vid ubi ai pnum UBI_UNKNOWN bitflips ec_err.

Definition scan_peb (ubi : ubi_device) (ai : ubi_attach_info) (pnum : Z)
    : Z * ubi_device * ubi_attach_info :=
  let '(err, ubi) := ubi_io_is_bad ubi pnum in
  if err <? 0 then (err, ubi, ai)
  else if err !=? 0 then
    (0, ubi, set_bad_peb_count (to_s32 (bad_peb_count ai + 1)) ai)
  else
    let '(err, ech, ubi) := ubi_io_read_ec_hdr ubi pnum in
    if err <? 0 then (err, ubi, ai)
    else if err =? 0 then scan_peb_ec ubi ai pnum ech 0 0
    else if err =? UBI_IO_BITFLIPS then scan_peb_ec ubi ai pnum ech 1 0
    else if err =? UBI_IO_FF then
      add_to_list ubi (set_empty_peb_count (to_s32 (empty_peb_count ai + 1)) ai)
        pnum UBI_UNKNOWN UBI_UNKNOWN UBI_UNKNOWN 0 LIST_ERASE
    else if err =? UBI_IO_FF_BITFLIPS then
      add_to_list ubi (set_empty_peb_count (to_s32 (empty_peb_count ai + 1)) ai)
        pnum UBI_UNKNOWN UBI_UNKNOWN UBI_UNKNOWN 1 LIST_ERASE
    else if (err =? UBI_IO_BAD_HDR_EBADMSG) || (err =? UBI_IO_BAD_HDR) then
      scan_peb_ec ubi ai pnum ech 1 err
    else (- EINVAL, ubi, ai).

(** *** late_analysis *)

Definition late_analysis (ubi : ubi_device) (ai : ubi_attach_info)
    : Z * ubi_device * ubi_attach_info :=
  let peb_count := to_s32 (to_s32 (peb_count ubi - bad_peb_count ai) - alien_peb_count ai) in
  let max_corr := if Z.quot peb_count 20 !=? 0 then Z.quot peb_count 20 else 8 in
  if (corr_peb_count ai !=? 0) && (corr_peb_count ai >=? max_corr)
  then (- EINVAL, ubi, ai)
  else if to_s32 (empty_peb_count ai + maybe_bad_peb_count ai) =? peb_count then
    if maybe_bad_peb_count ai <=? 2 then
      (0, set_image_seq (to_s32 (random_bytes P (now ubi))) ubi, set_is_empty 1 ai)
    else (- EINVAL, ubi, ai)
  else (0, ubi, ai).

(** *** self_check_ai *)

(** The checks of one LEB in the first pass; [true] is [goto bad_aeb]. *)
Definition self_check_aeb (ubi : ubi_device) (ai : ubi_attach_info)
    (av : ubi_ainf_volume) (aeb : ubi_ainf_peb) : bool :=
  (aeb_pnum aeb <? 0) || (aeb_ec aeb <? 0)
  || (aeb_ec aeb <? min_ec ai)
  || (aeb_ec aeb >? max_ec ai)
  || (aeb_pnum aeb >=? peb_count ubi)
  || (if av_vol_type av =? UBI_STATIC_VOLUME
      then aeb_lnum aeb >=? av_used_ebs av
      else av_used_ebs av !=? 0)
  || (aeb_lnum aeb >? av_highest_lnum av).

(** The checks of one volume in the first pass; [true] is a jump to
    [bad_av], [bad_aeb] or [out]. *)
Definition self_check_av (ubi : ubi_device) (ai : ubi_attach_info)
    (av : ubi_ainf_volume) : bool :=
  let aebs := rb_inorder (av_root av) in
  (is_empty ai !=? 0)
  || ((av_vol_id av <? 0) || (av_highest_lnum av <? 0) || (av_leb_count av <? 0)
      || (av_vol_type av <? 0) || (av_used_ebs av <? 0) || (av_data_pad av <? 0)
      || (av_last_data_size av <? 0))
  || ((av_vol_id av >=? UBI_MAX_VOLUMES) && (av_vol_id av <? UBI_INTERNAL_VOL_START))
  || (av_vol_id av >? highest_vol_id ai)
  || ((av_vol_type av !=? UBI_DYNAMIC_VOLUME) && (av_vol_type av !=? UBI_STATIC_VOLUME))
  || (av_data_pad av >? Z.quot (leb_size ubi) 2)
  || existsb (self_check_aeb ubi ai av) aebs
  || (av_leb_count av !=? to_s32 (Z.of_nat (length aebs)))
  || match rev aebs with
     | [] => false
     | last_aeb :: _ => aeb_lnum last_aeb !=? av_highest_lnum av
     end.

(** The second pass over the LEBs of one volume: every VID header is
    read again; the result carries the header read last, if any. *)
Fixpoint self_check_vid_aebs (ubi : ubi_device) (av : ubi_ainf_volume)
    (aebs : list ubi_ainf_peb) (last : option ubi_vid_hdr)
    : Z * option ubi_vid_hdr * ubi_device :=
  match aebs with
  | [] => (0, last, ubi)
  | aeb :: aebs' =>
      let '(err, vidh, ubi) := ubi_io_read_vid_hdr ubi (aeb_pnum aeb) in
      if (err !=? 0) && (err !=? UBI_IO_BITFLIPS)
      then ((if err >? 0 then - EIO else err), Some vidh, ubi)
      else
        let vol_type :=
          if vh_vol_type vidh =? UBI_VID_DYNAMIC then UBI_DYNAMIC_VOLUME
          else UBI_STATIC_VOLUME in
        if (av_vol_type av !=? vol_type)
           || (aeb_sqnum aeb !=? vh_sqnum vidh)
           || (av_vol_id av !=? to_s32 (vh_vol_id vidh))
           || (av_compat av !=? vh_compat vidh)
           || (aeb_lnum aeb !=? to_s32 (vh_lnum vidh))
           || (av_used_ebs av !=? to_s32 (vh_used_ebs vidh))
           || (av_data_pad av !=? to_s32 (vh_data_pad vidh))
        then (- EINVAL, Some vidh, ubi)
        else self_check_vid_aebs ubi av aebs' (Some vidh)
  end.

Fixpoint self_check_vid_avs (ubi : ubi_device) (avs : list ubi_ainf_volume)
    : Z * ubi_device :=
  match avs with
  | [] => (0, ubi)
  | av :: avs' =>
      let '(err, last, ubi) :=
        self_check_vid_aebs ubi av (rb_inorder (av_root av)) None in
      if err !=? 0 then (err, ubi)
      else
        match last with
        | None => self_check_vid_avs ubi avs'
        | Some vidh =>
            if (av_highest_lnum av !=? to_s32 (vh_lnum vidh))
               || (av_last_data_size av !=? to_s32 (vh_data_size vidh))
            then (- EINVAL, ubi)
            else self_check_vid_avs ubi avs'
        end
  end.

(** [buf[i] = v] on the byte map of the third pass. *)
Definition buf_set (buf : list Z) (i v : Z) : list Z :=
  if (0 <=? i) && (i <? Z.of_nat (length buf))
  then firstn (Z.to_nat i) buf ++ v :: skipn (S (Z.to_nat i)) buf
  else buf.

Fixpoint self_check_mark_bad (n : nat) (ubi : ubi_device) (pnum : Z) (buf : list Z)
    : Z * list Z * ubi_device :=
  match n with
  | O => (0, buf, ubi)
  | S n' =>
      let '(err, ubi) := ubi_io_is_bad ubi pnum in
      if err <? 0 then (err, buf, ubi)
      else
        self_check_mark_bad n' ubi (pnum + 1)
          (if err !=? 0 then buf_set buf pnum 1 else buf)
  end.

Definition mark_pebs (aebs : list ubi_ainf_peb) (buf : list Z) : list Z :=
  fold_left (fun buf aeb => buf_set buf (aeb_pnum aeb) 1) aebs buf.

Definition self_check_ai (ubi : ubi_device) (ai : ubi_attach_info) : Z * ubi_device :=
  if negb (dbg_chk_gen ubi) then (0, ubi)
  else
    let avs := rb_inorder (ai_volumes ai) in
    if existsb (self_check_av ubi ai) avs then (- EINVAL, ubi)
    else if to_s32 (Z.of_nat (length avs)) !=? vols_found ai then (- EINVAL, ubi)
    else
      let '(err, ubi) := self_check_vid_avs ubi avs in
      if err !=? 0 then (err, ubi)
      else
        match kzalloc ubi with
        | (false, ubi) => (- ENOMEM, ubi)
        | (true, ubi) =>
            let buf := repeat 0 (Z.to_nat (peb_count ubi)) in
            let '(err, buf, ubi) :=
              self_check_mark_bad (Z.to_nat (peb_count ubi)) ubi 0 buf in
            if err <? 0 then (err, ubi)
            else
              let buf :=
                fold_left (fun buf av => mark_pebs (rb_inorder (av_root av)) buf) avs buf in
              let buf := mark_pebs (ai_free ai) buf in
              let buf := mark_pebs (ai_corr ai) buf in
              let buf := mark_pebs (ai_erase ai) buf in
              let buf := mark_pebs (ai_alien ai) buf in
              if existsb (Z.eqb 0) buf then (- EINVAL, ubi) else (0, ubi)
        end.

(** *** scan_all *)

(** The loop over the PEBs, [n] iterations from [pnum] on. *)
Fixpoint scan_pebs (n : nat) (ubi : ubi_device) (ai : ubi_attach_info) (pnum : Z)
    : Z * ubi_device * ubi_attach_info :=
  match n with
  | O => (0, ubi, ai)
  | S n' =>
      let '(err, ubi, ai) := scan_peb ubi ai pnum in
      if err <? 0 then (err, ubi, ai)
      else scan_pebs n' ubi ai (pnum + 1)
  end.

(** "In case of unknown erase counter we use the mean erase counter". *)
Definition fill_ec (mean : Z) (aeb : ubi_ainf_peb) : ubi_ainf_peb :=
  if aeb_ec aeb =? UBI_UNKNOWN then set_aeb_ec mean aeb else aeb.

Definition fill_unknown_ec (ai : ubi_attach_info) : ubi_attach_info :=
  let ai :=
    set_ai_volumes
      (rb_map (fun av => set_av_root (rb_map (fill_ec (mean_ec ai)) (av_root av)) av)
         (ai_volumes ai)) ai in
  let ai := set_ai_free (map (fill_ec (mean_ec ai)) (ai_free ai)) ai in
  let ai := set_ai_corr (map (fill_ec (mean_ec ai)) (ai_corr ai)) ai in
  let ai := set_ai_erase (map (fill_ec (mean_ec ai)) (ai_erase ai)) ai in
  ai.

Definition scan_all (ubi : ubi_device) (ai : ubi_attach_info) (start : Z)
    : Z * ubi_device * ubi_attach_info :=
  match kzalloc ubi with
  | (false, ubi) => (- ENOMEM, ubi, ai)
  | (true, ubi) =>
      match ubi_zalloc_vid_hdr ubi with
      | (false, ubi) => (- ENOMEM, ubi, ai)
      | (true, ubi) =>
          let '(err, ubi, ai) :=
            scan_pebs (Z.to_nat (peb_count ubi - start)) ubi ai start in
          if err <? 0 then (err, ubi, ai)
          else
            let ai :=
              if ec_count ai !=? 0
              then set_mean_ec
                     (to_s32 (to_u64 (ec_sum ai) / to_u32 (ec_count ai))) ai
              else ai in
            let '(err, ubi, ai) := late_analysis ubi ai in
            if err !=? 0 then (err, ubi, ai)
            else
              let ai := fill_unknown_ec ai in
              let '(err, ubi) := self_check_ai ubi ai in
              if err !=? 0 then (err, ubi, ai)
              else (0, ubi, ai)
      end
  end.

(** *** alloc_ai *)

Definition ai_zeroed : ubi_attach_info :=
  mk_ai RB_ROOT [] [] [] [] [] 0 0 0 0 0 0 0 0 0 0 0 0 0 0.

Definition alloc_ai (ubi : ubi_device) : option ubi_attach_info * ubi_device :=
  match kzalloc ubi with
  | (false, ubi) => (None, ubi)
  | (true, ubi) =>
      match kzalloc ubi with
      | (false, ubi) => (None, ubi)
      | (true, ubi) => (Some ai_zeroed, ubi)
      end
  end.

End Attach.

(** * Properties *)


(** ** Machine integers *)

Lemma to_s32_id (x : Z) : - 2 ^ 31 <= x <= INT_MAX -> to_s32 x = x.
Proof.
  unfold to_s32, INT_MAX. intros H.
  rewrite Z.mod_small; lia.
Qed.

Lemma to_s32_range (x : Z) : - 2 ^ 31 <= to_s32 x <= INT_MAX.
Proof.
  unfold to_s32, INT_MAX.
  pose proof (Z.mod_pos_bound (x + 2 ^ 31) (2 ^ 32) ltac:(lia)). lia.
Qed.

Lemma to_s32_succ (x : Z) : to_s32 (to_s32 x + 1) = to_s32 (x + 1).
Proof.
  unfold to_s32.
  replace ((x + 2 ^ 31) mod 2 ^ 32 - 2 ^ 31 + 1 + 2 ^ 31)
    with ((x + 2 ^ 31) mod 2 ^ 32 + 1) by lia.
  replace (x + 1 + 2 ^ 31) with ((x + 2 ^ 31) + 1) by lia.
  rewrite Zplus_mod_idemp_l. reflexivity.
Qed.

(** ** Sorted key sequences *)

Section SortedLists.

Context {A : Type} (R : A -> A -> Prop).

Lemma StronglySorted_app (l1 l2 : list A) :
  StronglySorted R (l1 ++ l2) <->
  StronglySorted R l1 /\ StronglySorted R l2 /\
  Forall (fun a => Forall (R a) l2) l1.
Proof.
  induction l1 as [|a l1 IH]; simpl.
  - split.
    + intros H. repeat split; [constructor | exact H | constructor].
    + intros (_ & H & _). exact H.
  - split.
    + intros H. inversion H as [|? ? Hs Hf]; subst.
      apply IH in Hs. destruct Hs as (H1 & H2 & H3).
      apply Forall_app in Hf. destruct Hf as [Hf1 Hf2].
      repeat split; try assumption; constructor; assumption.
    + intros (H1 & H2 & H3).
      inversion H1 as [|? ? Hs Hf]; subst.
      inversion H3 as [|? ? Ha Hrest]; subst.
      constructor.
      * apply IH. repeat split; assumption.
      * apply Forall_app. split; assumption.
Qed.

End SortedLists.

(** ** Search trees: the descent loops on a tree whose in-order key
    sequence is sorted *)

Lemma rb_map_inorder {A} (f : A -> A) (t : rb_root A) :
  rb_inorder (rb_map f t) = map f (rb_inorder t).
Proof.
  induction t as [|c l IHl x r IHr]; simpl; [reflexivity|].
  rewrite map_app. simpl. rewrite IHl, IHr. reflexivity.
Qed.

Section RbSearch.

Context {A : Type} (key : A -> Z) (R : Z -> Z -> Prop).
Hypothesis R_trans : forall a b c, R a b -> R b c -> R a c.
Hypothesis R_irrefl : forall a, ~ R a a.

(** [R a b]: an entry of key [a] is visited before one of key [b]. *)
Definition rb_sorted (t : rb_root A) : Prop :=
  StronglySorted R (map key (rb_inorder t)).

Variable k : Z.
Variable cmp : A -> rb_step.
Hypothesis cmp_found : forall x, cmp x = FOUND -> key x = k.
Hypothesis cmp_left : forall x, cmp x = GO_LEFT -> R k (key x).
Hypothesis cmp_right : forall x, cmp x = GO_RIGHT -> R (key x) k.

Lemma rb_sorted_node c (l : rb_root A) x r :
  rb_sorted (rb_node c l x r) ->
  rb_sorted l /\ rb_sorted r /\
  Forall (fun a => R a (key x)) (map key (rb_inorder l)) /\
  Forall (R (key x)) (map key (rb_inorder r)).
Proof.
  unfold rb_sorted. simpl. rewrite map_app. simpl.
  intros H. apply StronglySorted_app in H. destruct H as (Hl & Hxr & Hlr).
  inversion Hxr as [|? ? Hr Hx]; subst.
  repeat split; try assumption.
  eapply Forall_impl; [|exact Hlr].
  intros a Ha. inversion Ha; assumption.
Qed.

Lemma rb_walk_In (t : rb_root A) x :
  rb_walk cmp t = Some x -> In x (rb_inorder t) /\ key x = k.
Proof.
  induction t as [|c l IHl y r IHr]; simpl; [discriminate|].
  destruct (cmp y) eqn:E; intros H.
  - apply IHl in H. destruct H. split; [apply in_or_app; left|]; assumption.
  - apply IHr in H. destruct H.
    split; [apply in_or_app; right; right|]; assumption.
  - inversion H; subst. split; [apply in_or_app; right; left; reflexivity|].
    apply cmp_found; assumption.
Qed.

Lemma rb_walk_complete (t : rb_root A) x :
  rb_sorted t -> In x (rb_inorder t) -> key x = k -> rb_walk cmp t = Some x.
Proof.
  induction t as [|c l IHl y r IHr]; simpl; [contradiction|].
  intros Hs Hin Hk.
  apply rb_sorted_node in Hs. destruct Hs as (Hsl & Hsr & Hl & Hr).
  rewrite Forall_forall in Hl, Hr.
  apply in_app_or in Hin.
  destruct (cmp y) eqn:E.
  - apply cmp_left in E.
    destruct Hin as [Hin | [Heq | Hin]].
    + apply IHl; assumption.
    + subst y. rewrite Hk in E. elim (R_irrefl _ E).
    + exfalso. specialize (Hr (key x) (in_map key _ _ Hin)).
      rewrite Hk in Hr. exact (R_irrefl _ (R_trans _ _ _ E Hr)).
  - apply cmp_right in E.
    destruct Hin as [Hin | [Heq | Hin]].
    + exfalso. specialize (Hl (key x) (in_map key _ _ Hin)).
      rewrite Hk in Hl. exact (R_irrefl _ (R_trans _ _ _ Hl E)).
    + subst y. rewrite Hk in E. elim (R_irrefl _ E).
    + apply IHr; assumption.
  - apply cmp_found in E.
    destruct Hin as [Hin | [Heq | Hin]].
    + exfalso. specialize (Hl (key x) (in_map key _ _ Hin)).
      rewrite Hk, E in Hl. exact (R_irrefl _ Hl).
    + subst y. reflexivity.
    + exfalso. specialize (Hr (key x) (in_map key _ _ Hin)).
      rewrite Hk, E in Hr. exact (R_irrefl _ Hr).
Qed.

(** Linking at the place the descent ended keeps the sequence sorted. *)
Lemma rb_link_node_split (node : A) (t : rb_root A) :
  rb_sorted t -> rb_walk cmp t = None ->
  exists l1 l2,
    rb_inorder t = l1 ++ l2 /\
    rb_inorder (rb_link_node cmp node t) = l1 ++ node :: l2 /\
    Forall (fun a => R a k) (map key l1) /\
    Forall (R k) (map key l2).
Proof.
  induction t as [|c l IHl y r IHr]; simpl.
  - intros _ _. exists [], []. simpl. repeat split; constructor.
  - intros Hs Hw.
    apply rb_sorted_node in Hs. destruct Hs as (Hsl & Hsr & Hl & Hr).
    destruct (cmp y) eqn:E; [| |discriminate].
    + destruct (IHl Hsl Hw) as (l1 & l2 & E1 & E2 & F1 & F2).
      apply cmp_left in E.
      exists l1, (l2 ++ y :: rb_inorder r). simpl.
      rewrite E1, E2, <- !app_assoc. simpl.
      repeat split; try assumption.
      rewrite map_app. simpl. apply Forall_app. split; [assumption|].
      constructor; [assumption|].
      eapply Forall_impl; [|exact Hr]. intros a Ha. exact (R_trans _ _ _ E Ha).
    + destruct (IHr Hsr Hw) as (l1 & l2 & E1 & E2 & F1 & F2).
      apply cmp_right in E.
      exists (rb_inorder l ++ y :: l1), l2. simpl.
      rewrite E1, E2, <- !app_assoc. simpl.
      repeat split; try assumption.
      rewrite map_app. simpl. apply Forall_app. split.
      * eapply Forall_impl; [|exact Hl]. intros a Ha. exact (R_trans _ _ _ Ha E).
      * constructor; assumption.
Qed.

Lemma rb_link_node_sorted (node : A) (t : rb_root A) :
  rb_sorted t -> rb_walk cmp t = None -> key node = k ->
  rb_sorted (rb_link_node cmp node t) /\ In node (rb_inorder (rb_link_node cmp node t)).
Proof.
  intros Hs Hw Hk.
  destruct (rb_link_node_split node t Hs Hw) as (l1 & l2 & E1 & E2 & F1 & F2).
  unfold rb_sorted in *. rewrite E2. rewrite E1 in Hs.
  rewrite map_app in *. simpl.
  apply StronglySorted_app in Hs. destruct Hs as (H1 & H2 & H3).
  split; [|apply in_or_app; right; left; reflexivity].
  apply StronglySorted_app. repeat split.
  - assumption.
  - constructor; [assumption|]. rewrite Hk. assumption.
  - rewrite Forall_forall in *. intros a Ha.
    constructor; [rewrite Hk; apply F1; assumption | apply H3; assumption].
Qed.

(** A store at the node the descent stopped at replaces that entry. *)
Lemma rb_assign_split (node : A) (t : rb_root A) x :
  rb_walk cmp t = Some x ->
  exists l1 l2,
    rb_inorder t = l1 ++ x :: l2 /\
    rb_inorder (rb_assign cmp node t) = l1 ++ node :: l2.
Proof.
  induction t as [|c l IHl y r IHr]; simpl; [discriminate|].
  destruct (cmp y) eqn:E; intros H.
  - destruct (IHl H) as (l1 & l2 & E1 & E2).
    exists l1, (l2 ++ y :: rb_inorder r). simpl.
    rewrite E1, E2, <- !app_assoc. split; reflexivity.
  - destruct (IHr H) as (l1 & l2 & E1 & E2).
    exists (rb_inorder l ++ y :: l1), l2. simpl.
    rewrite E1, E2, <- !app_assoc. split; reflexivity.
  - inversion H; subst. exists (rb_inorder l), (rb_inorder r). split; reflexivity.
Qed.

Lemma rb_assign_keys (node : A) (t : rb_root A) x :
  rb_walk cmp t = Some x -> key node = k ->
  map key (rb_inorder (rb_assign cmp node t)) = map key (rb_inorder t).
Proof.
  intros Hw Hk.
  destruct (rb_assign_split node t x Hw) as (l1 & l2 & E1 & E2).
  apply rb_walk_In in Hw. destruct Hw as [_ Hx].
  rewrite E1, E2, !map_app. simpl. rewrite Hk, Hx. reflexivity.
Qed.

End RbSearch.

(** * Concrete collaborators

    Two re-balancers that meet [RbTreeLib] and a flash image given PEB
    by PEB, for the examples below. *)

(** A right rotation at the root, when there is a left child. *)
Definition rb_rotate_right {A} (t : rb_root A) : rb_root A :=
  match t with
  | rb_node c (rb_node cl a x b) y r => rb_node cl a x (rb_node c b y r)
  | _ => t
  end.

Lemma rb_rotate_right_inorder {A} (t : rb_root A) :
  rb_inorder (rb_rotate_right t) = rb_inorder t.
Proof.
  destruct t as [|c [|cl a x b] y r]; simpl; try reflexivity.
  rewrite <- app_assoc. reflexivity.
Qed.

Definition rb_rotating : RbTreeLib :=
  {| rb_insert_color := fun A _ t => rb_rotate_right t;
     rb_insert_color_inorder := fun A _ t => rb_rotate_right_inorder t |}.

Definition rb_plain : RbTreeLib :=
  {| rb_insert_color := fun A _ t => t;
     rb_insert_color_inorder := fun A _ t => eq_refl |}.

(** What the I/O sub-system reports for one PEB. *)
Record peb_image := mk_peb_image {
  pi_bad : Z;
  pi_ec : Z * ubi_ec_hdr;
  pi_vid : Z * ubi_vid_hdr;
  pi_data : Z * list Z
}.

Definition ec_hdr0 : ubi_ec_hdr := mk_ec_hdr 0 0 0.
Definition vid_hdr0 : ubi_vid_hdr := mk_vid_hdr 0 0 0 0 0 0 0 0 0 0.
Definition peb_image0 : peb_image :=
  mk_peb_image 0 (UBI_IO_FF, ec_hdr0) (UBI_IO_FF, vid_hdr0) (0, []).

Definition peb_at (pebs : list peb_image) (pnum : Z) : peb_image :=
  nth (Z.to_nat pnum) pebs peb_image0.

Definition aeb0 : ubi_ainf_peb := mk_aeb 0 0 0 0 false false 0.
Definition av0 : ubi_ainf_volume := mk_av 0 0 0 0 0 0 0 0 RB_ROOT.

(** A platform that never runs out of memory, over a fixed flash image. *)
Definition platform_of (backup : bool) (pebs : list peb_image) : ubi_platform :=
  {| CONFIG_MTD_UBI_LOWPAGE_BACKUP := backup;
     io_is_bad := fun _ pnum => pi_bad (peb_at pebs pnum);
     io_read_ec_hdr := fun _ pnum => pi_ec (peb_at pebs pnum);
     io_read_vid_hdr := fun _ pnum => pi_vid (peb_at pebs pnum);
     io_read := fun _ pnum _ _ => pi_data (peb_at pebs pnum);
     slab_alloc := fun _ => Some aeb0;
     kmalloc_av := fun _ => Some av0;
     kmalloc_ok := fun _ => true;
     random_bytes := fun _ => 0x5eed |}.

(** A device of [n] PEBs with a 4-byte data area, not yet scanned. *)
Definition ubi_of (n : Z) : ubi_device :=
  mk_ubi n 4 2 0 0 (repeat 0 6) false [] 0.

(** The device of [ubi_of] with the general checks on. *)
Definition ubi_chk (n : Z) : ubi_device :=
  mk_ubi n 4 2 0 0 (repeat 0 6) true [] 0.

(** A PEB in use: EC header [ec], VID header [vidh]. *)
Definition peb_used (ec : Z) (vidh : ubi_vid_hdr) (data : list Z) : peb_image :=
  mk_peb_image 0 (0, mk_ec_hdr UBI_VERSION ec 0) (0, vidh) (0, data).

(** The VID header of a user LEB of a dynamic volume. *)
Definition vid_of (vol_id lnum sqnum copy_flag data_size data_crc : Z) : ubi_vid_hdr :=
  mk_vid_hdr UBI_VID_DYNAMIC copy_flag 0 vol_id lnum data_size 0 0 data_crc sqnum.

(** * Proof automation *)

(** Case analysis on the integer tests of the goal. *)
Ltac zb_cases :=
  repeat match goal with
    | |- context [?a >? ?b] => rewrite (Z.gtb_ltb a b)
    | |- context [?a >=? ?b] => rewrite (Z.geb_leb a b)
    | |- context [?a =? ?b] => destruct (Z.eqb_spec a b)
    | |- context [?a <? ?b] => destruct (Z.ltb_spec a b)
    | |- context [?a <=? ?b] => destruct (Z.leb_spec a b)
    end.

(** * The claims *)

(** ** C3: the corruption threshold of late_analysis *)

(** The threshold as the specification words it. *)
Definition spec_max_corr (peb_count' : Z) : Z := Z.max (Z.quot peb_count' 20) 8.

(** The threshold of the code: [peb_count / 20 ?: 8]. *)
Definition max_corr_of (peb_count' : Z) : Z :=
  if Z.quot peb_count' 20 =? 0 then 8 else Z.quot peb_count' 20.

(** The effective PEB count, in [int] arithmetic. *)
Definition effective_peb_count (ubi : ubi_device) (ai : ubi_attach_info) : Z :=
  to_s32 (to_s32 (peb_count ubi - bad_peb_count ai) - alien_peb_count ai).

Definition ai_corr2 : ubi_attach_info :=
  set_corr_peb_count 2 (set_ai_corr [aeb0; set_aeb_pnum 1 aeb0] ai_zeroed).

(** C3, counterexample: on a device of 40 good PEBs with two preserved
    corrupted PEBs [late_analysis] refuses with -EINVAL, although 2 is
    below max(40/20, 8) = 8. *)
Lemma C3_counterexample :
  fst (fst (late_analysis (platform_of false []) (ubi_of 40) ai_corr2)) = - EINVAL /\
  corr_peb_count ai_corr2 < spec_max_corr (effective_peb_count (ubi_of 40) ai_corr2).
Proof. split; vm_compute; reflexivity. Qed.

(** C3, as the code has it: [late_analysis] returns -EINVAL exactly when the number
    of corrupted PEBs is non-zero and at least [peb_count'/20] (8 when
    that quotient is zero), or when the media is full of empty and
    maybe-bad PEBs with more than two maybe-bad ones; in the first case
    nothing is changed. *)
Theorem C3_late_analysis_threshold (P : ubi_platform) (ubi : ubi_device)
    (ai : ubi_attach_info) :
  let peb_count' := effective_peb_count ubi ai in
  let too_many_corrupted :=
    corr_peb_count ai <> 0 /\ corr_peb_count ai >= max_corr_of peb_count' in
  let not_ubi_media :=
    to_s32 (empty_peb_count ai + maybe_bad_peb_count ai) = peb_count' /\
    maybe_bad_peb_count ai > 2 in
  (fst (fst (late_analysis P ubi ai)) = - EINVAL <->
   too_many_corrupted \/ not_ubi_media) /\
  (too_many_corrupted -> late_analysis P ubi ai = (- EINVAL, ubi, ai)) /\
  (0 <= peb_count' -> corr_peb_count ai >= max_corr_of peb_count' ->
   too_many_corrupted).
Proof.
  cbv zeta. unfold late_analysis, effective_peb_count, max_corr_of.
  set (pc := to_s32 (to_s32 (peb_count ubi - bad_peb_count ai) - alien_peb_count ai)).
  assert (HE : - EINVAL <> 0) by (unfold EINVAL; lia).
  split; [split|split].
  - zb_cases; simpl in *; intros Hret; try congruence; try (left; lia); right; lia.
  - intros [[Hc Hg] | [He Hm]]; zb_cases; simpl in *; try reflexivity; lia.
  - intros [Hc Hg]; zb_cases; simpl in *; try reflexivity; lia.
  - intros Hpc Hge.
    assert (Hq : 0 <= Z.quot pc 20) by (apply Z.quot_pos; lia).
    revert Hge. zb_cases; intros Hge; split; lia.
Qed.

Section Claims.

Context {RB : RbTreeLib}.
Variable P : ubi_platform.

Lemma now_io_done (e : io_event) (ubi : ubi_device) :
  now (io_done e ubi) = S (now ubi).
Proof.
  unfold now, io_done. destruct ubi; simpl.
  rewrite length_app. simpl. lia.
Qed.

(** ** C7: a PEB whose EC header reads as erased *)

(** The PebInfo [add_to_list] makes of a slab object. *)
Definition new_aeb (obj : ubi_ainf_peb) (pnum vol_id lnum ec : Z) : ubi_ainf_peb :=
  mk_aeb ec pnum vol_id lnum (aeb_scrub obj) (aeb_copy_flag obj) (aeb_sqnum obj).

(** C7, as the code has it: when the EC header reads as FF or FF_BITFLIPS (and the
    slab has an object), [scan_peb] returns 0, has counted one more
    empty PEB, has put a PebInfo with unknown EC on the erase list - at
    the tail for FF, at the head for FF_BITFLIPS - and has issued no
    I/O but the bad-block test and the EC header read. *)
Theorem C7_scan_peb_empty (ubi : ubi_device) (ai : ubi_attach_info)
    (pnum err : Z) (ech : ubi_ec_hdr) (obj : ubi_ainf_peb) :
  io_is_bad P (now ubi) pnum = 0 ->
  io_read_ec_hdr P (S (now ubi)) pnum = (err, ech) ->
  err = UBI_IO_FF \/ err = UBI_IO_FF_BITFLIPS ->
  slab_alloc P (allocs ubi) = Some obj ->
  - 2 ^ 31 <= empty_peb_count ai < INT_MAX ->
  let aeb := new_aeb obj pnum UBI_UNKNOWN UBI_UNKNOWN UBI_UNKNOWN in
  let ubi' := alloc_done (io_done (IO_READ_EC_HDR pnum) (io_done (IO_IS_BAD pnum) ubi)) in
  scan_peb P ubi ai pnum =
    (0, ubi',
     set_ai_erase
       (if err =? UBI_IO_FF then ai_erase ai ++ [aeb] else aeb :: ai_erase ai)
       (set_empty_peb_count (empty_peb_count ai + 1) ai)) /\
  io_log ubi' = io_log ubi ++ [IO_IS_BAD pnum; IO_READ_EC_HDR pnum].
Proof.
  intros Hbad Hec Herr Hslab Hrange. cbv zeta. split.
  - unfold scan_peb, ubi_io_is_bad, ubi_io_read_ec_hdr. rewrite Hbad. simpl.
    rewrite now_io_done, Hec.
    rewrite (to_s32_id (empty_peb_count ai + 1)) by (unfold INT_MAX in *; lia).
    destruct Herr as [-> | ->]; simpl;
      unfold add_to_list, kmem_cache_alloc; simpl; rewrite Hslab; reflexivity.
  - destruct ubi; simpl. rewrite <- app_assoc. reflexivity.
Qed.

(** ** C1: ubi_compare_lebs *)

(** A data read the CRC check goes on after: no error, bit-flips, or an
    ECC error. *)
Definition data_read_ok (err : Z) : Prop :=
  err = 0 \/ err = UBI_IO_BITFLIPS \/ err = - EBADMSG.

(** The CRC-32 of the first [len] bytes of the scratch buffer differs
    from the [data_crc] of the header. *)
Definition crc_mismatch (ubi : ubi_device) (vh : ubi_vid_hdr) : Prop :=
  to_u32 (crc32 UBI_CRC32_INIT
            (firstn (Z.to_nat (to_s32 (vh_data_size vh))) (peb_buf ubi)))
  <> to_u32 (vh_data_crc vh).

Lemma compare_lebs_crc_mismatch (ubi ubi' : ubi_device) (pnum err : Z)
    (vh : ubi_vid_hdr) (second_is_newer : bool) (bitflips : Z) :
  ubi_io_read_data P ubi pnum 0 (to_s32 (vh_data_size vh)) = (err, ubi') ->
  data_read_ok err ->
  crc_mismatch ubi' vh ->
  compare_lebs_crc P ubi pnum vh second_is_newer bitflips =
    (Z.lor (b2z (negb second_is_newer)) 4, ubi').
Proof.
  intros Hread Hok Hcrc. unfold compare_lebs_crc. rewrite Hread.
  assert (Hgo : (err !=? 0) && (err !=? UBI_IO_BITFLIPS) && negb (mtd_is_eccerr err) = false).
  { unfold data_read_ok in Hok. unfold mtd_is_eccerr.
    destruct Hok as [-> | [-> | ->]]; reflexivity. }
  rewrite Hgo.
  unfold crc_mismatch in Hcrc. apply Z.eqb_neq in Hcrc. rewrite Hcrc. simpl.
  destruct second_is_newer; reflexivity.
Qed.

(** C1: for two copies with distinct sequence numbers, the copy with
    the higher one is the provisional winner.  If its copy flag is clear
    the function returns at once - bit 0 tells the winner, bits 1 and 2
    are clear, the device (I/O trace included) is untouched.  If its
    copy flag is set and the CRC-32 of its data, from the seed
    0xFFFFFFFF, is not the [data_crc] of its VID header, the result has
    bit 0 negated, bit 1 clear and bit 2 set. *)
Theorem C1_ubi_compare_lebs (ubi : ubi_device) (aeb : ubi_ainf_peb) (pnum : Z)
    (vid_hdr : ubi_vid_hdr) :
  vh_sqnum vid_hdr <> aeb_sqnum aeb ->
  let second := vh_sqnum vid_hdr >? aeb_sqnum aeb in
  let res := ubi_compare_lebs P ubi aeb pnum vid_hdr in
  (* the winner is no copy *)
  ((if second then vh_copy_flag vid_hdr = 0 else aeb_copy_flag aeb = false) ->
   res = (b2z second, ubi) /\
   Z.testbit (fst res) 0 = second /\ Z.testbit (fst res) 1 = false /\
   Z.testbit (fst res) 2 = false /\ io_log (snd res) = io_log ubi) /\
  (* the second PEB wins provisionally, is a copy, and its data is bad *)
  (second = true -> vh_copy_flag vid_hdr <> 0 ->
   forall err ubi',
     ubi_io_read_data P ubi pnum 0 (to_s32 (vh_data_size vid_hdr)) = (err, ubi') ->
     data_read_ok err -> crc_mismatch ubi' vid_hdr ->
     res = (4, ubi') /\
     Z.testbit (fst res) 0 = negb second /\ Z.testbit (fst res) 1 = false /\
     Z.testbit (fst res) 2 = true) /\
  (* the first PEB wins provisionally, is a copy, and its data is bad *)
  (second = false -> aeb_copy_flag aeb = true ->
   forall e vh ubi1 err ubi',
     kmalloc_ok P (allocs ubi) = true ->
     ubi_io_read_vid_hdr P (alloc_done ubi) (aeb_pnum aeb) = (e, vh, ubi1) ->
     e = 0 \/ e = UBI_IO_BITFLIPS ->
     ubi_io_read_data P ubi1 (aeb_pnum aeb) 0 (to_s32 (vh_data_size vh)) = (err, ubi') ->
     data_read_ok err -> crc_mismatch ubi' vh ->
     res = (5, ubi') /\
     Z.testbit (fst res) 0 = negb second /\ Z.testbit (fst res) 1 = false /\
     Z.testbit (fst res) 2 = true).
Proof.
  intros Hne. cbv zeta. unfold ubi_compare_lebs.
  apply Z.eqb_neq in Hne. rewrite Hne.
  destruct (vh_sqnum vid_hdr >? aeb_sqnum aeb) eqn:Hsec.
  - split; [|split].
    + intros Hflag. rewrite Hflag. simpl. repeat split; reflexivity.
    + intros _ Hflag err ubi' Hread Hok Hcrc.
      apply Z.eqb_neq in Hflag. rewrite Hflag.
      rewrite (compare_lebs_crc_mismatch _ _ _ _ _ _ _ Hread Hok Hcrc).
      simpl. repeat split; reflexivity.
    + discriminate.
  - split; [|split].
    + intros Hflag. rewrite Hflag. simpl. repeat split; reflexivity.
    + discriminate.
    + intros _ Hflag e vh ubi1 err ubi' Hmem Hvid He Hread Hok Hcrc.
      rewrite Hflag. cbn [negb]. unfold ubi_zalloc_vid_hdr, kzalloc.
      rewrite Hmem, Hvid.
      destruct He as [-> | ->]; simpl;
        rewrite (compare_lebs_crc_mismatch _ _ _ _ _ _ _ Hread Hok Hcrc);
        simpl; repeat split; reflexivity.
Qed.

(** ** The EC header stage of scan_peb *)

(** The PEB is not bad and its EC header was read (possibly with
    bit-flips) and accepted: right version, erase counter in range,
    image sequence number compatible with the device's. *)
Definition ec_hdr_accepted (ubi : ubi_device) (pnum : Z) (ech : ubi_ec_hdr) : Prop :=
  io_is_bad P (now ubi) pnum = 0 /\
  (io_read_ec_hdr P (S (now ubi)) pnum = (0, ech) \/
   io_read_ec_hdr P (S (now ubi)) pnum = (UBI_IO_BITFLIPS, ech)) /\
  ech_version ech = UBI_VERSION /\
  to_s64 (ech_ec ech) <= UBI_MAX_ERASECOUNTER /\
  (to_s32 (ech_image_seq ech) = 0 \/ image_seq ubi = 0 \/
   image_seq ubi = to_s32 (ech_image_seq ech)).

(** The device once the EC header is done with. *)
Definition ubi_after_ec (ubi : ubi_device) (pnum : Z) (ech : ubi_ec_hdr) : ubi_device :=
  let ubi1 := io_done (IO_READ_EC_HDR pnum) (io_done (IO_IS_BAD pnum) ubi) in
  if image_seq ubi =? 0 then set_image_seq (to_s32 (ech_image_seq ech)) ubi1 else ubi1.

Lemma now_ubi_after_ec ubi pnum ech : now (ubi_after_ec ubi pnum ech) = S (S (now ubi)).
Proof.
  unfold ubi_after_ec.
  destruct (image_seq ubi =? 0); unfold now; destruct ubi; simpl;
    rewrite !length_app; simpl; lia.
Qed.

Lemma allocs_ubi_after_ec ubi pnum ech : allocs (ubi_after_ec ubi pnum ech) = allocs ubi.
Proof.
  unfold ubi_after_ec. destruct (image_seq ubi =? 0); destruct ubi; reflexivity.
Qed.

Lemma scan_peb_ec_accepted (ubi : ubi_device) (ai : ubi_attach_info) (pnum : Z)
    (ech : ubi_ec_hdr) :
  ec_hdr_accepted ubi pnum ech ->
  exists bitflips,
    (bitflips = 0 \/ bitflips = 1) /\
    scan_peb P ubi ai pnum =
      scan_peb_vid P (ubi_after_ec ubi pnum ech) ai pnum (to_s64 (ech_ec ech)) bitflips 0.
Proof.
  intros (Hbad & Hec & Hver & Hmax & Hseq).
  unfold scan_peb, ubi_io_is_bad, ubi_io_read_ec_hdr. rewrite Hbad. simpl.
  rewrite now_io_done.
  assert (Hstage : forall bf,
    scan_peb_ec P (io_done (IO_READ_EC_HDR pnum) (io_done (IO_IS_BAD pnum) ubi))
      ai pnum ech bf 0 =
    scan_peb_vid P (ubi_after_ec ubi pnum ech) ai pnum (to_s64 (ech_ec ech)) bf 0).
  { intros bf. unfold scan_peb_ec, ubi_after_ec. simpl.
    rewrite Hver. simpl.
    replace (to_s64 (ech_ec ech) >? UBI_MAX_ERASECOUNTER) with false
      by (symmetry; rewrite Z.gtb_ltb; apply Z.ltb_ge; exact Hmax).
    replace (image_seq (io_done (IO_READ_EC_HDR pnum) (io_done (IO_IS_BAD pnum) ubi)))
      with (image_seq ubi) by (destruct ubi; reflexivity).
    destruct (image_seq ubi =? 0) eqn:E0.
    - replace (image_seq (set_image_seq (to_s32 (ech_image_seq ech))
                 (io_done (IO_READ_EC_HDR pnum) (io_done (IO_IS_BAD pnum) ubi))))
        with (to_s32 (ech_image_seq ech)) by (destruct ubi; reflexivity).
      rewrite Z.eqb_refl, andb_false_r. reflexivity.
    - replace (image_seq (io_done (IO_READ_EC_HDR pnum) (io_done (IO_IS_BAD pnum) ubi)))
        with (image_seq ubi) by (destruct ubi; reflexivity).
      apply Z.eqb_neq in E0.
      destruct Hseq as [H0 | [H0 | H0]]; [rewrite H0; reflexivity | contradiction |].
      rewrite H0, Z.eqb_refl, andb_false_r. reflexivity. }
  destruct Hec as [-> | ->]; simpl; [exists 0 | exists 1];
    (split; [auto | apply Hstage]).
Qed.

Lemma ai_lists_adjust_mean_ec (ai : ubi_attach_info) (ec_err ec : Z) :
  let ai' := adjust_mean_ec ai ec_err ec in
  ai_volumes ai' = ai_volumes ai /\ ai_corr ai' = ai_corr ai /\
  ai_free ai' = ai_free ai /\ ai_erase ai' = ai_erase ai /\
  ai_alien ai' = ai_alien ai /\ ai_waiting ai' = ai_waiting ai /\
  corr_peb_count ai' = corr_peb_count ai /\
  alien_peb_count ai' = alien_peb_count ai /\
  mean_ec ai' = mean_ec ai.
Proof.
  cbv zeta. unfold adjust_mean_ec.
  destruct (ec_err =? 0); [|repeat split; reflexivity].
  destruct (ec >? _); destruct (ec <? _); repeat split; reflexivity.
Qed.

(** ** C5: a corrupted VID header under a good EC header *)

Definition all_ff (l : list Z) : Prop := Forall (fun b => b = 0xFF) l.

(** The data area as [check_corruption] has it in the scratch buffer. *)
Definition data_area (ubi : ubi_device) : list Z :=
  firstn (Z.to_nat (leb_size ubi)) (peb_buf ubi).

(** The device after [check_corruption] cleared the buffer and read
    [data] into it. *)
Definition ubi_after_data (ubi : ubi_device) (pnum : Z) (data : list Z) : ubi_device :=
  set_peb_buf
    (buf_store (firstn (Z.to_nat (leb_size ubi)) data)
       (memset (peb_buf ubi) 0 (leb_size ubi)))
    (io_done (IO_READ pnum (leb_start ubi) (leb_size ubi)) ubi).

Lemma ubi_check_pattern_all_ff (ubi : ubi_device) :
  ubi_check_pattern (peb_buf ubi) 0xFF (leb_size ubi) = true <-> all_ff (data_area ubi).
Proof.
  unfold ubi_check_pattern, all_ff, data_area.
  rewrite forallb_forall, Forall_forall.
  split; intros H x Hx; specialize (H x Hx).
  - apply Z.eqb_eq in H. symmetry. exact H.
  - apply Z.eqb_eq. symmetry. exact H.
Qed.

Lemma check_corruption_verdict (ubi : ubi_device) (vidh : ubi_vid_hdr)
    (pnum err : Z) (data : list Z) :
  io_read P (now ubi) pnum (leb_start ubi) (leb_size ubi) = (err, data) ->
  let ubi' := ubi_after_data ubi pnum data in
  check_corruption P ubi vidh pnum =
    (if (err =? UBI_IO_BITFLIPS) || mtd_is_eccerr err then 0
     else if err !=? 0 then err
     else if ubi_check_pattern (peb_buf ubi') 0xFF (leb_size ubi') then 0
     else 1, ubi').
Proof.
  intros Hread. cbv zeta. unfold check_corruption, ubi_io_read.
  replace (now (set_peb_buf (memset (peb_buf ubi) 0 (leb_size ubi)) ubi))
    with (now ubi) by (destruct ubi; reflexivity).
  replace (leb_start (set_peb_buf (memset (peb_buf ubi) 0 (leb_size ubi)) ubi))
    with (leb_start ubi) by (destruct ubi; reflexivity).
  replace (leb_size (set_peb_buf (memset (peb_buf ubi) 0 (leb_size ubi)) ubi))
    with (leb_size ubi) by (destruct ubi; reflexivity).
  rewrite Hread.
  replace (set_peb_buf _ (io_done _ (set_peb_buf _ ubi)))
    with (ubi_after_data ubi pnum data) by (destruct ubi; reflexivity).
  destruct ((err =? UBI_IO_BITFLIPS) || mtd_is_eccerr err); [reflexivity|].
  destruct (err !=? 0) eqn:E; [reflexivity|].
  apply negb_false_iff, Z.eqb_eq in E. subst err.
  destruct (ubi_check_pattern _ _ _); reflexivity.
Qed.

Lemma scan_peb_vid_bad_hdr (ubi1 ubi3 : ubi_device) (ai : ubi_attach_info)
    (pnum ec bf e_vid v : Z) (vidh : ubi_vid_hdr) (obj : ubi_ainf_peb) :
  io_read_vid_hdr P (now ubi1) pnum = (e_vid, vidh) ->
  e_vid = UBI_IO_BAD_HDR \/ e_vid = UBI_IO_BAD_HDR_EBADMSG ->
  check_corruption P (io_done (IO_READ_VID_HDR pnum) ubi1) vidh pnum = (v, ubi3) ->
  slab_alloc P (allocs ubi3) = Some obj ->
  let lst := if CONFIG_MTD_UBI_LOWPAGE_BACKUP P then LIST_WAITING else LIST_ERASE in
  scan_peb_vid P ubi1 ai pnum ec bf 0 =
    if v <? 0 then (v, ubi3, ai)
    else if v =? 0 then
      (0, alloc_done ubi3,
       adjust_mean_ec
         (ai_list_set lst
            (new_aeb obj pnum UBI_UNKNOWN UBI_UNKNOWN (to_s32 ec) :: ai_list_get lst ai)
            ai) 0 ec)
    else
      (0, alloc_done ubi3,
       adjust_mean_ec
         (set_ai_corr (set_aeb_ec (to_s32 ec) (set_aeb_pnum pnum obj) :: ai_corr ai)
            (set_corr_peb_count (to_s32 (corr_peb_count ai + 1)) ai)) 0 ec).
Proof.
  intros Hvid Hevid Hcc Hslab. cbv zeta.
  unfold scan_peb_vid, ubi_io_read_vid_hdr. rewrite Hvid.
  destruct Hevid as [-> | ->]; simpl; rewrite Hcc;
    destruct (v <? 0); try reflexivity;
    destruct (v =? 0);
    unfold add_to_list, add_corrupted, kmem_cache_alloc; rewrite Hslab;
    destruct (CONFIG_MTD_UBI_LOWPAGE_BACKUP P); reflexivity.
Qed.

(** C5: a PEB with an accepted EC header and a corrupted VID header.
    [scan_peb] puts it at the head of the erase list (the waiting list
    of a LOWPAGE_BACKUP build) exactly when the read of the data area
    reported bit-flips or an ECC error, or read all 0xFF; when the read
    was clean and found something else it puts the PEB at the head of
    the corr list and counts it; in both cases it returns 0.  A failed
    read is returned and attaches nothing. *)
Theorem C5_scan_peb_vid_corrupted (ubi : ubi_device) (ai : ubi_attach_info)
    (pnum e_vid err : Z) (ech : ubi_ec_hdr) (vidh : ubi_vid_hdr)
    (data : list Z) (obj : ubi_ainf_peb) :
  ec_hdr_accepted ubi pnum ech ->
  io_read_vid_hdr P (S (S (now ubi))) pnum = (e_vid, vidh) ->
  e_vid = UBI_IO_BAD_HDR \/ e_vid = UBI_IO_BAD_HDR_EBADMSG ->
  io_read P (S (S (S (now ubi)))) pnum (leb_start ubi) (leb_size ubi) = (err, data) ->
  err = 0 \/ err = UBI_IO_BITFLIPS \/ err < 0 ->
  slab_alloc P (allocs ubi) = Some obj ->
  - 2 ^ 31 <= corr_peb_count ai < INT_MAX ->
  let ubi3 :=
    ubi_after_data (io_done (IO_READ_VID_HDR pnum) (ubi_after_ec ubi pnum ech))
      pnum data in
  let power_cut :=
    err = UBI_IO_BITFLIPS \/ err = - EBADMSG \/ (err = 0 /\ all_ff (data_area ubi3)) in
  let ec := to_s32 (to_s64 (ech_ec ech)) in
  let lst := if CONFIG_MTD_UBI_LOWPAGE_BACKUP P then LIST_WAITING else LIST_ERASE in
  let ret := fst (fst (scan_peb P ubi ai pnum)) in
  let ai' := snd (scan_peb P ubi ai pnum) in
  (power_cut ->
   ret = 0 /\
   ai_list_get lst ai' = new_aeb obj pnum UBI_UNKNOWN UBI_UNKNOWN ec :: ai_list_get lst ai /\
   ai_corr ai' = ai_corr ai /\ corr_peb_count ai' = corr_peb_count ai) /\
  (err = 0 /\ ~ all_ff (data_area ubi3) ->
   ret = 0 /\
   ai_corr ai' = set_aeb_ec ec (set_aeb_pnum pnum obj) :: ai_corr ai /\
   corr_peb_count ai' = corr_peb_count ai + 1 /\
   ai_erase ai' = ai_erase ai /\ ai_waiting ai' = ai_waiting ai) /\
  (err < 0 /\ err <> - EBADMSG -> ret = err /\ ai' = ai) /\
  (ret = 0 /\ ai_corr ai' = ai_corr ai <-> power_cut).
Proof.
  intros Hec Hvid Hevid Hread Herr Hslab Hrange. cbv zeta.
  destruct (scan_peb_ec_accepted ubi ai pnum ech Hec) as (bf & _ & ->).
  set (ubi1 := ubi_after_ec ubi pnum ech).
  set (ubi2 := io_done (IO_READ_VID_HDR pnum) ubi1).
  assert (Hnow1 : now ubi1 = S (S (now ubi))) by apply now_ubi_after_ec.
  assert (Hnow2 : now ubi2 = S (S (S (now ubi)))).
  { unfold ubi2. rewrite now_io_done, Hnow1. reflexivity. }
  assert (Hgeo : leb_start ubi2 = leb_start ubi /\ leb_size ubi2 = leb_size ubi).
  { unfold ubi2, ubi1, ubi_after_ec.
    destruct (image_seq ubi =? 0); destruct ubi; split; reflexivity. }
  destruct Hgeo as [Hls Hlz].
  assert (Hread2 : io_read P (now ubi2) pnum (leb_start ubi2) (leb_size ubi2) = (err, data)).
  { rewrite Hnow2, Hls, Hlz. exact Hread. }
  pose proof (check_corruption_verdict ubi2 vidh pnum err data Hread2) as Hcc.
  cbv zeta in Hcc.
  set (ubi3 := ubi_after_data ubi2 pnum data) in *.
  assert (Hslab3 : slab_alloc P (allocs ubi3) = Some obj).
  { replace (allocs ubi3) with (allocs ubi); [exact Hslab|].
    unfold ubi3, ubi2, ubi1, ubi_after_ec.
    destruct (image_seq ubi =? 0); destruct ubi; reflexivity. }
  rewrite <- Hnow1 in Hvid.
  rewrite (scan_peb_vid_bad_hdr ubi1 ubi3 ai pnum (to_s64 (ech_ec ech)) bf e_vid _ vidh obj
             Hvid Hevid Hcc Hslab3).
  pose proof (ubi_check_pattern_all_ff ubi3) as Hpat.
  rewrite (to_s32_id (corr_peb_count ai + 1)) by (unfold INT_MAX in *; lia).
  set (v := if (err =? UBI_IO_BITFLIPS) || mtd_is_eccerr err then 0
            else if err !=? 0 then err
            else if ubi_check_pattern (peb_buf ubi3) 255 (leb_size ubi3) then 0 else 1).
  set (power_cut :=
         err = UBI_IO_BITFLIPS \/ err = - EBADMSG \/ err = 0 /\ all_ff (data_area ubi3)).
  assert (Hv : (power_cut /\ v = 0)
               \/ (err = 0 /\ ~ all_ff (data_area ubi3) /\ v = 1)
               \/ (err < 0 /\ err <> - EBADMSG /\ v = err)).
  { unfold v, power_cut, mtd_is_eccerr.
    destruct Herr as [-> | [-> | Hneg]].
    - simpl. destruct (ubi_check_pattern _ _ _) eqn:Epat.
      + left. split; [right; right; split; [reflexivity | apply Hpat; reflexivity] | reflexivity].
      + right; left. repeat split.
        intros Hff. apply Hpat in Hff. congruence.
    - left. split; [left; reflexivity | reflexivity].
    - destruct (Z.eqb_spec err (- EBADMSG)) as [-> | Hne].
      + left. split; [right; left; reflexivity | reflexivity].
      + right; right. repeat split; try assumption.
        replace (err =? UBI_IO_BITFLIPS) with false
          by (symmetry; apply Z.eqb_neq; unfold UBI_IO_BITFLIPS; lia).
        replace (err !=? 0) with true
          by (symmetry; apply negb_true_iff, Z.eqb_neq; lia).
        reflexivity. }
  assert (Hpc : power_cut -> v = 0).
  { intros Hp. destruct Hv as [[_ E] | [(E & Hn & _) | (E & Hn & _)]]; [exact E | |];
      exfalso; unfold power_cut, UBI_IO_BITFLIPS, EBADMSG in *;
      destruct Hp as [Hp | [Hp | [Hp Hff]]]; try lia; contradiction. }
  clearbody v.
  assert (Hx1 : power_cut -> ~ (err = 0 /\ ~ all_ff (data_area ubi3))).
  { unfold power_cut, UBI_IO_BITFLIPS, EBADMSG. intros [H | [H | [_ H]]] [Hz Hn]; try lia.
    contradiction. }
  assert (Hx2 : power_cut -> ~ (err < 0 /\ err <> - EBADMSG)).
  { unfold power_cut, UBI_IO_BITFLIPS, EBADMSG. intros [H | [H | [H _]]] [Hz Hn]; lia. }
  assert (Hne : forall (x : ubi_ainf_peb) l, x :: l <> l).
  { intros x l H. apply (f_equal (@length _)) in H. simpl in H. lia. }
  unfold adjust_mean_ec. cbn [Z.eqb].
  destruct Hv as [[Hp E] | [(E0 & Hn & E) | (E0 & Hn & E)]]; rewrite E.
  - cbn [Z.ltb Z.eqb Z.compare].
    destruct (_ >? _); destruct (_ <? _);
      destruct (CONFIG_MTD_UBI_LOWPAGE_BACKUP P); simpl;
      (split; [intros _; repeat split; reflexivity |]);
      (split; [intros Hc; elim (Hx1 Hp Hc) |]);
      (split; [intros Hc; elim (Hx2 Hp Hc) |]);
      (split; [intros _; exact Hp | intros _; split; reflexivity]).
  - cbn [Z.ltb Z.eqb Z.compare].
    assert (Hnp : ~ power_cut) by (intros Hp; apply (Hx1 Hp); split; assumption).
    destruct (_ >? _); destruct (_ <? _); simpl;
      (split; [intros Hp; contradiction |]);
      (split; [intros _; repeat split; reflexivity |]);
      (split; [intros [Hc _]; lia |]);
      (split; [intros [_ Hc]; elim (Hne _ _ Hc) | intros Hp; contradiction]).
  - assert (Hnp : ~ power_cut) by (intros Hp; apply (Hx2 Hp); split; assumption).
    replace (err <? 0) with true by (symmetry; apply Z.ltb_lt; exact E0). simpl.
    split; [intros Hp; contradiction|].
    split; [intros [Hc _]; lia|].
    split; [intros _; split; reflexivity|].
    split; [intros [Hc _]; lia | intros Hp; contradiction].
Qed.

(** ** The dispatch on internal volumes (C6) *)

(** The test of [scan_peb] for an internal volume. *)
Definition is_internal_volume (vol_id : Z) : Prop :=
  vol_id > UBI_MAX_VOLUMES /\ vol_id <> UBI_LAYOUT_VOLUME_ID.

(** What [scan_peb] does with a valid VID header: for an internal
    volume, DELETE puts the PEB at the head of the erase list, RO makes
    the device read-only and goes on to [ubi_add_to_av], PRESERVE puts
    the PEB at the tail of the alien list and counts it, REJECT fails
    with -EINVAL; every other PEB goes to [ubi_add_to_av]. *)
Lemma scan_peb_vol_dispatch (ubi : ubi_device) (ai : ubi_attach_info)
    (pnum ec bitflips ec_err : Z) (vidh : ubi_vid_hdr) :
  let vol_id := to_s32 (vh_vol_id vidh) in
  let lnum := to_s32 (vh_lnum vidh) in
  let res := scan_peb_vol P ubi ai pnum ec vidh bitflips ec_err in
  (is_internal_volume vol_id -> vh_compat vidh = UBI_COMPAT_DELETE ->
   forall obj, slab_alloc P (allocs ubi) = Some obj ->
   res = (0, alloc_done ubi,
          set_ai_erase (new_aeb obj pnum vol_id lnum (to_s32 ec) :: ai_erase ai) ai)) /\
  (is_internal_volume vol_id -> vh_compat vidh = UBI_COMPAT_RO ->
   res = scan_peb_admit P (set_ro_mode 1 ubi) ai pnum ec vidh bitflips ec_err) /\
  (is_internal_volume vol_id -> vh_compat vidh = UBI_COMPAT_PRESERVE ->
   forall obj, slab_alloc P (allocs ubi) = Some obj ->
   res = (0, alloc_done ubi,
          set_ai_alien (ai_alien ai ++ [new_aeb obj pnum vol_id lnum (to_s32 ec)])
            (set_alien_peb_count (to_s32 (alien_peb_count ai + 1)) ai))) /\
  (is_internal_volume vol_id -> vh_compat vidh = UBI_COMPAT_REJECT ->
   res = (- EINVAL, ubi, ai)) /\
  (~ is_internal_volume vol_id ->
   res = scan_peb_admit P ubi ai pnum ec vidh bitflips ec_err).
Proof.
  cbv zeta. unfold scan_peb_vol, is_internal_volume.
  set (vol_id := to_s32 (vh_vol_id vidh)).
  assert (Hint : vol_id > UBI_MAX_VOLUMES /\ vol_id <> UBI_LAYOUT_VOLUME_ID ->
                 (vol_id >? UBI_MAX_VOLUMES) && (vol_id !=? UBI_LAYOUT_VOLUME_ID) = true).
  { intros [H1 H2]. apply andb_true_iff. split.
    - rewrite Z.gtb_ltb. apply Z.ltb_lt. lia.
    - apply negb_true_iff, Z.eqb_neq. exact H2. }
  repeat split.
  - intros Hi Hc obj Hslab. rewrite (Hint Hi), Hc. simpl.
    unfold add_to_list, kmem_cache_alloc. rewrite Hslab. reflexivity.
  - intros Hi Hc. rewrite (Hint Hi), Hc. reflexivity.
  - intros Hi Hc obj Hslab. rewrite (Hint Hi), Hc. simpl.
    unfold add_to_list, kmem_cache_alloc. rewrite Hslab. reflexivity.
  - intros Hi Hc. rewrite (Hint Hi), Hc. reflexivity.
  - intros Hn.
    destruct ((vol_id >? UBI_MAX_VOLUMES) && (vol_id !=? UBI_LAYOUT_VOLUME_ID)) eqn:E;
      [|reflexivity].
    exfalso. apply Hn. apply andb_true_iff in E. destruct E as [E1 E2].
    rewrite Z.gtb_ltb in E1. apply Z.ltb_lt in E1.
    apply negb_true_iff, Z.eqb_neq in E2. split; [lia | exact E2].
Qed.

(** ** What scanning leaves alone

    [mean_ec], the alien list and [alien_peb_count] are written by
    [add_to_list] on the alien list and by [scan_all] only. *)

Definition frame_view (ai : ubi_attach_info) : Z * list ubi_ainf_peb * Z :=
  (mean_ec ai, ai_alien ai, alien_peb_count ai).

Lemma add_to_list_frame ubi ai pnum vol_id lnum ec to_head lst err ubi' ai' :
  add_to_list P ubi ai pnum vol_id lnum ec to_head lst = (err, ubi', ai') ->
  lst <> LIST_ALIEN ->
  frame_view ai' = frame_view ai.
Proof.
  unfold add_to_list, kmem_cache_alloc. intros H Hl.
  destruct (slab_alloc P (allocs ubi)); destruct lst; try contradiction;
    destruct (to_head !=? 0); inversion H; reflexivity.
Qed.

Lemma add_to_list_alien ubi ai pnum vol_id lnum ec err ubi' ai' :
  add_to_list P ubi ai pnum vol_id lnum ec 0 LIST_ALIEN = (err, ubi', ai') ->
  0 <= err ->
  mean_ec ai' = mean_ec ai /\
  alien_peb_count ai' = to_s32 (alien_peb_count ai + 1) /\
  exists aeb, ai_alien ai' = ai_alien ai ++ [aeb].
Proof.
  unfold add_to_list, kmem_cache_alloc. intros H Herr.
  destruct (slab_alloc P (allocs ubi)) as [obj|].
  - simpl in H. inversion H; subst. simpl. repeat split. eexists. reflexivity.
  - inversion H; subst. unfold ENOMEM in Herr. lia.
Qed.

Lemma add_corrupted_frame ubi ai pnum ec err ubi' ai' :
  add_corrupted P ubi ai pnum ec = (err, ubi', ai') ->
  frame_view ai' = frame_view ai.
Proof.
  unfold add_corrupted, kmem_cache_alloc. intros H.
  destruct (slab_alloc P (allocs ubi)); inversion H; reflexivity.
Qed.

Lemma add_volume_frame ubi ai vol_id pnum vid_hdr r ubi' ai' :
  add_volume P ubi ai vol_id pnum vid_hdr = (r, ubi', ai') ->
  frame_view ai' = frame_view ai.
Proof.
  unfold add_volume, kmalloc_volume. intros H.
  destruct (rb_walk _ _); [inversion H; reflexivity|].
  destruct (kmalloc_av P (allocs ubi)); [|inversion H; reflexivity].
  destruct (vol_id >? highest_vol_id ai); inversion H; reflexivity.
Qed.

Lemma adjust_mean_ec_frame ai ec_err ec :
  frame_view (adjust_mean_ec ai ec_err ec) = frame_view ai.
Proof.
  unfold adjust_mean_ec.
  destruct (ec_err =? 0); [|reflexivity].
  destruct (ec >? _); destruct (ec <? _); reflexivity.
Qed.

(** Case analysis on the tests and calls of the goal. *)
Ltac break_goal :=
  match goal with
  | |- context [match ?x with _ => _ end] => destruct x eqn:?
  end.

Ltac use_frames :=
  repeat match goal with
    | H : add_to_list _ _ _ _ _ _ _ _ _ = _ |- _ =>
        apply add_to_list_frame in H; [|discriminate]
    | H : add_corrupted _ _ _ _ _ = _ |- _ => apply add_corrupted_frame in H
    | H : add_volume _ _ _ _ _ _ = _ |- _ => apply add_volume_frame in H
    end.

Ltac frame_close :=
  repeat match goal with
    | H : context [if ?c then _ else _] |- _ => destruct c
    end;
  use_frames; unfold frame_view, av_store in *; simpl in *; congruence.

Lemma ubi_add_to_av_frame ubi ai pnum ec vid_hdr bitflips err ubi' ai' :
  ubi_add_to_av P ubi ai pnum ec vid_hdr bitflips = (err, ubi', ai') ->
  frame_view ai' = frame_view ai.
Proof.
  unfold ubi_add_to_av.
  repeat break_goal; intros H; inversion H; subst; frame_close.
Qed.

Lemma scan_peb_admit_frame ubi ai pnum ec vidh bitflips ec_err err ubi' ai' :
  scan_peb_admit P ubi ai pnum ec vidh bitflips ec_err = (err, ubi', ai') ->
  frame_view ai' = frame_view ai.
Proof.
  unfold scan_peb_admit.
  destruct (ubi_add_to_av _ _ _ _ _ _ _) as [[e u] a] eqn:E.
  apply ubi_add_to_av_frame in E.
  destruct (e !=? 0); intros H; inversion H; subst;
    [|rewrite adjust_mean_ec_frame]; exact E.
Qed.

(** One step of the scan either leaves the alien list and its counter
    alone, or - when it succeeds - has put one PebInfo at the tail of
    the list and counted one more. *)
Definition alien_step (ai ai' : ubi_attach_info) : Prop :=
  mean_ec ai' = mean_ec ai /\
  ((ai_alien ai' = ai_alien ai /\ alien_peb_count ai' = alien_peb_count ai) \/
   (alien_peb_count ai' = to_s32 (alien_peb_count ai + 1) /\
    exists aeb, ai_alien ai' = ai_alien ai ++ [aeb])).

Lemma frame_alien_step ai ai' : frame_view ai' = frame_view ai -> alien_step ai ai'.
Proof.
  unfold frame_view, alien_step. intros H. inversion H as [[H1 H2 H3]].
  split; [reflexivity | left; split; reflexivity].
Qed.

Lemma scan_peb_vol_step ubi ai pnum ec vidh bitflips ec_err err ubi' ai' :
  scan_peb_vol P ubi ai pnum ec vidh bitflips ec_err = (err, ubi', ai') ->
  0 <= err ->
  alien_step ai ai'.
Proof.
  unfold scan_peb_vol.
  repeat break_goal; intros H Herr; inversion H; subst;
    try (apply frame_alien_step;
         first [ eapply scan_peb_admit_frame; eassumption
               | eapply add_to_list_frame; [eassumption | discriminate]
               | reflexivity ]);
    match goal with
    | Ha : add_to_list _ _ _ _ _ _ _ _ LIST_ALIEN = (?z, _, _) |- _ =>
        assert (Hz : 0 <= z)
          by (try assumption;
              match goal with
              | Hb : (z !=? 0) = false |- _ =>
                  apply negb_false_iff, Z.eqb_eq in Hb; lia
              end);
        apply add_to_list_alien in Ha; [|exact Hz];
        destruct Ha as (Hm & Hc & Hl);
        split; [exact Hm | right; split; assumption]
    end.
Qed.

Lemma scan_peb_vid_step ubi ai pnum ec bitflips ec_err err ubi' ai' :
  scan_peb_vid P ubi ai pnum ec bitflips ec_err = (err, ubi', ai') ->
  0 <= err ->
  alien_step ai ai'.
Proof.
  unfold scan_peb_vid.
  repeat break_goal; intros H Herr; inversion H; subst;
    try (eapply scan_peb_vol_step; eassumption);
    apply frame_alien_step; try rewrite adjust_mean_ec_frame; frame_close.
Qed.

Lemma scan_peb_step ubi ai pnum err ubi' ai' :
  scan_peb P ubi ai pnum = (err, ubi', ai') -> 0 <= err -> alien_step ai ai'.
Proof.
  unfold scan_peb, scan_peb_ec.
  repeat break_goal; intros H Herr; inversion H; subst;
    try (eapply scan_peb_vid_step; eassumption);
    apply frame_alien_step; frame_close.
Qed.

(** ** C6: the dispatch on [compat], for the headers the flash can give *)






(** Modelled from the spec: the check of the volume identifier that
    the I/O sub-system (io.c, [ubi_io_read_vid_hdr]) makes before it hands
    a VID header over as valid.  User volumes have the identifiers below
    UBI_MAX_VOLUMES and internal volumes those from UBI_INTERNAL_VOL_START
    on; an identifier in between is no volume's, and [self_check_ai]
    refuses it with "bad vol_id" as well. *)
Definition vol_id_in_namespace (vol_id : Z) : Prop :=
  vol_id < UBI_MAX_VOLUMES \/ UBI_INTERNAL_VOL_START <= vol_id.






(** A step of the scan that fails: the alien list is as it was, and the
    counter too, unless the step failed in [add_to_list] for the alien
    list, which counts the PEB before it asks for the PebInfo. *)
Definition alien_step_failed (err : Z) (ai ai' : ubi_attach_info) : Prop :=
  ai_alien ai' = ai_alien ai /\
  (alien_peb_count ai' = alien_peb_count ai \/
   (err = - ENOMEM /\ alien_peb_count ai' = to_s32 (alien_peb_count ai + 1))).

Lemma frame_alien_step_failed err ai ai' :
  frame_view ai' = frame_view ai -> alien_step_failed err ai ai'.
Proof.
  unfold frame_view, alien_step_failed. intros H. inversion H as [[H1 H2 H3]].
  split; [reflexivity | left; reflexivity].
Qed.

Lemma add_to_list_alien_failed ubi ai pnum vol_id lnum ec err ubi' ai' :
  add_to_list P ubi ai pnum vol_id lnum ec 0 LIST_ALIEN = (err, ubi', ai') ->
  err < 0 ->
  alien_step_failed err ai ai'.
Proof.
  unfold add_to_list, kmem_cache_alloc. intros H Herr.
  destruct (slab_alloc P (allocs ubi)) as [obj|].
  - simpl in H. inversion H; subst. lia.
  - inversion H; subst. split; [reflexivity | right; split; reflexivity].
Qed.

Lemma scan_peb_vol_failed ubi ai pnum ec vidh bitflips ec_err err ubi' ai' :
  scan_peb_vol P ubi ai pnum ec vidh bitflips ec_err = (err, ubi', ai') ->
  err < 0 ->
  alien_step_failed err ai ai'.
Proof.
  unfold scan_peb_vol.
  repeat break_goal; intros H Herr; inversion H; subst;
    try (apply frame_alien_step_failed;
         first [ eapply scan_peb_admit_frame; eassumption
               | eapply add_to_list_frame; [eassumption | discriminate]
               | reflexivity ]);
    try lia;
    eapply add_to_list_alien_failed; eassumption.
Qed.

Lemma scan_peb_vid_failed ubi ai pnum ec bitflips ec_err err ubi' ai' :
  scan_peb_vid P ubi ai pnum ec bitflips ec_err = (err, ubi', ai') ->
  err < 0 ->
  alien_step_failed err ai ai'.
Proof.
  unfold scan_peb_vid.
  repeat break_goal; intros H Herr; inversion H; subst;
    try (eapply scan_peb_vol_failed; eassumption);
    apply frame_alien_step_failed; try rewrite adjust_mean_ec_frame; frame_close.
Qed.

Lemma scan_peb_failed ubi ai pnum err ubi' ai' :
  scan_peb P ubi ai pnum = (err, ubi', ai') -> err < 0 ->
  alien_step_failed err ai ai'.
Proof.
  unfold scan_peb, scan_peb_ec.
  repeat break_goal; intros H Herr; inversion H; subst;
    try (eapply scan_peb_vid_failed; eassumption);
    apply frame_alien_step_failed; frame_close.
Qed.

(** ** C10: the alien counter *)

(** The counter is the length of the alien list, as an [int]. *)
Definition alien_counted (ai : ubi_attach_info) : Prop :=
  alien_peb_count ai = to_s32 (Z.of_nat (length (ai_alien ai))).

Lemma alien_step_counted (ai ai' : ubi_attach_info) :
  alien_step ai ai' -> alien_counted ai ->
  alien_counted ai' /\ (length (ai_alien ai') <= S (length (ai_alien ai)))%nat.
Proof.
  unfold alien_step, alien_counted.
  intros (_ & [[Hl Hc] | (Hc & aeb & Hl)]) Hi.
  - rewrite Hl, Hc. split; [exact Hi | lia].
  - rewrite Hl, Hc, Hi, length_app. simpl.
    rewrite to_s32_succ. split; [f_equal; lia | lia].
Qed.

(** The loop of [scan_all] keeps the counter in step with the list and
    appends at most one PebInfo per PEB. *)
Lemma scan_pebs_alien (n : nat) :
  forall ubi ai pnum err ubi' ai',
    scan_pebs P n ubi ai pnum = (err, ubi', ai') -> 0 <= err ->
    alien_counted ai ->
    mean_ec ai' = mean_ec ai /\
    alien_counted ai' /\
    (length (ai_alien ai') <= length (ai_alien ai) + n)%nat.
Proof.
  induction n as [|n IH]; simpl; intros ubi ai pnum err ubi' ai' H Herr Hi.
  - inversion H; subst. repeat split; [exact Hi | lia].
  - destruct (scan_peb P ubi ai pnum) as [[e u] a] eqn:E.
    destruct (Z.ltb_spec e 0) as [Hneg | Hpos].
    + inversion H; subst. lia.
    + pose proof (scan_peb_step _ _ _ _ _ _ E Hpos) as Hs.
      destruct (alien_step_counted _ _ Hs Hi) as [Hi' Hlen].
      destruct (IH _ _ _ _ _ _ H Herr Hi') as (Hm & Hc & Hl).
      destruct Hs as [Hm' _].
      repeat split; [congruence | exact Hc | lia].
Qed.

Lemma scan_pebs_result (n : nat) :
  forall ubi ai pnum err ubi' ai',
    scan_pebs P n ubi ai pnum = (err, ubi', ai') -> 0 <= err -> err = 0.
Proof.
  induction n as [|n IH]; simpl; intros ubi ai pnum err ubi' ai' H Herr.
  - inversion H; reflexivity.
  - destruct (scan_peb P ubi ai pnum) as [[e u] a].
    destruct (Z.ltb_spec e 0); [inversion H; lia | eapply IH; eassumption].
Qed.

Lemma late_analysis_frame ubi ai err ubi' ai' :
  late_analysis P ubi ai = (err, ubi', ai') -> frame_view ai' = frame_view ai.
Proof.
  unfold late_analysis.
  repeat break_goal; intros H; inversion H; reflexivity.
Qed.

(** The steps of a [scan_all] that succeeds, in the order the code takes
    them: the two scratch headers are allocated, the PEBs scanned,
    [mean_ec] computed, [late_analysis] run, the unknown erase counters
    filled in, and the result of that handed to [self_check_ai]. *)
Lemma scan_all_steps (ubi : ubi_device) (ai : ubi_attach_info) (start : Z)
    (ubi' : ubi_device) (ai' : ubi_attach_info) :
  scan_all P ubi ai start = (0, ubi', ai') ->
  exists ubi1 ai1 ubi2 ai2,
    scan_pebs P (Z.to_nat (peb_count ubi - start)) (alloc_done (alloc_done ubi))
      ai start = (0, ubi1, ai1) /\
    late_analysis P ubi1
      (if ec_count ai1 !=? 0
       then set_mean_ec (to_s32 (to_u64 (ec_sum ai1) / to_u32 (ec_count ai1))) ai1
       else ai1) = (0, ubi2, ai2) /\
    ai' = fill_unknown_ec ai2 /\
    self_check_ai P ubi2 ai' = (0, ubi').
Proof.
  unfold scan_all, ubi_zalloc_vid_hdr, kzalloc.
  destruct (kmalloc_ok P (allocs ubi)); [|intros H; inversion H].
  destruct (kmalloc_ok P (allocs (alloc_done ubi))); [|intros H; inversion H].
  replace (peb_count (alloc_done (alloc_done ubi))) with (peb_count ubi)
    by (destruct ubi; reflexivity).
  destruct (scan_pebs _ _ _ _ _) as [[e u] a] eqn:Es.
  destruct (Z.ltb_spec e 0) as [Hneg | Hpos]; [intros H; inversion H; lia|].
  destruct (late_analysis _ _ _) as [[e1 u1] a1] eqn:El.
  destruct (e1 !=? 0) eqn:E1.
  { intros H; inversion H; subst. discriminate. }
  apply negb_false_iff, Z.eqb_eq in E1. subst e1.
  destruct (self_check_ai _ _ _) as [e2 u2] eqn:Ec.
  destruct (e2 !=? 0) eqn:E2.
  { intros H; inversion H; subst. discriminate. }
  apply negb_false_iff, Z.eqb_eq in E2. subst e2.
  intros H; inversion H; subst.
  exists u, a, u1, a1.
  assert (e = 0) by (eapply scan_pebs_result; eassumption).
  subst e. repeat split; assumption.
Qed.

(** What [scan_all] returns on success, step by step. *)
Lemma scan_all_success (ubi : ubi_device) (ai : ubi_attach_info) (start : Z)
    (ubi' : ubi_device) (ai' : ubi_attach_info) :
  scan_all P ubi ai start = (0, ubi', ai') ->
  exists ubi0 ubi1 ai1 ubi2 ai2,
    peb_count ubi0 = peb_count ubi /\
    scan_pebs P (Z.to_nat (peb_count ubi - start)) ubi0 ai start = (0, ubi1, ai1) /\
    late_analysis P ubi1
      (if ec_count ai1 !=? 0
       then set_mean_ec (to_s32 (to_u64 (ec_sum ai1) / to_u32 (ec_count ai1))) ai1
       else ai1) = (0, ubi2, ai2) /\
    ai' = fill_unknown_ec ai2 /\
    self_check_ai P ubi2 ai' = (0, ubi').
Proof.
  intros H.
  destruct (scan_all_steps _ _ _ _ _ H) as (u1 & a1 & u2 & a2 & Hs & Hl & He & Hc).
  exists (alloc_done (alloc_done ubi)), u1, a1, u2, a2.
  split; [destruct ubi; reflexivity|]. repeat split; assumption.
Qed.

Lemma fill_unknown_ec_frame (ai : ubi_attach_info) :
  frame_view (fill_unknown_ec ai) = frame_view ai.
Proof. reflexivity. Qed.

(** C10: a step of the scan that does not fail either leaves the alien
    list and [alien_peb_count] as they were or has appended one PebInfo
    and added one to the counter; a step that fails appends nothing and
    leaves the counter as it was, unless it fails with -ENOMEM, when it
    may have added one to the counter - [add_to_list] counts the alien
    PEB before it allocates the PebInfo; and when [scan_all] succeeds on
    an attach info whose counter was the length of its alien list (a
    fresh one has both zero), the counter is the length of the alien
    list. *)
Theorem C10_alien_peb_count :
  (forall ubi ai pnum err ubi' ai',
     scan_peb P ubi ai pnum = (err, ubi', ai') -> 0 <= err ->
     (ai_alien ai' = ai_alien ai /\ alien_peb_count ai' = alien_peb_count ai) \/
     (alien_peb_count ai' = to_s32 (alien_peb_count ai + 1) /\
      exists aeb, ai_alien ai' = ai_alien ai ++ [aeb])) /\
  (forall ubi ai pnum err ubi' ai',
     scan_peb P ubi ai pnum = (err, ubi', ai') -> err < 0 ->
     ai_alien ai' = ai_alien ai /\
     (alien_peb_count ai' = alien_peb_count ai \/
      (err = - ENOMEM /\
       alien_peb_count ai' = to_s32 (alien_peb_count ai + 1)))) /\
  (forall ubi ai start ubi' ai',
     alien_peb_count ai = Z.of_nat (length (ai_alien ai)) ->
     Z.of_nat (length (ai_alien ai)) + Z.max 0 (peb_count ubi - start) <= INT_MAX ->
     scan_all P ubi ai start = (0, ubi', ai') ->
     alien_peb_count ai' = Z.of_nat (length (ai_alien ai'))).
Proof.
  split; [|split].
  - intros ubi ai pnum err ubi' ai' H Herr.
    exact (proj2 (scan_peb_step _ _ _ _ _ _ H Herr)).
  - intros ubi ai pnum err ubi' ai' H Herr.
    exact (scan_peb_failed _ _ _ _ _ _ H Herr).
  - intros ubi ai start ubi' ai' Hcount Hbound H.
    apply scan_all_success in H.
    destruct H as (ubi0 & ubi1 & ai1 & ubi2 & ai2 & Hpc & Hs & Hl & -> & _).
    assert (Hi : alien_counted ai).
    { unfold alien_counted. rewrite Hcount. symmetry. apply to_s32_id.
      unfold INT_MAX in *. lia. }
    destruct (scan_pebs_alien _ _ _ _ _ _ _ Hs ltac:(lia) Hi) as (_ & Hc & Hlen).
    apply late_analysis_frame in Hl.
    assert (Hf : ai_alien (fill_unknown_ec ai2) = ai_alien ai1 /\
                 alien_peb_count (fill_unknown_ec ai2) = alien_peb_count ai1).
    { destruct (ec_count ai1 !=? 0); unfold frame_view in Hl; simpl in Hl;
        inversion Hl as [[Hm Ha Hn]]; split; reflexivity || assumption. }
    destruct Hf as [Ha Hn]. rewrite Hn, Ha, Hc.
    apply to_s32_id. unfold INT_MAX in *. lia.
Qed.

(** ** C4: the fill-in of unknown erase counters *)

Lemma late_analysis_lists ubi ai ubi' ai' :
  late_analysis P ubi ai = (0, ubi', ai') ->
  ai_volumes ai' = ai_volumes ai /\ ai_free ai' = ai_free ai /\
  ai_corr ai' = ai_corr ai /\ ai_erase ai' = ai_erase ai /\
  ai_alien ai' = ai_alien ai /\ ai_waiting ai' = ai_waiting ai /\
  mean_ec ai' = mean_ec ai.
Proof.
  unfold late_analysis.
  repeat break_goal; intros H; inversion H; repeat split; reflexivity.
Qed.

Lemma scan_pebs_mean_ec (n : nat) :
  forall ubi ai pnum err ubi' ai',
    scan_pebs P n ubi ai pnum = (err, ubi', ai') -> 0 <= err ->
    mean_ec ai' = mean_ec ai.
Proof.
  induction n as [|n IH]; simpl; intros ubi ai pnum err ubi' ai' H Herr.
  - inversion H; reflexivity.
  - destruct (scan_peb P ubi ai pnum) as [[e u] a] eqn:E.
    destruct (Z.ltb_spec e 0) as [Hneg | Hpos]; [inversion H; lia|].
    destruct (scan_peb_step _ _ _ _ _ _ E Hpos) as [Hm _].
    rewrite (IH _ _ _ _ _ _ H Herr). exact Hm.
Qed.

Lemma fill_ec_known (m : Z) (aeb : ubi_ainf_peb) :
  aeb_ec (fill_ec m aeb) = UBI_UNKNOWN -> m = UBI_UNKNOWN.
Proof.
  unfold fill_ec. destruct (aeb_ec aeb =? UBI_UNKNOWN) eqn:E; simpl.
  - intros H. exact H.
  - apply Z.eqb_neq in E. intros H. contradiction.
Qed.

(** What a successful [scan_all] has done to the erase counters. *)
Lemma scan_all_filled (ubi : ubi_device) (ai : ubi_attach_info) (start : Z)
    (ubi' : ubi_device) (ai' : ubi_attach_info) :
  scan_all P ubi ai start = (0, ubi', ai') ->
  exists ubi1 ai1 ubi2 ai2,
    scan_pebs P (Z.to_nat (peb_count ubi - start)) (alloc_done (alloc_done ubi))
      ai start = (0, ubi1, ai1) /\
    late_analysis P ubi1
      (if ec_count ai1 !=? 0
       then set_mean_ec (to_s32 (to_u64 (ec_sum ai1) / to_u32 (ec_count ai1))) ai1
       else ai1) = (0, ubi2, ai2) /\
    ai' = fill_unknown_ec ai2 /\
    self_check_ai P ubi2 ai' = (0, ubi') /\
    mean_ec ai' =
      (if ec_count ai1 =? 0 then mean_ec ai
       else to_s32 (to_u64 (ec_sum ai1) / to_u32 (ec_count ai1))) /\
    rb_inorder (ai_volumes ai') =
      map (fun av => set_av_root (rb_map (fill_ec (mean_ec ai')) (av_root av)) av)
        (rb_inorder (ai_volumes ai1)) /\
    ai_free ai' = map (fill_ec (mean_ec ai')) (ai_free ai1) /\
    ai_corr ai' = map (fill_ec (mean_ec ai')) (ai_corr ai1) /\
    ai_erase ai' = map (fill_ec (mean_ec ai')) (ai_erase ai1) /\
    ai_alien ai' = ai_alien ai1 /\
    (forall aeb,
       In aeb (ai_free ai' ++ ai_corr ai' ++ ai_erase ai') \/
       (exists av, In av (rb_inorder (ai_volumes ai')) /\
                   In aeb (rb_inorder (av_root av))) ->
       aeb_ec aeb = UBI_UNKNOWN -> mean_ec ai' = UBI_UNKNOWN).
Proof.
  intros H. apply scan_all_steps in H.
  destruct H as (ubi1 & ai1 & ubi2 & ai2 & Hs & Hl & -> & Hchk).
  exists ubi1, ai1, ubi2, ai2.
  split; [exact Hs|]. split; [exact Hl|]. split; [reflexivity|].
  split; [exact Hchk|].
  apply late_analysis_lists in Hl.
  destruct Hl as (Hv & Hf & Hc & He & Ha & Hw & Hm).
  pose proof (scan_pebs_mean_ec _ _ _ _ _ _ _ Hs ltac:(lia)) as Hmean.
  assert (Hm' : mean_ec (fill_unknown_ec ai2) =
                (if ec_count ai1 =? 0 then mean_ec ai
                 else to_s32 (to_u64 (ec_sum ai1) / to_u32 (ec_count ai1)))).
  { change (mean_ec (fill_unknown_ec ai2)) with (mean_ec ai2). rewrite Hm.
    destruct (ec_count ai1 =? 0); simpl; [exact Hmean | reflexivity]. }
  assert (Hlists :
    ai_volumes ai2 = ai_volumes ai1 /\ ai_free ai2 = ai_free ai1 /\
    ai_corr ai2 = ai_corr ai1 /\ ai_erase ai2 = ai_erase ai1 /\
    ai_alien ai2 = ai_alien ai1).
  { rewrite Hv, Hf, Hc, He, Ha.
    destruct (ec_count ai1 !=? 0); repeat split; reflexivity. }
  destruct Hlists as (Hv1 & Hf1 & Hc1 & He1 & Ha1).
  change (mean_ec (fill_unknown_ec ai2)) with (mean_ec ai2) in *.
  assert (Evol : rb_inorder (ai_volumes (fill_unknown_ec ai2)) =
                 map (fun av => set_av_root (rb_map (fill_ec (mean_ec ai2)) (av_root av)) av)
                   (rb_inorder (ai_volumes ai1))).
  { unfold fill_unknown_ec. simpl. rewrite rb_map_inorder, Hv1. reflexivity. }
  assert (Efree : ai_free (fill_unknown_ec ai2) = map (fill_ec (mean_ec ai2)) (ai_free ai1))
    by (unfold fill_unknown_ec; simpl; rewrite Hf1; reflexivity).
  assert (Ecorr : ai_corr (fill_unknown_ec ai2) = map (fill_ec (mean_ec ai2)) (ai_corr ai1))
    by (unfold fill_unknown_ec; simpl; rewrite Hc1; reflexivity).
  assert (Eerase : ai_erase (fill_unknown_ec ai2) = map (fill_ec (mean_ec ai2)) (ai_erase ai1))
    by (unfold fill_unknown_ec; simpl; rewrite He1; reflexivity).
  repeat split; try assumption.
  intros aeb [Hin | (av & Hav & Hin)] Hunk.
  - rewrite Efree, Ecorr, Eerase, <- !map_app in Hin.
    apply in_map_iff in Hin. destruct Hin as (x & <- & _).
    eapply fill_ec_known; eassumption.
  - rewrite Evol in Hav. apply in_map_iff in Hav. destruct Hav as (v & <- & _).
    simpl in Hin. rewrite rb_map_inorder in Hin.
    apply in_map_iff in Hin. destruct Hin as (x & <- & _).
    eapply fill_ec_known; eassumption.
Qed.

(** C4, as the code has it.  When [scan_all] succeeds it has scanned
    the PEBs, set [mean_ec] to [ec_sum / ec_count] of the finished scan
    (left as it was when [ec_count] is 0: 0 for a fresh attach info),
    run [late_analysis], given every PebInfo of the used trees and of
    the free, corr and erase lists whose [ec] was unknown [mean_ec] for
    [ec] (the others being unchanged, the alien list left as the scan
    made it), and only then run [self_check_ai], on the attach info so
    filled in, which is the one returned.  Conversely, when the two
    scratch headers are allocated, the scan and [late_analysis] succeed
    and [self_check_ai] returns 0 on the attach info filled in,
    [scan_all] returns 0 with it: what the self-check would make of the
    attach info before the fill-in does not count. *)
Theorem C4_fill_unknown_ec (ubi : ubi_device) (ai : ubi_attach_info) (start : Z) :
  (forall ubi' ai',
     scan_all P ubi ai start = (0, ubi', ai') ->
     exists ubi1 ai1 ubi2 ai2,
       scan_pebs P (Z.to_nat (peb_count ubi - start)) (alloc_done (alloc_done ubi))
         ai start = (0, ubi1, ai1) /\
       late_analysis P ubi1
         (if ec_count ai1 !=? 0
          then set_mean_ec (to_s32 (to_u64 (ec_sum ai1) / to_u32 (ec_count ai1))) ai1
          else ai1) = (0, ubi2, ai2) /\
       ai' = fill_unknown_ec ai2 /\
       self_check_ai P ubi2 ai' = (0, ubi') /\
       mean_ec ai' =
         (if ec_count ai1 =? 0 then mean_ec ai
          else to_s32 (to_u64 (ec_sum ai1) / to_u32 (ec_count ai1))) /\
       rb_inorder (ai_volumes ai') =
         map (fun av => set_av_root (rb_map (fill_ec (mean_ec ai')) (av_root av)) av)
           (rb_inorder (ai_volumes ai1)) /\
       ai_free ai' = map (fill_ec (mean_ec ai')) (ai_free ai1) /\
       ai_corr ai' = map (fill_ec (mean_ec ai')) (ai_corr ai1) /\
       ai_erase ai' = map (fill_ec (mean_ec ai')) (ai_erase ai1) /\
       ai_alien ai' = ai_alien ai1 /\
       (forall aeb,
          In aeb (ai_free ai' ++ ai_corr ai' ++ ai_erase ai') \/
          (exists av, In av (rb_inorder (ai_volumes ai')) /\
                      In aeb (rb_inorder (av_root av))) ->
          aeb_ec aeb = UBI_UNKNOWN -> mean_ec ai' = UBI_UNKNOWN)) /\
  (forall ubi1 ai1 ubi2 ai2 ubi',
     kmalloc_ok P (allocs ubi) = true ->
     kmalloc_ok P (S (allocs ubi)) = true ->
     scan_pebs P (Z.to_nat (peb_count ubi - start)) (alloc_done (alloc_done ubi))
       ai start = (0, ubi1, ai1) ->
     late_analysis P ubi1
       (if ec_count ai1 !=? 0
        then set_mean_ec (to_s32 (to_u64 (ec_sum ai1) / to_u32 (ec_count ai1))) ai1
        else ai1) = (0, ubi2, ai2) ->
     self_check_ai P ubi2 (fill_unknown_ec ai2) = (0, ubi') ->
     scan_all P ubi ai start = (0, ubi', fill_unknown_ec ai2)).
Proof.
  split.
  - intros ubi' ai' H. apply scan_all_filled in H.
    destruct H as (ubi1 & ai1 & ubi2 & ai2 & H). exists ubi1, ai1, ubi2, ai2. exact H.
  - intros ubi1 ai1 ubi2 ai2 ubi' H1 H2 Hs Hl Hc.
    unfold scan_all, ubi_zalloc_vid_hdr, kzalloc. rewrite H1.
    replace (allocs (alloc_done ubi)) with (S (allocs ubi)) by (destruct ubi; reflexivity).
    rewrite H2.
    replace (peb_count (alloc_done (alloc_done ubi))) with (peb_count ubi)
      by (destruct ubi; reflexivity).
    rewrite Hs. cbn [Z.ltb Z.compare]. rewrite Hl. cbn [Z.eqb negb].
    rewrite Hc. reflexivity.
Qed.

(** ** The two search trees (C8, C9) *)

Definition vol_ids (t : rb_root ubi_ainf_volume) : list Z :=
  map av_vol_id (rb_inorder t).

Definition lnums (av : ubi_ainf_volume) : list Z :=
  map aeb_lnum (rb_inorder (av_root av)).

(** In-order, the LEBs of a volume come by ascending [lnum]. *)
Definition used_sorted (av : ubi_ainf_volume) : Prop :=
  StronglySorted Z.lt (lnums av).

(** In-order, the volumes come by descending [vol_id], and each has its
    LEBs in order. *)
Definition volumes_sorted (t : rb_root ubi_ainf_volume) : Prop :=
  StronglySorted Z.gt (vol_ids t) /\ Forall used_sorted (rb_inorder t).

Lemma Zgt_trans' (a b c : Z) : a > b -> b > c -> a > c.
Proof. lia. Qed.

Lemma Zgt_irrefl' (a : Z) : ~ a > a.
Proof. lia. Qed.

Lemma vol_cmp_found k av : vol_cmp k av = FOUND -> av_vol_id av = k.
Proof.
  unfold vol_cmp. destruct (Z.eqb_spec k (av_vol_id av)); [congruence|].
  destruct (k >? av_vol_id av); discriminate.
Qed.

Lemma vol_cmp_left k av : vol_cmp k av = GO_LEFT -> k > av_vol_id av.
Proof.
  unfold vol_cmp. destruct (Z.eqb_spec k (av_vol_id av)); [discriminate|].
  destruct (k >? av_vol_id av) eqn:E; [|discriminate].
  rewrite Z.gtb_ltb in E. apply Z.ltb_lt in E. lia.
Qed.

Lemma vol_cmp_right k av : vol_cmp k av = GO_RIGHT -> av_vol_id av > k.
Proof.
  unfold vol_cmp. destruct (Z.eqb_spec k (av_vol_id av)); [discriminate|].
  destruct (k >? av_vol_id av) eqn:E; [discriminate|].
  rewrite Z.gtb_ltb in E. apply Z.ltb_ge in E. lia.
Qed.

Lemma lnum_cmp_found k aeb : lnum_cmp k aeb = FOUND -> aeb_lnum aeb = k.
Proof.
  unfold lnum_cmp. destruct (Z.eqb_spec k (aeb_lnum aeb)); simpl; [congruence|].
  destruct (k <? aeb_lnum aeb); discriminate.
Qed.

Lemma lnum_cmp_left k aeb : lnum_cmp k aeb = GO_LEFT -> k < aeb_lnum aeb.
Proof.
  unfold lnum_cmp. destruct (Z.eqb_spec k (aeb_lnum aeb)); simpl; [discriminate|].
  destruct (Z.ltb_spec k (aeb_lnum aeb)); [lia | discriminate].
Qed.

Lemma lnum_cmp_right k aeb : lnum_cmp k aeb = GO_RIGHT -> aeb_lnum aeb < k.
Proof.
  unfold lnum_cmp. destruct (Z.eqb_spec k (aeb_lnum aeb)); simpl; [discriminate|].
  destruct (Z.ltb_spec k (aeb_lnum aeb)); [discriminate | lia].
Qed.

(** [ubi_find_av] runs the descent of [add_volume]. *)
Lemma find_av_loop_walk (vol_id : Z) (t : rb_root ubi_ainf_volume) :
  find_av_loop vol_id t = rb_walk (vol_cmp vol_id) t.
Proof.
  induction t as [|c l IHl av r IHr]; simpl; [reflexivity|].
  unfold vol_cmp at 1.
  destruct (vol_id =? av_vol_id av); [reflexivity|].
  destruct (vol_id >? av_vol_id av); assumption.
Qed.

(** A volume of a sorted tree is found under its [vol_id]. *)
Lemma volume_found (t : rb_root ubi_ainf_volume) (av : ubi_ainf_volume) :
  StronglySorted Z.gt (vol_ids t) -> In av (rb_inorder t) ->
  rb_walk (vol_cmp (av_vol_id av)) t = Some av.
Proof.
  intros Hs Hin.
  apply (rb_walk_complete av_vol_id Z.gt Zgt_trans' Zgt_irrefl' (av_vol_id av)
           (vol_cmp (av_vol_id av)) (vol_cmp_found _) (vol_cmp_left _)
           (vol_cmp_right _) t av Hs Hin eq_refl).
Qed.

(** No two volumes of a sorted tree share a [vol_id]. *)
Lemma volumes_sorted_unique (t : rb_root ubi_ainf_volume) (a b : ubi_ainf_volume) :
  StronglySorted Z.gt (vol_ids t) ->
  In a (rb_inorder t) -> In b (rb_inorder t) ->
  av_vol_id a = av_vol_id b -> a = b.
Proof.
  intros Hs Ha Hb Hk.
  pose proof (volume_found _ _ Hs Ha) as Hwa.
  pose proof (volume_found _ _ Hs Hb) as Hwb.
  rewrite Hk in Hwa. congruence.
Qed.

(** A LEB of a sorted used tree is found under its [lnum]. *)
Lemma leb_found (t : rb_root ubi_ainf_peb) (aeb : ubi_ainf_peb) :
  StronglySorted Z.lt (map aeb_lnum (rb_inorder t)) -> In aeb (rb_inorder t) ->
  rb_walk (lnum_cmp (aeb_lnum aeb)) t = Some aeb.
Proof.
  intros Hs Hin.
  apply (rb_walk_complete aeb_lnum Z.lt Z.lt_trans Z.lt_irrefl (aeb_lnum aeb)
           (lnum_cmp (aeb_lnum aeb)) (lnum_cmp_found _) (lnum_cmp_left _)
           (lnum_cmp_right _) t aeb Hs Hin eq_refl).
Qed.

(** The volume [add_volume] makes of a [kmalloc]ed object. *)
Definition new_volume (obj : ubi_ainf_volume) (vol_id : Z) (vid_hdr : ubi_vid_hdr)
    : ubi_ainf_volume :=
  mk_av vol_id 0 0
    (if vh_vol_type vid_hdr =? UBI_VID_DYNAMIC then UBI_DYNAMIC_VOLUME
     else UBI_STATIC_VOLUME)
    (to_s32 (vh_used_ebs vid_hdr)) (av_last_data_size obj)
    (to_s32 (vh_data_pad vid_hdr)) (vh_compat vid_hdr) RB_ROOT.

(** The two ways [add_volume] returns a volume: the one the descent
    found, the tree being left alone; or a new one, linked where the
    descent ended. *)
Lemma add_volume_cases ubi ai vol_id pnum vid_hdr r ubi' ai' :
  add_volume P ubi ai vol_id pnum vid_hdr = (r, ubi', ai') ->
  (exists av, r = PTR av /\ rb_walk (vol_cmp vol_id) (ai_volumes ai) = Some av /\
              ai' = ai /\ ubi' = ubi) \/
  (exists obj, r = PTR (new_volume obj vol_id vid_hdr) /\
               rb_walk (vol_cmp vol_id) (ai_volumes ai) = None /\
               kmalloc_av P (allocs ubi) = Some obj /\
               rb_inorder (ai_volumes ai') =
                 rb_inorder (rb_link_node (vol_cmp vol_id)
                               (new_volume obj vol_id vid_hdr) (ai_volumes ai))) \/
  (r = ERR_PTR (- ENOMEM) /\ ai' = ai).
Proof.
  unfold add_volume, kmalloc_volume. intros H.
  destruct (rb_walk _ _) as [av|] eqn:Ew.
  - left. inversion H; subst. exists av. repeat split; reflexivity.
  - destruct (kmalloc_av P (allocs ubi)) as [obj|] eqn:Ea.
    + right; left. exists obj.
      destruct (vol_id >? highest_vol_id ai); inversion H; subst; simpl;
        rewrite rb_insert_color_inorder; repeat split; reflexivity.
    + right; right. inversion H; subst. split; reflexivity.
Qed.

Lemma add_volume_sorted ubi ai vol_id pnum vid_hdr av ubi' ai' :
  volumes_sorted (ai_volumes ai) ->
  add_volume P ubi ai vol_id pnum vid_hdr = (PTR av, ubi', ai') ->
  volumes_sorted (ai_volumes ai') /\ In av (rb_inorder (ai_volumes ai')) /\
  av_vol_id av = vol_id.
Proof.
  intros [Hs Hu] H.
  apply add_volume_cases in H.
  destruct H as [(av' & E & Hw & -> & _) | [(obj & E & Hw & _ & Hin) | [E _]]];
    inversion E; subst.
  - pose proof (rb_walk_In av_vol_id vol_id (vol_cmp vol_id) (vol_cmp_found _)
                  _ _ Hw) as [Hin Hk].
    repeat split; assumption.
  - pose proof (rb_link_node_split av_vol_id Z.gt Zgt_trans' vol_id (vol_cmp vol_id)
                  (vol_cmp_left _) (vol_cmp_right _)
                  (new_volume obj vol_id vid_hdr) _ Hs Hw) as (l1 & l2 & E1 & E2 & F1 & F2).
    pose proof (rb_link_node_sorted av_vol_id Z.gt Zgt_trans' vol_id (vol_cmp vol_id)
                  (vol_cmp_left _) (vol_cmp_right _)
                  (new_volume obj vol_id vid_hdr) _ Hs Hw eq_refl) as [Hs' Hin'].
    unfold volumes_sorted, vol_ids. rewrite Hin.
    repeat split; try assumption.
    rewrite E2. rewrite E1 in Hu. apply Forall_app in Hu. destruct Hu as [Hu1 Hu2].
    apply Forall_app. split; [assumption|].
    constructor; [|assumption].
    unfold used_sorted, lnums. simpl. constructor.
Qed.

(** C9: on an attach info whose volume tree is in order (as every one
    built by this file is, see C8), the volume [add_volume] returns is
    the one [ubi_find_av] returns for that [vol_id] afterwards, and no
    other volume of the tree carries that [vol_id]. *)
Theorem C9_find_av_after_add_volume (ubi : ubi_device) (ai : ubi_attach_info)
    (vol_id pnum : Z) (vid_hdr : ubi_vid_hdr) (av : ubi_ainf_volume)
    (ubi' : ubi_device) (ai' : ubi_attach_info) :
  volumes_sorted (ai_volumes ai) ->
  add_volume P ubi ai vol_id pnum vid_hdr = (PTR av, ubi', ai') ->
  ubi_find_av ai' vol_id = Some av /\
  (forall av', In av' (rb_inorder (ai_volumes ai')) -> av_vol_id av' = vol_id -> av' = av).
Proof.
  intros Hs H.
  destruct (add_volume_sorted _ _ _ _ _ _ _ _ Hs H) as ([Hs' _] & Hin & Hk).
  unfold ubi_find_av. rewrite find_av_loop_walk.
  pose proof (volume_found _ _ Hs' Hin) as Hw. rewrite Hk in Hw.
  split; [exact Hw|].
  intros av' Hin' Hk'.
  pose proof (volume_found _ _ Hs' Hin') as Hw'. rewrite Hk' in Hw'.
  congruence.
Qed.

(** *** ubi_add_to_av keeps the trees in order *)

Lemma add_to_list_volumes ubi ai pnum vol_id lnum ec to_head lst err ubi' ai' :
  add_to_list P ubi ai pnum vol_id lnum ec to_head lst = (err, ubi', ai') ->
  ai_volumes ai' = ai_volumes ai.
Proof.
  unfold add_to_list, kmem_cache_alloc. intros H.
  destruct (slab_alloc P (allocs ubi)); destruct lst;
    destruct (to_head !=? 0); inversion H; reflexivity.
Qed.

(** A store through a volume pointer keeps the [vol_id]s; the tree
    stays in order when the stored volume has its LEBs in order. *)
Lemma av_store_sorted (av : ubi_ainf_volume) (ai : ubi_attach_info) :
  volumes_sorted (ai_volumes ai) -> used_sorted av ->
  volumes_sorted (ai_volumes (av_store av ai)).
Proof.
  intros [Hs Hu] Hav. unfold volumes_sorted, vol_ids, av_store. simpl.
  rewrite rb_map_inorder, map_map. split.
  - erewrite map_ext; [exact Hs|].
    intros v. simpl. destruct (Z.eqb_spec (av_vol_id v) (av_vol_id av)); congruence.
  - apply Forall_map. eapply Forall_impl; [|exact Hu].
    intros v Hv. simpl. destruct (av_vol_id v =? av_vol_id av); assumption.
Qed.

Lemma av_store_In (av0 av : ubi_ainf_volume) (ai : ubi_attach_info) :
  In av0 (rb_inorder (ai_volumes ai)) -> av_vol_id av = av_vol_id av0 ->
  In av (rb_inorder (ai_volumes (av_store av ai))).
Proof.
  intros Hin Hk. unfold av_store. simpl. rewrite rb_map_inorder.
  apply in_map_iff. exists av0. split; [|exact Hin].
  rewrite Hk, Z.eqb_refl. reflexivity.
Qed.

(** Linking a new LEB where the descent of the used tree ended. *)
Lemma used_link_sorted (av : ubi_ainf_volume) (aeb : ubi_ainf_peb) (k : Z) :
  used_sorted av ->
  rb_walk (lnum_cmp k) (av_root av) = None ->
  aeb_lnum aeb = k ->
  let root' := rb_insert_color aeb (rb_link_node (lnum_cmp k) aeb (av_root av)) in
  StronglySorted Z.lt (map aeb_lnum (rb_inorder root')) /\ In aeb (rb_inorder root').
Proof.
  intros Hs Hw Hk. cbv zeta. rewrite rb_insert_color_inorder.
  exact (rb_link_node_sorted aeb_lnum Z.lt Z.lt_trans k
           (lnum_cmp k) (lnum_cmp_left _) (lnum_cmp_right _)
           aeb _ Hs Hw Hk).
Qed.

(** Overwriting the LEB the descent found, under the same [lnum]. *)
Lemma used_assign_sorted (av : ubi_ainf_volume) (old aeb : ubi_ainf_peb) (k : Z) :
  used_sorted av ->
  rb_walk (lnum_cmp k) (av_root av) = Some old ->
  aeb_lnum aeb = k ->
  StronglySorted Z.lt
    (map aeb_lnum (rb_inorder (rb_assign (lnum_cmp k) aeb (av_root av)))).
Proof.
  intros Hs Hw Hk.
  rewrite (rb_assign_keys aeb_lnum k (lnum_cmp k) (lnum_cmp_found _) aeb _ old Hw Hk).
  exact Hs.
Qed.

Lemma ubi_add_to_av_sorted ubi ai pnum ec vid_hdr bitflips err ubi' ai' :
  volumes_sorted (ai_volumes ai) ->
  ubi_add_to_av P ubi ai pnum ec vid_hdr bitflips = (err, ubi', ai') ->
  volumes_sorted (ai_volumes ai').
Proof.
  intros Hs. unfold ubi_add_to_av.
  destruct (add_volume _ _ _ _ _ _) as [[r u] a] eqn:Ev.
  destruct r as [av | e].
  2:{ intros H. inversion H; subst.
      apply add_volume_cases in Ev.
      destruct Ev as [(? & E & _) | [(? & E & _) | [_ ->]]];
        [discriminate | discriminate | exact Hs]. }
  destruct (add_volume_sorted _ _ _ _ _ _ _ _ Hs Ev) as (Hs1 & Hin & Hk).
  assert (Hav : used_sorted av).
  { destruct Hs1 as [_ Hu]. rewrite Forall_forall in Hu. apply Hu. exact Hin. }
  set (a1 := if max_sqnum a <? vh_sqnum vid_hdr
             then set_max_sqnum (vh_sqnum vid_hdr) a else a).
  assert (Hs2 : volumes_sorted (ai_volumes a1))
    by (unfold a1; destruct (max_sqnum a <? _); exact Hs1).
  clearbody a1.
  repeat break_goal; intros H; inversion H; subst;
    repeat match goal with
      | Ha : add_to_list _ _ _ _ _ _ _ _ _ = _ |- _ =>
          apply add_to_list_volumes in Ha
      end;
    try congruence;
    (apply av_store_sorted; [unfold volumes_sorted in *; congruence|]);
    unfold used_sorted, lnums; simpl.
  - apply (used_assign_sorted av u0 _ _ Hav Heqo). reflexivity.
  - apply (used_assign_sorted av u0 _ _ Hav Heqo). reflexivity.
  - apply (used_link_sorted av _ _ Hav); [assumption | reflexivity].
  - apply (used_link_sorted av _ _ Hav); [assumption | reflexivity].
Qed.

(** ** C8: the order of the trees *)

(** The attach infos made from an empty one by calls of [add_volume]
    and [ubi_add_to_av], whatever they return. *)
Inductive attach_built : ubi_attach_info -> Prop :=
| built_empty : attach_built ai_zeroed
| built_add_volume ubi ai vol_id pnum vid_hdr r ubi' ai' :
    attach_built ai ->
    add_volume P ubi ai vol_id pnum vid_hdr = (r, ubi', ai') ->
    attach_built ai'
| built_add_to_av ubi ai pnum ec vid_hdr bitflips err ubi' ai' :
    attach_built ai ->
    ubi_add_to_av P ubi ai pnum ec vid_hdr bitflips = (err, ubi', ai') ->
    attach_built ai'.

Lemma attach_built_sorted (ai : ubi_attach_info) :
  attach_built ai -> volumes_sorted (ai_volumes ai).
Proof.
  induction 1 as [| ubi ai vol_id pnum vid_hdr r ubi' ai' _ IH H
                  | ubi ai pnum ec vid_hdr bitflips err ubi' ai' _ IH H].
  - split; constructor.
  - destruct r as [av | e].
    + exact (proj1 (add_volume_sorted _ _ _ _ _ _ _ _ IH H)).
    + apply add_volume_cases in H.
      destruct H as [(? & E & _) | [(? & E & _) | [_ ->]]];
        [discriminate | discriminate | exact IH].
  - exact (ubi_add_to_av_sorted _ _ _ _ _ _ _ _ _ IH H).
Qed.

(** C8, as the code has it: after any sequence of [add_volume] and [ubi_add_to_av]
    calls on an empty attach info, in-order traversal of the volume
    tree visits the volumes by descending [vol_id], and in-order
    traversal of each volume's used tree visits the LEBs by ascending
    [lnum]. *)
Theorem C8_trees_in_order (ai : ubi_attach_info) :
  attach_built ai ->
  StronglySorted Z.gt (map av_vol_id (rb_inorder (ai_volumes ai))) /\
  (forall av, In av (rb_inorder (ai_volumes ai)) ->
     StronglySorted Z.lt (map aeb_lnum (rb_inorder (av_root av)))).
Proof.
  intros H. apply attach_built_sorted in H. destruct H as [Hs Hu].
  split; [exact Hs|].
  rewrite Forall_forall in Hu. exact Hu.
Qed.

(** ** C2: two PEBs of one LEB with one sequence number *)

(** [ubi_add_to_av] on a PEB whose LEB the used tree already holds with
    the same sequence number. *)
Lemma ubi_add_to_av_same_sqnum ubi ai pnum ec vid_hdr bitflips av aeb :
  rb_walk (vol_cmp (to_s32 (vh_vol_id vid_hdr))) (ai_volumes ai) = Some av ->
  rb_walk (lnum_cmp (to_s32 (vh_lnum vid_hdr))) (av_root av) = Some aeb ->
  aeb_sqnum aeb = vh_sqnum vid_hdr ->
  ubi_add_to_av P ubi ai pnum ec vid_hdr bitflips =
    (- EINVAL, ubi,
     if max_sqnum ai <? vh_sqnum vid_hdr then set_max_sqnum (vh_sqnum vid_hdr) ai
     else ai).
Proof.
  intros Hv Hl Hsq. unfold ubi_add_to_av, add_volume.
  rewrite Hv, Hl, Hsq, Z.eqb_refl. simpl.
  destruct (vh_sqnum vid_hdr =? 0) eqn:E0; simpl; [|reflexivity].
  unfold ubi_compare_lebs. rewrite Hsq, Z.eqb_refl. reflexivity.
Qed.

(** After [ubi_add_to_av] admitted a PEB for a LEB the used tree did not
    hold, the descents find that PEB. *)
Lemma ubi_add_to_av_admitted ubi ai pnum ec vid_hdr bitflips ubi' ai' :
  volumes_sorted (ai_volumes ai) ->
  (forall av, rb_walk (vol_cmp (to_s32 (vh_vol_id vid_hdr))) (ai_volumes ai) = Some av ->
              rb_walk (lnum_cmp (to_s32 (vh_lnum vid_hdr))) (av_root av) = None) ->
  ubi_add_to_av P ubi ai pnum ec vid_hdr bitflips = (0, ubi', ai') ->
  exists av aeb,
    rb_walk (vol_cmp (to_s32 (vh_vol_id vid_hdr))) (ai_volumes ai') = Some av /\
    rb_walk (lnum_cmp (to_s32 (vh_lnum vid_hdr))) (av_root av) = Some aeb /\
    aeb_pnum aeb = pnum /\ aeb_sqnum aeb = vh_sqnum vid_hdr.
Proof.
  intros Hs Habs. unfold ubi_add_to_av.
  destruct (add_volume _ _ _ _ _ _) as [[r u] a] eqn:Ev.
  destruct r as [av | e].
  2:{ apply add_volume_cases in Ev.
      destruct Ev as [(? & E & _) | [(? & E & _) | [E _]]]; try discriminate.
      inversion E; subst. intros H. inversion H. }
  destruct (add_volume_sorted _ _ _ _ _ _ _ _ Hs Ev) as (Hs1 & Hin & Hk).
  assert (Hav : used_sorted av).
  { destruct Hs1 as [_ Hu]. rewrite Forall_forall in Hu. apply Hu. exact Hin. }
  assert (Hnone : rb_walk (lnum_cmp (to_s32 (vh_lnum vid_hdr))) (av_root av) = None).
  { apply add_volume_cases in Ev.
    destruct Ev as [(av' & E & Hw & _) | [(obj & E & _) | [E _]]];
      inversion E; subst; [apply Habs; exact Hw | reflexivity]. }
  rewrite Hnone.
  set (a1 := if max_sqnum a <? vh_sqnum vid_hdr
             then set_max_sqnum (vh_sqnum vid_hdr) a else a).
  assert (Hs2 : volumes_sorted (ai_volumes a1))
    by (unfold a1; destruct (max_sqnum a <? _); exact Hs1).
  assert (Hin2 : In av (rb_inorder (ai_volumes a1)))
    by (unfold a1; destruct (max_sqnum a <? _); exact Hin).
  clearbody a1.
  destruct (validate_vid_hdr vid_hdr av pnum !=? 0) eqn:Eval.
  { intros H. inversion H as [[He Hu Ha]]. rewrite He in Eval. discriminate. }
  destruct (kmem_cache_alloc P u) as [[obj|] u1]; [|intros H; inversion H].
  intros H. inversion H as [[Hu Ha]]. clear H.
  match goal with
  | |- context [av_store ?x a1] => set (av' := x)
  end.
  match goal with
  | _ := context [rb_insert_color ?x _] |- _ => set (aeb' := x) in *
  end.
  assert (Hk' : av_vol_id av' = av_vol_id av).
  { unfold av'. destruct (av_highest_lnum av <=? _); reflexivity. }
  assert (Hroot : av_root av' =
                  rb_insert_color aeb'
                    (rb_link_node (lnum_cmp (to_s32 (vh_lnum vid_hdr))) aeb' (av_root av))).
  { unfold av'. destruct (av_highest_lnum av <=? _); reflexivity. }
  destruct (used_link_sorted av aeb' _ Hav Hnone eq_refl) as [Hsr Hinr].
  rewrite <- Hroot in Hsr, Hinr.
  assert (Hs3 : volumes_sorted (ai_volumes (av_store av' a1))).
  { apply av_store_sorted; [exact Hs2 | exact Hsr]. }
  exists av', aeb'. repeat split.
  - rewrite <- Hk, <- Hk'. apply volume_found; [exact (proj1 Hs3)|].
    eapply av_store_In; eassumption.
  - exact (leb_found _ _ Hsr Hinr).
Qed.

(** A PEB with accepted EC header and valid VID header of a volume
    that is not internal, whose LEB the used tree already holds with
    the same sequence number: [scan_peb] fails with -EINVAL. *)
Lemma scan_peb_same_sqnum ubi ai pnum ech e_vid vidh av aeb :
  ec_hdr_accepted ubi pnum ech ->
  io_read_vid_hdr P (S (S (now ubi))) pnum = (e_vid, vidh) ->
  e_vid = 0 \/ e_vid = UBI_IO_BITFLIPS ->
  ~ is_internal_volume (to_s32 (vh_vol_id vidh)) ->
  rb_walk (vol_cmp (to_s32 (vh_vol_id vidh))) (ai_volumes ai) = Some av ->
  rb_walk (lnum_cmp (to_s32 (vh_lnum vidh))) (av_root av) = Some aeb ->
  aeb_sqnum aeb = vh_sqnum vidh ->
  fst (fst (scan_peb P ubi ai pnum)) = - EINVAL.
Proof.
  intros Hec Hvid He Hint Hv Hl Hsq.
  destruct (scan_peb_ec_accepted ubi ai pnum ech Hec) as (bf & _ & ->).
  unfold scan_peb_vid, ubi_io_read_vid_hdr.
  rewrite now_ubi_after_ec, Hvid.
  assert (Hvol : forall u bf',
            fst (fst (scan_peb_vol P u ai pnum (to_s64 (ech_ec ech)) vidh bf' 0))
            = - EINVAL).
  { intros u bf'.
    destruct (scan_peb_vol_dispatch u ai pnum (to_s64 (ech_ec ech)) bf' 0 vidh)
      as (_ & _ & _ & _ & Hd).
    rewrite (Hd Hint). unfold scan_peb_admit.
    rewrite (ubi_add_to_av_same_sqnum _ _ _ _ _ _ _ _ Hv Hl Hsq). reflexivity. }
  destruct He as [-> | ->]; simpl; apply Hvol.
Qed.

Lemma scan_pebs_abort ubi ai pnum n :
  fst (fst (scan_peb P ubi ai pnum)) < 0 ->
  scan_pebs P (S n) ubi ai pnum = scan_peb P ubi ai pnum.
Proof.
  simpl. destruct (scan_peb P ubi ai pnum) as [[e u] a]. simpl. intros H.
  apply Z.ltb_lt in H. rewrite H. reflexivity.
Qed.

Lemma scan_all_abort ubi ai start :
  kmalloc_ok P (allocs ubi) = true ->
  kmalloc_ok P (S (allocs ubi)) = true ->
  start < peb_count ubi ->
  fst (fst (scan_peb P (alloc_done (alloc_done ubi)) ai start)) < 0 ->
  scan_all P ubi ai start = scan_peb P (alloc_done (alloc_done ubi)) ai start.
Proof.
  intros H1 H2 Hlt Hneg. unfold scan_all, ubi_zalloc_vid_hdr, kzalloc.
  rewrite H1.
  replace (allocs (alloc_done ubi)) with (S (allocs ubi)) by (destruct ubi; reflexivity).
  rewrite H2.
  replace (peb_count (alloc_done (alloc_done ubi))) with (peb_count ubi)
    by (destruct ubi; reflexivity).
  destruct (Z.to_nat (peb_count ubi - start)) as [|n] eqn:En; [lia|].
  rewrite (scan_pebs_abort _ _ _ n Hneg).
  destruct (scan_peb _ _ _ _) as [[e u] a]. simpl in Hneg.
  apply Z.ltb_lt in Hneg. rewrite Hneg. reflexivity.
Qed.

(** C2: a PEB is compared with the PEB that holds its LEB in the used
    tree at that moment, not with every PEB seen before.  When that
    holder has the sequence number of the PEB, [ubi_add_to_av] fails
    with -EINVAL - by its own test when the number is not zero, by
    [ubi_compare_lebs] returning -EINVAL when it is zero - and the scan
    aborts with that error; this is so in particular for a second PEB
    after a first was admitted for the LEB.  A PEB with sequence number
    zero whose LEB the tree does not hold is admitted. *)
Theorem C2_same_sqnum_refused :
  (forall ubi ai pnum ec vid_hdr bitflips av aeb,
     rb_walk (vol_cmp (to_s32 (vh_vol_id vid_hdr))) (ai_volumes ai) = Some av ->
     rb_walk (lnum_cmp (to_s32 (vh_lnum vid_hdr))) (av_root av) = Some aeb ->
     aeb_sqnum aeb = vh_sqnum vid_hdr ->
     fst (fst (ubi_add_to_av P ubi ai pnum ec vid_hdr bitflips)) = - EINVAL /\
     (vh_sqnum vid_hdr = 0 ->
      ubi_compare_lebs P ubi aeb pnum vid_hdr = (- EINVAL, ubi))) /\
  (forall ubi ai pnum ec vid_hdr bitflips ubi1 ai1,
     volumes_sorted (ai_volumes ai) ->
     (forall av,
        rb_walk (vol_cmp (to_s32 (vh_vol_id vid_hdr))) (ai_volumes ai) = Some av ->
        rb_walk (lnum_cmp (to_s32 (vh_lnum vid_hdr))) (av_root av) = None) ->
     ubi_add_to_av P ubi ai pnum ec vid_hdr bitflips = (0, ubi1, ai1) ->
     forall ubi2 pnum2 ec2 vid_hdr2 bitflips2,
       to_s32 (vh_vol_id vid_hdr2) = to_s32 (vh_vol_id vid_hdr) ->
       to_s32 (vh_lnum vid_hdr2) = to_s32 (vh_lnum vid_hdr) ->
       vh_sqnum vid_hdr2 = vh_sqnum vid_hdr ->
       fst (fst (ubi_add_to_av P ubi2 ai1 pnum2 ec2 vid_hdr2 bitflips2)) = - EINVAL) /\
  (forall ubi ai pnum ech e_vid vidh av aeb,
     ec_hdr_accepted ubi pnum ech ->
     io_read_vid_hdr P (S (S (now ubi))) pnum = (e_vid, vidh) ->
     e_vid = 0 \/ e_vid = UBI_IO_BITFLIPS ->
     ~ is_internal_volume (to_s32 (vh_vol_id vidh)) ->
     rb_walk (vol_cmp (to_s32 (vh_vol_id vidh))) (ai_volumes ai) = Some av ->
     rb_walk (lnum_cmp (to_s32 (vh_lnum vidh))) (av_root av) = Some aeb ->
     aeb_sqnum aeb = vh_sqnum vidh ->
     fst (fst (scan_peb P ubi ai pnum)) = - EINVAL /\
     (kmalloc_ok P (allocs ubi) = true -> kmalloc_ok P (S (allocs ubi)) = true ->
      pnum < peb_count ubi ->
      fst (fst (scan_all P ubi ai pnum)) = - EINVAL)) /\
  (forall ubi ai pnum ec vid_hdr bitflips av obj,
     vh_sqnum vid_hdr = 0 ->
     rb_walk (vol_cmp (to_s32 (vh_vol_id vid_hdr))) (ai_volumes ai) = Some av ->
     rb_walk (lnum_cmp (to_s32 (vh_lnum vid_hdr))) (av_root av) = None ->
     validate_vid_hdr vid_hdr av pnum = 0 ->
     slab_alloc P (allocs ubi) = Some obj ->
     fst (fst (ubi_add_to_av P ubi ai pnum ec vid_hdr bitflips)) = 0).
Proof.
  split; [|split; [|split]].
  - intros ubi ai pnum ec vid_hdr bitflips av aeb Hv Hl Hsq. split.
    + rewrite (ubi_add_to_av_same_sqnum _ _ _ _ _ _ _ _ Hv Hl Hsq). reflexivity.
    + intros _. unfold ubi_compare_lebs. rewrite Hsq, Z.eqb_refl. reflexivity.
  - intros ubi ai pnum ec vid_hdr bitflips ubi1 ai1 Hs Habs H
           ubi2 pnum2 ec2 vid_hdr2 bitflips2 Ev El Esq.
    destruct (ubi_add_to_av_admitted _ _ _ _ _ _ _ _ Hs Habs H)
      as (av & aeb & Hv & Hl & _ & Hsq).
    rewrite <- Ev in Hv. rewrite <- El in Hl. rewrite <- Esq in Hsq.
    rewrite (ubi_add_to_av_same_sqnum _ _ _ _ _ _ _ _ Hv Hl Hsq). reflexivity.
  - intros ubi ai pnum ech e_vid vidh av aeb Hec Hvid He Hint Hv Hl Hsq.
    split.
    + eapply scan_peb_same_sqnum; eassumption.
    + intros H1 H2 Hlt.
      assert (Hneg : fst (fst (scan_peb P (alloc_done (alloc_done ubi)) ai pnum))
                     = - EINVAL).
      { eapply scan_peb_same_sqnum; eassumption. }
      rewrite scan_all_abort; try assumption.
      rewrite Hneg. unfold EINVAL. lia.
  - intros ubi ai pnum ec vid_hdr bitflips av obj Hsq Hv Hl Hval Hslab.
    unfold ubi_add_to_av, add_volume. rewrite Hv, Hl, Hval. simpl.
    unfold kmem_cache_alloc. rewrite Hslab. reflexivity.
Qed.

End Claims.

(** * The claims on concrete flash images *)

(** Decides a closed comparison or equation of integers. *)
Ltac zdecide :=
  vm_compute;
  first [ reflexivity
        | let H := fresh in intro H; discriminate H ].

(** ** C1: the wear-levelling copy cut short by a power cut *)

(** PEB 0 holds LEB 0:0 with sequence number 200; PEB 1 is a copy of it
    with sequence number 201 whose data does not match its CRC. *)
Definition vid_s3_a : ubi_vid_hdr := vid_of 0 0 200 0 0 0.
Definition vid_s3_b : ubi_vid_hdr := vid_of 0 0 201 1 4 77.
Definition pebs_s3 : list peb_image :=
  [peb_used 10 vid_s3_a [1; 2; 3; 4]; peb_used 10 vid_s3_b [1; 2; 3; 4]].
Definition aeb_s3_a : ubi_ainf_peb := mk_aeb 10 0 0 0 false false 200.

Definition ubi_s3_read : ubi_device :=
  snd (@ubi_io_read_data (platform_of false pebs_s3) (ubi_of 2) 1 0 4).

(** C1 on scenario S3: the copy in PEB 1 fails its CRC, the result is 4. *)
Lemma C1_witness :
  vh_sqnum vid_s3_b <> aeb_sqnum aeb_s3_a /\
  @ubi_compare_lebs (platform_of false pebs_s3) (ubi_of 2) aeb_s3_a 1 vid_s3_b
    = (4, ubi_s3_read).
Proof.
  assert (Hne : vh_sqnum vid_s3_b <> aeb_sqnum aeb_s3_a) by zdecide.
  split; [exact Hne|].
  destruct (C1_ubi_compare_lebs (platform_of false pebs_s3) (ubi_of 2)
              aeb_s3_a 1 vid_s3_b Hne) as (_ & Hsecond & _).
  refine (proj1 (Hsecond eq_refl _ 0 ubi_s3_read eq_refl _ _)).
  - zdecide.
  - left. reflexivity.
  - unfold crc_mismatch. zdecide.
Defined.

(** ** C2: the second PEB of a LEB with the sequence number of the first *)

Definition vid_s6 : ubi_vid_hdr := vid_of 0 3 7 0 0 0.
Definition pebs_s6 : list peb_image :=
  [peb_used 1 vid_s6 []; peb_used 1 vid_s6 []].

(** The attach info after PEB 0 was admitted. *)
Definition ai_s6 : ubi_attach_info :=
  snd (@ubi_add_to_av rb_rotating (platform_of false pebs_s6) (ubi_of 2)
         ai_zeroed 0 1 vid_s6 0).

(** C2 on scenario S6: PEB 1 repeats LEB 0:3 with the sequence number of PEB 0. *)
Lemma C2_witness :
  fst (fst (@ubi_add_to_av rb_rotating (platform_of false pebs_s6) (ubi_of 2)
              ai_s6 1 1 vid_s6 0)) = - EINVAL.
Proof.
  assert (Hfirst : @ubi_add_to_av rb_rotating (platform_of false pebs_s6) (ubi_of 2)
                     ai_zeroed 0 1 vid_s6 0
                   = (0, alloc_done (alloc_done (ubi_of 2)), ai_s6))
    by (vm_compute; reflexivity).
  assert (Hsorted : volumes_sorted (ai_volumes ai_zeroed))
    by (split; constructor).
  assert (Habsent : forall av,
            rb_walk (vol_cmp (to_s32 (vh_vol_id vid_s6))) (ai_volumes ai_zeroed) = Some av ->
            rb_walk (lnum_cmp (to_s32 (vh_lnum vid_s6))) (av_root av) = None)
    by (intros av H; discriminate H).
  destruct (@C2_same_sqnum_refused rb_rotating (platform_of false pebs_s6))
    as (_ & Htwo & _).
  exact (Htwo (ubi_of 2) ai_zeroed 0 1 vid_s6 0 _ _ Hsorted Habsent Hfirst
           (ubi_of 2) 1 1 vid_s6 0 eq_refl eq_refl eq_refl).
Defined.

(** Three PEBs of LEB 0:3, with the sequence numbers 5, 7 and 5. *)
Definition pebs_575 : list peb_image :=
  [peb_used 1 (vid_of 0 3 5 0 0 0) []; peb_used 1 (vid_of 0 3 7 0 0 0) [];
   peb_used 1 (vid_of 0 3 5 0 0 0) []].

(** C2, counterexample: PEB 0 and PEB 2 claim the same LEB with the same
    sequence number 5, and the attach does not abort: PEB 1, which is
    newer, took the place of PEB 0 in the used tree, PEB 2 is compared
    with PEB 1 only, found older, and sent to the erase list after PEB
    0; [scan_all] returns 0. *)
Lemma C2_counterexample :
  vh_sqnum (snd (pi_vid (peb_at pebs_575 0))) = 5 /\
  vh_sqnum (snd (pi_vid (peb_at pebs_575 2))) = 5 /\
  vh_vol_id (snd (pi_vid (peb_at pebs_575 0))) =
    vh_vol_id (snd (pi_vid (peb_at pebs_575 2))) /\
  vh_lnum (snd (pi_vid (peb_at pebs_575 0))) =
    vh_lnum (snd (pi_vid (peb_at pebs_575 2))) /\
  fst (fst (@scan_all rb_rotating (platform_of false pebs_575) (ubi_of 3) ai_zeroed 0))
    = 0 /\
  map aeb_pnum
    (ai_erase
       (snd (@scan_all rb_rotating (platform_of false pebs_575) (ubi_of 3) ai_zeroed 0)))
    = [0; 2] /\
  map (fun av => map aeb_pnum (rb_inorder (av_root av)))
    (rb_inorder
       (ai_volumes
          (snd (@scan_all rb_rotating (platform_of false pebs_575) (ubi_of 3)
                  ai_zeroed 0))))
    = [[1]].
Proof. vm_compute. repeat split; reflexivity. Qed.

(** Scenario S6 as a whole: the scan of the two PEBs aborts with -EINVAL. *)
Example scan_all_s6 :
  fst (fst (@scan_all rb_rotating (platform_of false pebs_s6) (ubi_of 2) ai_zeroed 0))
  = - EINVAL.
Proof. vm_compute. reflexivity. Qed.

(** ** C4, C10: an alien PEB with a corrupted EC header *)

(** PEB 0 holds a LEB of volume 0 with erase counter 50; PEB 1 has a
    corrupted EC header and belongs to an internal volume that is to be
    preserved; PEB 2 is empty. *)
Definition vid_alien : ubi_vid_hdr :=
  mk_vid_hdr UBI_VID_DYNAMIC 0 UBI_COMPAT_PRESERVE (UBI_INTERNAL_VOL_START + 5)
    0 0 0 0 0 9.
Definition pebs_alien : list peb_image :=
  [peb_used 50 (vid_of 0 0 8 0 0 0) [];
   mk_peb_image 0 (UBI_IO_BAD_HDR, ec_hdr0) (0, vid_alien) (0, []);
   peb_image0].

Abbreviation scan_alien :=
  (@scan_all rb_rotating (platform_of false pebs_alien) (ubi_of 3) ai_zeroed 0).

(** C4, counterexample: the scan succeeds with [mean_ec] 50, the empty
    PEB on the erase list got it, and the PebInfo on the alien list
    still has the unknown erase counter. *)
Lemma C4_counterexample :
  fst (fst scan_alien) = 0 /\
  mean_ec (snd scan_alien) = 50 /\
  map aeb_ec (ai_erase (snd scan_alien)) = [50] /\
  map aeb_ec (ai_alien (snd scan_alien)) = [UBI_UNKNOWN].
Proof. vm_compute. repeat split; reflexivity. Qed.

(** PEB 0 holds LEB 0:0 with erase counter 50; PEB 1 holds LEB 0:1 and
    its EC header is corrupted.  The device has the self-check on. *)
Definition pebs_ec_lost : list peb_image :=
  [peb_used 50 (vid_of 0 0 8 0 0 0) [];
   mk_peb_image 0 (UBI_IO_BAD_HDR, ec_hdr0) (0, vid_of 0 1 9 0 0 0) (0, [])].

Abbreviation scan_ec_lost :=
  (@scan_all rb_rotating (platform_of false pebs_ec_lost) (ubi_chk 2) ai_zeroed 0).
Abbreviation scan_pebs_ec_lost :=
  (@scan_pebs rb_rotating (platform_of false pebs_ec_lost)
     (Z.to_nat (peb_count (ubi_chk 2) - 0)) (alloc_done (alloc_done (ubi_chk 2)))
     ai_zeroed 0).
Abbreviation late_ec_lost :=
  (late_analysis (platform_of false pebs_ec_lost) (snd (fst scan_pebs_ec_lost))
     (if ec_count (snd scan_pebs_ec_lost) !=? 0
      then set_mean_ec
             (to_s32 (to_u64 (ec_sum (snd scan_pebs_ec_lost)) /
                      to_u32 (ec_count (snd scan_pebs_ec_lost))))
             (snd scan_pebs_ec_lost)
      else snd scan_pebs_ec_lost)).

(** The erase counters of the LEBs of each volume. *)
Definition used_ecs (ai : ubi_attach_info) : list (list Z) :=
  map (fun av => map aeb_ec (rb_inorder (av_root av))) (rb_inorder (ai_volumes ai)).

Abbreviation filled_ec_lost := (fill_unknown_ec (snd late_ec_lost)).

(** C4 on this image: the scan leaves PEB 1 in the used tree with an
    unknown erase counter, which [self_check_ai] would refuse;
    [scan_all] fills it in with the mean 50 before the self-check, and
    returns 0. *)
Lemma C4_witness :
  scan_ec_lost =
    (0,
     snd (self_check_ai (platform_of false pebs_ec_lost) (snd (fst late_ec_lost))
            filled_ec_lost),
     filled_ec_lost) /\
  used_ecs (snd scan_pebs_ec_lost) = [[50; UBI_UNKNOWN]] /\
  fst (self_check_ai (platform_of false pebs_ec_lost) (snd (fst late_ec_lost))
         (snd late_ec_lost)) = - EINVAL /\
  used_ecs filled_ec_lost = [[50; 50]] /\
  (forall aeb,
     In aeb (ai_free filled_ec_lost ++ ai_corr filled_ec_lost
             ++ ai_erase filled_ec_lost) \/
     (exists av, In av (rb_inorder (ai_volumes filled_ec_lost)) /\
                 In aeb (rb_inorder (av_root av))) ->
     aeb_ec aeb = UBI_UNKNOWN -> mean_ec filled_ec_lost = UBI_UNKNOWN).
Proof.
  destruct (@C4_fill_unknown_ec rb_rotating (platform_of false pebs_ec_lost)
              (ubi_chk 2) ai_zeroed 0) as [Hfwd Hbwd].
  assert (Hs : scan_pebs_ec_lost =
               (0, snd (fst scan_pebs_ec_lost), snd scan_pebs_ec_lost))
    by (vm_compute; reflexivity).
  assert (Hl : late_ec_lost = (0, snd (fst late_ec_lost), snd late_ec_lost))
    by (vm_compute; reflexivity).
  assert (Hc : self_check_ai (platform_of false pebs_ec_lost) (snd (fst late_ec_lost))
                 filled_ec_lost =
               (0, snd (self_check_ai (platform_of false pebs_ec_lost)
                          (snd (fst late_ec_lost)) filled_ec_lost)))
    by (vm_compute; reflexivity).
  assert (Hm1 : kmalloc_ok (platform_of false pebs_ec_lost) (allocs (ubi_chk 2)) = true)
    by reflexivity.
  assert (Hm2 : kmalloc_ok (platform_of false pebs_ec_lost) (S (allocs (ubi_chk 2))) = true)
    by reflexivity.
  pose proof (Hbwd _ _ _ _ _ Hm1 Hm2 Hs Hl Hc) as E.
  destruct (Hfwd _ _ E) as (u1 & a1 & u2 & a2 & _ & _ & _ & _ & _ & _ & _ & _ & _ & _ & Hall).
  assert (H1 : used_ecs (snd scan_pebs_ec_lost) = [[50; UBI_UNKNOWN]])
    by (vm_compute; reflexivity).
  assert (H2 : fst (self_check_ai (platform_of false pebs_ec_lost)
                      (snd (fst late_ec_lost)) (snd late_ec_lost)) = - EINVAL)
    by (vm_compute; reflexivity).
  assert (H3 : used_ecs filled_ec_lost = [[50; 50]])
    by (vm_compute; reflexivity).
  split; [exact E|].
  split; [exact H1|]. split; [exact H2|]. split; [exact H3 | exact Hall].
Defined.

(** C10 on this image: one alien PEB, counted once. *)
Lemma C10_witness :
  alien_peb_count (snd scan_alien) = Z.of_nat (length (ai_alien (snd scan_alien))) /\
  length (ai_alien (snd scan_alien)) = 1%nat.
Proof.
  split; [|vm_compute; reflexivity].
  assert (H0 : fst (fst scan_alien) = 0) by (vm_compute; reflexivity).
  revert H0. destruct scan_alien as [[e ubi'] ai'] eqn:E. simpl. intros ->.
  refine (proj2 (proj2 (@C10_alien_peb_count rb_rotating (platform_of false pebs_alien)))
            (ubi_of 3) ai_zeroed 0 ubi' ai' eq_refl _ E).
  zdecide.
Defined.

(** The platform of this image with memory for [n] allocations only. *)
Definition platform_short (n : nat) (pebs : list peb_image) : ubi_platform :=
  {| CONFIG_MTD_UBI_LOWPAGE_BACKUP := false;
     io_is_bad := fun _ pnum => pi_bad (peb_at pebs pnum);
     io_read_ec_hdr := fun _ pnum => pi_ec (peb_at pebs pnum);
     io_read_vid_hdr := fun _ pnum => pi_vid (peb_at pebs pnum);
     io_read := fun _ pnum _ _ => pi_data (peb_at pebs pnum);
     slab_alloc := fun t => if (t <? n)%nat then Some aeb0 else None;
     kmalloc_av := fun _ => Some av0;
     kmalloc_ok := fun _ => true;
     random_bytes := fun _ => 0x5eed |}.

(** C10, counterexample: the scan of this image with memory for four
    allocations - the two scratch VID headers, the volume and the
    PebInfo of PEB 0 - fails at the alien PEB 1 with -ENOMEM; by then
    [alien_peb_count] is 1 and the alien list is still empty. *)
Lemma C10_counterexample :
  fst (fst (@scan_all rb_rotating (platform_short 4 pebs_alien) (ubi_of 3) ai_zeroed 0))
    = - ENOMEM /\
  alien_peb_count
    (snd (@scan_all rb_rotating (platform_short 4 pebs_alien) (ubi_of 3) ai_zeroed 0))
    = 1 /\
  ai_alien
    (snd (@scan_all rb_rotating (platform_short 4 pebs_alien) (ubi_of 3) ai_zeroed 0))
    = [].
Proof. vm_compute. repeat split; reflexivity. Qed.

(** ** C5: a corrupted VID header over data that is not all 0xFF *)

(** Scenario S4: a good EC header, a VID header with a bad CRC, and
    0xAB bytes in the data area. *)
Definition ech_s4 : ubi_ec_hdr := mk_ec_hdr UBI_VERSION 5 0.
Definition pebs_s4 : list peb_image :=
  [mk_peb_image 0 (0, ech_s4) (UBI_IO_BAD_HDR, vid_hdr0) (0, [0xAB; 0xAB; 0xAB; 0xAB])].

(** C5 on scenario S4: the PEB is preserved on the corr list and counted. *)
Lemma C5_witness :
  fst (fst (@scan_peb rb_rotating (platform_of false pebs_s4) (ubi_of 1) ai_zeroed 0)) = 0 /\
  ai_corr (snd (@scan_peb rb_rotating (platform_of false pebs_s4) (ubi_of 1) ai_zeroed 0))
    = [set_aeb_ec 5 (set_aeb_pnum 0 aeb0)] /\
  corr_peb_count
    (snd (@scan_peb rb_rotating (platform_of false pebs_s4) (ubi_of 1) ai_zeroed 0)) = 1.
Proof.
  assert (Hec : ec_hdr_accepted (platform_of false pebs_s4) (ubi_of 1) 0 ech_s4).
  { split; [reflexivity|]. split; [left; reflexivity|]. split; [reflexivity|].
    split; [zdecide | left; reflexivity]. }
  assert (Hrange : - 2 ^ 31 <= corr_peb_count ai_zeroed < INT_MAX)
    by (split; zdecide).
  destruct (@C5_scan_peb_vid_corrupted rb_rotating (platform_of false pebs_s4)
              (ubi_of 1) ai_zeroed 0 UBI_IO_BAD_HDR 0 ech_s4 vid_hdr0
              [0xAB; 0xAB; 0xAB; 0xAB] aeb0 Hec eq_refl (or_introl eq_refl) eq_refl
              (or_introl eq_refl) eq_refl Hrange)
    as (_ & Hcorr & _).
  assert (Hdata : 0 = 0 /\
    ~ all_ff (data_area
                (ubi_after_data
                   (io_done (IO_READ_VID_HDR 0)
                      (ubi_after_ec (ubi_of 1) 0 ech_s4))
                   0 [0xAB; 0xAB; 0xAB; 0xAB]))).
  { split; [reflexivity|]. intros H. vm_compute in H.
    inversion H as [|x l Hx _]. discriminate Hx. }
  destruct (Hcorr Hdata) as (H1 & H2 & H3 & _).
  split; [exact H1|]. split; [exact H2 | exact H3].
Defined.

(** ** C6: the dispatch on [compat] *)


(** The identifiers between the two ranges are the one place where the
    test of [scan_peb], [vol_id > UBI_MAX_VOLUMES], and a test for
    [vol_id >= UBI_MAX_VOLUMES] part.  A VID header of volume
    UBI_MAX_VOLUMES that asks to be rejected: *)
Definition vid_128 : ubi_vid_hdr :=
  mk_vid_hdr UBI_VID_DYNAMIC 0 UBI_COMPAT_REJECT UBI_MAX_VOLUMES 0 0 0 0 0 1.

(** The identifier is outside the namespace, so no such header is read
    as valid; [scan_peb_vol] by itself would not look at its [compat]. *)
Remark vid_128_outside :
  ~ vol_id_in_namespace (to_s32 (vh_vol_id vid_128)) /\
  ~ is_internal_volume (to_s32 (vh_vol_id vid_128)).
Proof.
  split.
  - intros [H | H]; vm_compute in H; [discriminate H | apply H; reflexivity].
  - intros [H _]. vm_compute in H. discriminate H.
Qed.

(** ** C7: an EC header that reads as erased with bit-flips *)

Definition pebs_ff_bitflips : list peb_image :=
  [mk_peb_image 0 (UBI_IO_FF_BITFLIPS, ec_hdr0) (UBI_IO_FF, vid_hdr0) (0, [])].

(** An attach info with PEB 7 waiting on the erase list. *)
Definition ai_erase7 : ubi_attach_info :=
  set_ai_erase [set_aeb_pnum 7 aeb0] ai_zeroed.

(** C7, counterexample: the EC header of PEB 0 reads as FF_BITFLIPS and
    the erase list holds PEB 7; after [scan_peb] PEB 0 is the first of
    the erase list and PEB 7 the last: PEB 0 was not put at the tail. *)
Lemma C7_counterexample :
  fst (io_read_ec_hdr (platform_of false pebs_ff_bitflips) 1 0) = UBI_IO_FF_BITFLIPS /\
  fst (fst (@scan_peb rb_rotating (platform_of false pebs_ff_bitflips) (ubi_of 1)
              ai_erase7 0)) = 0 /\
  map aeb_pnum
    (ai_erase (snd (@scan_peb rb_rotating (platform_of false pebs_ff_bitflips) (ubi_of 1)
                      ai_erase7 0))) = [0; 7] /\
  ai_erase (snd (@scan_peb rb_rotating (platform_of false pebs_ff_bitflips) (ubi_of 1)
                   ai_erase7 0))
  <> ai_erase ai_erase7 ++ [new_aeb aeb0 0 UBI_UNKNOWN UBI_UNKNOWN UBI_UNKNOWN].
Proof.
  repeat split; try zdecide.
Qed.

(** C7 on this image: the PebInfo of PEB 0 is put before that of PEB 7. *)
Lemma C7_witness :
  @scan_peb rb_rotating (platform_of false pebs_ff_bitflips) (ubi_of 1) ai_erase7 0 =
    (0,
     alloc_done (io_done (IO_READ_EC_HDR 0) (io_done (IO_IS_BAD 0) (ubi_of 1))),
     set_ai_erase
       [new_aeb aeb0 0 UBI_UNKNOWN UBI_UNKNOWN UBI_UNKNOWN; set_aeb_pnum 7 aeb0]
       (set_empty_peb_count 1 ai_erase7)).
Proof.
  assert (Hrange : - 2 ^ 31 <= empty_peb_count ai_erase7 < INT_MAX)
    by (split; zdecide).
  exact (proj1 (@C7_scan_peb_empty rb_rotating (platform_of false pebs_ff_bitflips)
                  (ubi_of 1) ai_erase7 0 UBI_IO_FF_BITFLIPS ec_hdr0 aeb0
                  eq_refl eq_refl (or_intror eq_refl) eq_refl Hrange)).
Defined.

(** ** C8, C9: two volumes *)

(** Volume 0 is added first, then volume 1. *)
Definition ai_vol0 : ubi_attach_info :=
  snd (@add_volume rb_rotating (platform_of false []) (ubi_of 1) ai_zeroed 0 0
         (vid_of 0 0 1 0 0 0)).
Definition ai_vol01 : ubi_attach_info :=
  snd (@add_volume rb_rotating (platform_of false []) (ubi_of 1) ai_vol0 1 1
         (vid_of 1 0 2 0 0 0)).

(** C8, counterexample: in-order traversal of the volume tree visits
    volume 1 before volume 0. *)
Lemma C8_counterexample :
  map av_vol_id (rb_inorder (ai_volumes ai_vol01)) = [1; 0] /\
  ~ StronglySorted Z.lt (map av_vol_id (rb_inorder (ai_volumes ai_vol01))).
Proof.
  split; [vm_compute; reflexivity|].
  intros H. vm_compute in H.
  inversion H as [|a l _ Hall]. inversion Hall as [|b l' Hlt _].
  discriminate Hlt.
Qed.

Lemma attach_built_vol01 : @attach_built rb_rotating (platform_of false []) ai_vol01.
Proof.
  eapply (@built_add_volume rb_rotating (platform_of false []) (ubi_of 1) ai_vol0 1 1
            (vid_of 1 0 2 0 0 0) (PTR (new_volume av0 1 (vid_of 1 0 2 0 0 0)))
            (alloc_done (ubi_of 1))).
  - eapply (@built_add_volume rb_rotating (platform_of false []) (ubi_of 1) ai_zeroed 0 0
              (vid_of 0 0 1 0 0 0) (PTR (new_volume av0 0 (vid_of 0 0 1 0 0 0)))
              (alloc_done (ubi_of 1))).
    + apply built_empty.
    + vm_compute. reflexivity.
  - vm_compute. reflexivity.
Defined.

(** C8 on the two volumes: descending [vol_id], ascending [lnum]. *)
Lemma C8_witness :
  StronglySorted Z.gt (map av_vol_id (rb_inorder (ai_volumes ai_vol01))) /\
  (forall av, In av (rb_inorder (ai_volumes ai_vol01)) ->
     StronglySorted Z.lt (map aeb_lnum (rb_inorder (av_root av)))).
Proof.
  exact (@C8_trees_in_order rb_rotating (platform_of false []) ai_vol01
           attach_built_vol01).
Defined.

(** C9 on the two volumes: volume 1 is found after it was added. *)
Lemma C9_witness :
  @ubi_find_av ai_vol01 1 = Some (new_volume av0 1 (vid_of 1 0 2 0 0 0)).
Proof.
  assert (Hs : volumes_sorted (ai_volumes ai_vol0)).
  { apply (@attach_built_sorted rb_rotating (platform_of false [])).
    eapply (@built_add_volume rb_rotating (platform_of false []) (ubi_of 1) ai_zeroed 0 0
              (vid_of 0 0 1 0 0 0) (PTR (new_volume av0 0 (vid_of 0 0 1 0 0 0)))
              (alloc_done (ubi_of 1))).
    - apply built_empty.
    - vm_compute. reflexivity. }
  assert (Hadd : @add_volume rb_rotating (platform_of false []) (ubi_of 1) ai_vol0 1 1
                   (vid_of 1 0 2 0 0 0)
                 = (PTR (new_volume av0 1 (vid_of 1 0 2 0 0 0)),
                    alloc_done (ubi_of 1), ai_vol01))
    by (vm_compute; reflexivity).
  exact (proj1 (@C9_find_av_after_add_volume rb_rotating (platform_of false [])
                  (ubi_of 1) ai_vol0 1 1 (vid_of 1 0 2 0 0 0) _ _ _ Hs Hadd)).
Defined.

(** ** The alien counter when the slab is exhausted *)

(** [add_to_list] counts the alien PEB before it allocates: when the
    allocation fails it returns -ENOMEM with the counter one ahead of
    the list (and the scan is given up). *)
Remark add_to_list_alien_enomem (P : ubi_platform) (ubi : ubi_device)
    (ai : ubi_attach_info) (pnum vol_id lnum ec to_head : Z) :
  slab_alloc P (allocs ubi) = None ->
  add_to_list P ubi ai pnum vol_id lnum ec to_head LIST_ALIEN =
    (- ENOMEM, alloc_done ubi,
     set_alien_peb_count (to_s32 (alien_peb_count ai + 1)) ai).
Proof.
  intros H. unfold add_to_list, kmem_cache_alloc. rewrite H. reflexivity.
Qed.

(** * Further properties of the attach code

    More of what the functions modelled above do - lookups, the
    book-keeping of the trees and counters, the accounting of the PEBs,
    the self-check - and three more parts of [attach.c]:
    [ubi_early_get_peb] with [early_erase_peb], [ubi_remove_av], and
    [ubi_backup_search_empty] with [check_pattern]. *)

From Stdlib Require Import Permutation.

Ltac break_match :=
  match goal with
  | |- context [match ?x with _ => _ end] => destruct x eqn:?
  end.

(** The integer tests that failed, as hypotheses. *)
Ltac zb_hyps :=
  repeat match goal with
    | H : (_ || _) = false |- _ => apply orb_false_iff in H; destruct H
    | H : negb _ = false |- _ => apply negb_false_iff in H
    | H : (_ <? _) = false |- _ => apply Z.ltb_ge in H
    | H : (_ >? _) = false |- _ => rewrite Z.gtb_ltb in H
    | H : (_ >=? _) = false |- _ => rewrite Z.geb_leb in H
    | H : (_ <=? _) = false |- _ => apply Z.leb_gt in H
    | H : (_ =? _) = true |- _ => apply Z.eqb_eq in H
    | H : (_ =? _) = false |- _ => apply Z.eqb_neq in H
    end.

(** ** Linking a node *)

Lemma rb_link_node_elems {A} (cmp : A -> rb_step) (node : A) (t : rb_root A) :
  rb_walk cmp t = None ->
  exists l1 l2, rb_inorder t = l1 ++ l2 /\
                rb_inorder (rb_link_node cmp node t) = l1 ++ node :: l2.
Proof.
  induction t as [|c l IHl x r IHr]; simpl.
  - intros _. exists [], []. split; reflexivity.
  - destruct (cmp x); intros Hw; [| |discriminate]; simpl.
    + destruct (IHl Hw) as (l1 & l2 & E1 & E2).
      exists l1, (l2 ++ x :: rb_inorder r). rewrite E1, E2, <- !app_assoc.
      split; reflexivity.
    + destruct (IHr Hw) as (l1 & l2 & E1 & E2).
      exists (rb_inorder l ++ x :: l1), l2. rewrite E1, E2, <- !app_assoc.
      split; reflexivity.
Qed.

Lemma rb_link_node_length {A} (cmp : A -> rb_step) (node : A) (t : rb_root A) :
  rb_walk cmp t = None ->
  length (rb_inorder (rb_link_node cmp node t)) = S (length (rb_inorder t)).
Proof.
  intros Hw. destruct (rb_link_node_elems cmp node t Hw) as (l1 & l2 & E1 & E2).
  rewrite E1, E2, !length_app. simpl. lia.
Qed.

Section Lookup.

Context {RB : RbTreeLib}.
Variable P : ubi_platform.

(** ** ubi_find_av *)

Lemma find_av_some (ai : ubi_attach_info) (vol_id : Z) (av : ubi_ainf_volume) :
  StronglySorted Z.gt (vol_ids (ai_volumes ai)) ->
  ubi_find_av ai vol_id = Some av <->
  In av (rb_inorder (ai_volumes ai)) /\ av_vol_id av = vol_id.
Proof.
  intros Hs. unfold ubi_find_av. rewrite find_av_loop_walk. split.
  - apply (rb_walk_In av_vol_id vol_id (vol_cmp vol_id) (vol_cmp_found _)).
  - intros [Hin Hk]. rewrite <- Hk. apply volume_found; assumption.
Qed.

Lemma find_av_none (ai : ubi_attach_info) (vol_id : Z) :
  StronglySorted Z.gt (vol_ids (ai_volumes ai)) ->
  ubi_find_av ai vol_id = None <->
  forall av, In av (rb_inorder (ai_volumes ai)) -> av_vol_id av <> vol_id.
Proof.
  intros Hs. split.
  - intros Hnone av Hin Hk.
    assert (Hsome : ubi_find_av ai vol_id = Some av)
      by (apply find_av_some; [exact Hs | split; assumption]).
    congruence.
  - intros Hall.
    destruct (ubi_find_av ai vol_id) as [av|] eqn:E; [|reflexivity].
    apply find_av_some in E; [|exact Hs].
    destruct E as [Hin Hk]. elim (Hall av Hin Hk).
Qed.

(** X1: on a volume tree in order, [ubi_find_av] returns a volume
    exactly when it is the volume of the tree with that [vol_id], and
    NULL exactly when the tree has no volume with that [vol_id]. *)
Theorem find_av_lookup (ai : ubi_attach_info) (vol_id : Z) :
  StronglySorted Z.gt (vol_ids (ai_volumes ai)) ->
  (forall av,
     ubi_find_av ai vol_id = Some av <->
     In av (rb_inorder (ai_volumes ai)) /\ av_vol_id av = vol_id) /\
  (ubi_find_av ai vol_id = None <->
   forall av, In av (rb_inorder (ai_volumes ai)) -> av_vol_id av <> vol_id).
Proof.
  intros Hs. split.
  - intros av. apply find_av_some. exact Hs.
  - apply find_av_none. exact Hs.
Qed.

(** ** add_volume *)

(** What [add_volume] writes when it makes a volume. *)
Lemma add_volume_made ubi ai vol_id pnum vid_hdr r ubi' ai' :
  add_volume P ubi ai vol_id pnum vid_hdr = (r, ubi', ai') ->
  rb_walk (vol_cmp vol_id) (ai_volumes ai) = None ->
  ai' = ai \/
  (exists obj,
     r = PTR (new_volume obj vol_id vid_hdr) /\
     ai' = set_vols_found (to_s32 (vols_found ai + 1))
             (set_ai_volumes
                (rb_insert_color (new_volume obj vol_id vid_hdr)
                   (rb_link_node (vol_cmp vol_id) (new_volume obj vol_id vid_hdr)
                      (ai_volumes ai)))
                (if vol_id >? highest_vol_id ai then set_highest_vol_id vol_id ai
                 else ai))).
Proof.
  unfold add_volume, kmalloc_volume. intros H Hw. rewrite Hw in H.
  destruct (kmalloc_av P (allocs ubi)) as [obj|].
  - right. exists obj.
    destruct (vol_id >? highest_vol_id ai); inversion H; subst; split; reflexivity.
  - left. inversion H; reflexivity.
Qed.

(** X2: [add_volume] does not disturb the other volumes: afterwards
    [ubi_find_av] answers for every other [vol_id] as before. *)
Theorem add_volume_other_ids ubi ai vol_id pnum vid_hdr r ubi' ai' (other : Z) :
  volumes_sorted (ai_volumes ai) ->
  add_volume P ubi ai vol_id pnum vid_hdr = (r, ubi', ai') ->
  other <> vol_id ->
  ubi_find_av ai' other = ubi_find_av ai other.
Proof.
  intros Hs H Hne.
  destruct r as [av | e].
  2:{ apply add_volume_cases in H.
      destruct H as [(? & E & _) | [(? & E & _) | [_ ->]]];
        [discriminate | discriminate | reflexivity]. }
  pose proof (add_volume_sorted _ _ _ _ _ _ _ _ _ Hs H) as ([Hs' _] & _ & _).
  apply add_volume_cases in H.
  destruct H as [(av' & _ & _ & -> & _) | [(obj & E & Hw & _ & Hin) | [E _]]];
    [reflexivity | | discriminate].
  destruct Hs as [Hs _].
  destruct (rb_link_node_elems (vol_cmp vol_id) (new_volume obj vol_id vid_hdr) _ Hw)
    as (l1 & l2 & E1 & E2).
  rewrite E2 in Hin.
  destruct (ubi_find_av ai other) as [a|] eqn:Eo.
  - apply find_av_some; [exact Hs'|].
    apply find_av_some in Eo; [|exact Hs]. destruct Eo as [Ha Hk].
    split; [|exact Hk].
    rewrite Hin. rewrite E1 in Ha. apply in_app_or in Ha.
    apply in_or_app. destruct Ha as [Ha | Ha]; [left | right; right]; exact Ha.
  - apply find_av_none; [exact Hs'|]. intros a Ha Hk.
    rewrite Hin in Ha. apply in_app_or in Ha.
    assert (Hina : In a (rb_inorder (ai_volumes ai))).
    { rewrite E1. apply in_or_app.
      destruct Ha as [Ha | [Ha | Ha]]; [left; exact Ha | | right; exact Ha].
      subst a. simpl in Hk. congruence. }
    exact (proj1 (find_av_none ai other Hs) Eo a Hina Hk).
Qed.

(** X3: [add_volume] is idempotent: called again for the [vol_id] of a
    volume it returned, it returns that volume, allocates nothing and
    leaves the attach info as it is. *)
Theorem add_volume_again ubi ai vol_id pnum vid_hdr av ubi' ai' :
  volumes_sorted (ai_volumes ai) ->
  add_volume P ubi ai vol_id pnum vid_hdr = (PTR av, ubi', ai') ->
  forall ubi2 pnum2 vid_hdr2,
    add_volume P ubi2 ai' vol_id pnum2 vid_hdr2 = (PTR av, ubi2, ai').
Proof.
  intros Hs H ubi2 pnum2 vid_hdr2.
  destruct (add_volume_sorted _ _ _ _ _ _ _ _ _ Hs H) as ([Hs' _] & Hin & Hk).
  pose proof (volume_found _ _ Hs' Hin) as Hw. rewrite Hk in Hw.
  unfold add_volume. rewrite Hw. reflexivity.
Qed.

(** X4: [add_volume] counts the volumes it makes: [vols_found] grows by
    one exactly when the tree had no volume with that [vol_id], and the
    tree then has one volume more, with no LEB yet; otherwise nothing
    changes and nothing is allocated. *)
Theorem add_volume_vols_found ubi ai vol_id pnum vid_hdr av ubi' ai' :
  add_volume P ubi ai vol_id pnum vid_hdr = (PTR av, ubi', ai') ->
  (ubi_find_av ai vol_id = None /\
   vols_found ai' = to_s32 (vols_found ai + 1) /\
   length (rb_inorder (ai_volumes ai')) = S (length (rb_inorder (ai_volumes ai))) /\
   highest_vol_id ai' = Z.max (highest_vol_id ai) vol_id /\
   av_leb_count av = 0 /\ av_root av = RB_ROOT) \/
  (ubi_find_av ai vol_id = Some av /\ ai' = ai /\ ubi' = ubi).
Proof.
  unfold add_volume, kmalloc_volume, ubi_find_av. rewrite find_av_loop_walk.
  destruct (rb_walk _ _) as [a|] eqn:Ew.
  - intros H. inversion H; subst. right. repeat split; reflexivity.
  - destruct (kmalloc_av P (allocs ubi)) as [obj|]; [|intros H; inversion H].
    intros H. left. split; [reflexivity|].
    destruct (Z.gtb_spec vol_id (highest_vol_id ai)) as [Hgt | Hle];
      inversion H; subst; simpl; rewrite rb_insert_color_inorder;
      repeat split; try (apply rb_link_node_length; exact Ew); lia.
Qed.

End Lookup.

(** * What a scan builds

    The book-keeping of the volumes and of their used trees, as
    [ubi_add_to_av] keeps it and [self_check_ai] expects it. *)

Section Bookkeeping.

Context {RB : RbTreeLib}.
Variable P : ubi_platform.

(** A volume whose fields agree with its used tree: [leb_count] is the
    number of LEBs, no LEB is beyond [highest_lnum], which is 0 or the
    [lnum] of a LEB, every LEB carries the [vol_id] of the volume and a
    sequence number of at most [m]. *)
Definition av_counted (m : Z) (av : ubi_ainf_volume) : Prop :=
  av_leb_count av = to_s32 (Z.of_nat (length (rb_inorder (av_root av)))) /\
  (av_highest_lnum av = 0 \/ In (av_highest_lnum av) (lnums av)) /\
  Forall (fun aeb => aeb_lnum aeb <= av_highest_lnum av /\
                     aeb_vol_id aeb = av_vol_id av /\
                     aeb_sqnum aeb <= m)
    (rb_inorder (av_root av)).

(** An attach info whose trees are in order and whose counters agree
    with them. *)
Definition ai_counted (ai : ubi_attach_info) : Prop :=
  volumes_sorted (ai_volumes ai) /\
  Forall (av_counted (max_sqnum ai)) (rb_inorder (ai_volumes ai)) /\
  vols_found ai = to_s32 (Z.of_nat (length (rb_inorder (ai_volumes ai)))).

(** The fields [ai_counted] reads. *)
Definition counted_view (ai : ubi_attach_info)
    : rb_root ubi_ainf_volume * Z * Z :=
  (ai_volumes ai, max_sqnum ai, vols_found ai).

Lemma ai_counted_view (ai ai' : ubi_attach_info) :
  counted_view ai' = counted_view ai -> ai_counted ai -> ai_counted ai'.
Proof.
  unfold counted_view, ai_counted. intros E. inversion E as [[E1 E2 E3]].
  rewrite E1, E2, E3. exact (fun H => H).
Qed.

Lemma av_counted_mono (m m' : Z) (av : ubi_ainf_volume) :
  m <= m' -> av_counted m av -> av_counted m' av.
Proof.
  intros Hm (Hc & Hh & Hf). repeat split; try assumption.
  eapply Forall_impl; [|exact Hf]. simpl. intros a (H1 & H2 & H3).
  repeat split; try assumption. lia.
Qed.

Lemma ai_counted_max_sqnum (ai : ubi_attach_info) (sqnum : Z) :
  ai_counted ai ->
  ai_counted (if max_sqnum ai <? sqnum then set_max_sqnum sqnum ai else ai).
Proof.
  intros (Hs & Hall & Hv).
  destruct (Z.ltb_spec (max_sqnum ai) sqnum) as [Hlt | Hge];
    [|split; [exact Hs | split; assumption]].
  split; [exact Hs | split; [|exact Hv]]. simpl.
  eapply Forall_impl; [|exact Hall]. intros av. apply av_counted_mono. lia.
Qed.

Lemma av_counted_link (m : Z) (av av' : ubi_ainf_volume) (aeb : ubi_ainf_peb) (k : Z) :
  av_counted m av ->
  rb_walk (lnum_cmp k) (av_root av) = None ->
  aeb_lnum aeb = k -> aeb_vol_id aeb = av_vol_id av -> aeb_sqnum aeb <= m ->
  av_root av' = rb_insert_color aeb (rb_link_node (lnum_cmp k) aeb (av_root av)) ->
  av_vol_id av' = av_vol_id av ->
  av_leb_count av' = to_s32 (av_leb_count av + 1) ->
  av_highest_lnum av' =
    (if av_highest_lnum av <=? k then k else av_highest_lnum av) ->
  av_counted m av'.
Proof.
  intros (Hc & Hh & Hf) Hw Hk Hv Hs Hroot Hid Hcount Hhigh.
  destruct (rb_link_node_elems (lnum_cmp k) aeb _ Hw) as (l1 & l2 & E1 & E2).
  assert (Ein : rb_inorder (av_root av') = l1 ++ aeb :: l2)
    by (rewrite Hroot, rb_insert_color_inorder; exact E2).
  unfold av_counted, lnums. rewrite Ein, Hid, Hcount, Hc, E1.
  rewrite E1 in Hf. unfold lnums in Hh. rewrite E1 in Hh.
  rewrite !length_app. simpl. rewrite to_s32_succ.
  split; [f_equal; lia|].
  apply Forall_app in Hf. destruct Hf as [Hf1 Hf2].
  assert (Hle : av_highest_lnum av <= av_highest_lnum av' /\ k <= av_highest_lnum av').
  { rewrite Hhigh. destruct (Z.leb_spec (av_highest_lnum av) k); lia. }
  split.
  - rewrite Hhigh. destruct (Z.leb_spec (av_highest_lnum av) k).
    + right. rewrite map_app. simpl. apply in_or_app. right. left. exact Hk.
    + destruct Hh as [Hh | Hh]; [left; exact Hh | right].
      rewrite map_app in *. simpl. apply in_app_or in Hh. apply in_or_app.
      destruct Hh; [left | right; right]; assumption.
  - apply Forall_app. split; [|constructor].
    + eapply Forall_impl; [|exact Hf1]. simpl. intros a (H1 & H2 & H3).
      repeat split; [lia | exact H2 | exact H3].
    + repeat split; [lia | exact Hv | exact Hs].
    + eapply Forall_impl; [|exact Hf2]. simpl. intros a (H1 & H2 & H3).
      repeat split; [lia | exact H2 | exact H3].
Qed.

Lemma av_counted_assign (m : Z) (av av' : ubi_ainf_volume) (old aeb : ubi_ainf_peb)
    (k : Z) :
  av_counted m av ->
  rb_walk (lnum_cmp k) (av_root av) = Some old ->
  aeb_lnum aeb = k -> aeb_vol_id aeb = av_vol_id av -> aeb_sqnum aeb <= m ->
  av_root av' = rb_assign (lnum_cmp k) aeb (av_root av) ->
  av_vol_id av' = av_vol_id av ->
  av_leb_count av' = av_leb_count av ->
  av_highest_lnum av' = av_highest_lnum av ->
  av_counted m av'.
Proof.
  intros (Hc & Hh & Hf) Hw Hk Hv Hs Hroot Hid Hcount Hhigh.
  destruct (rb_assign_split (lnum_cmp k) aeb _ old Hw) as (l1 & l2 & E1 & E2).
  destruct (rb_walk_In aeb_lnum k (lnum_cmp k) (lnum_cmp_found _) _ _ Hw) as [_ Hold].
  unfold av_counted, lnums. rewrite Hroot, E2, Hid, Hcount, Hhigh, Hc, E1.
  rewrite E1 in Hf. unfold lnums in Hh. rewrite E1 in Hh.
  rewrite !length_app. simpl.
  split; [reflexivity|].
  apply Forall_app in Hf. destruct Hf as [Hf1 Hf2].
  inversion Hf2 as [|? ? (Ho1 & Ho2 & Ho3) Hf3]; subst.
  split.
  - rewrite map_app in *. simpl in *. rewrite Hold in Hh. exact Hh.
  - apply Forall_app. split; [exact Hf1|]. constructor; [|exact Hf3].
    repeat split; [lia | exact Hv | exact Hs].
Qed.

Lemma av_store_counted (av : ubi_ainf_volume) (ai : ubi_attach_info) :
  ai_counted ai -> used_sorted av -> av_counted (max_sqnum ai) av ->
  ai_counted (av_store av ai).
Proof.
  intros (Hs & Hall & Hv) Hu Hav.
  split; [apply av_store_sorted; assumption|].
  unfold av_store. simpl. rewrite rb_map_inorder, length_map.
  split; [|exact Hv].
  apply Forall_map. eapply Forall_impl; [|exact Hall].
  intros v Hc. simpl. destruct (av_vol_id v =? av_vol_id av); assumption.
Qed.

Lemma add_volume_counted ubi ai vol_id pnum vid_hdr r ubi' ai' :
  ai_counted ai ->
  add_volume P ubi ai vol_id pnum vid_hdr = (r, ubi', ai') ->
  ai_counted ai' /\ max_sqnum ai' = max_sqnum ai.
Proof.
  intros Hc H.
  destruct (rb_walk (vol_cmp vol_id) (ai_volumes ai)) as [a|] eqn:Ew.
  { unfold add_volume in H. rewrite Ew in H. inversion H; subst.
    split; [exact Hc | reflexivity]. }
  destruct Hc as (Hs & Hall & Hvf).
  destruct (add_volume_made _ _ _ _ _ _ _ _ _ H Ew) as [-> | (obj & -> & E)];
    [split; [split; [exact Hs | split; assumption] | reflexivity]|].
  pose proof (add_volume_sorted _ _ _ _ _ _ _ _ _ Hs H) as (Hs' & _ & _).
  assert (Hnew : av_counted (max_sqnum ai) (new_volume obj vol_id vid_hdr)).
  { unfold av_counted, lnums. simpl. repeat split; [left; reflexivity | constructor]. }
  destruct (rb_link_node_elems (vol_cmp vol_id) (new_volume obj vol_id vid_hdr) _ Ew)
    as (l1 & l2 & E1 & E2).
  assert (Emax : max_sqnum ai' = max_sqnum ai)
    by (rewrite E; destruct (vol_id >? highest_vol_id ai); reflexivity).
  assert (Evf : vols_found ai' = to_s32 (vols_found ai + 1))
    by (rewrite E; destruct (vol_id >? highest_vol_id ai); reflexivity).
  assert (Evol : rb_inorder (ai_volumes ai') = l1 ++ new_volume obj vol_id vid_hdr :: l2).
  { rewrite E. simpl. rewrite rb_insert_color_inorder.
    destruct (vol_id >? highest_vol_id ai); exact E2. }
  split; [|exact Emax].
  split; [exact Hs'|]. rewrite Emax, Evf, Evol, Hvf, E1.
  rewrite E1 in Hall. apply Forall_app in Hall. destruct Hall as [H1 H2].
  split.
  - apply Forall_app. split; [exact H1 | constructor; assumption].
  - rewrite to_s32_succ, !length_app. simpl. f_equal. lia.
Qed.

Lemma add_to_list_counted_view ubi ai pnum vol_id lnum ec to_head lst err ubi' ai' :
  add_to_list P ubi ai pnum vol_id lnum ec to_head lst = (err, ubi', ai') ->
  counted_view ai' = counted_view ai.
Proof.
  unfold add_to_list, kmem_cache_alloc. intros H.
  destruct (slab_alloc P (allocs ubi)); destruct lst;
    destruct (to_head !=? 0); inversion H; reflexivity.
Qed.

(** [ubi_add_to_av] keeps the book, whatever it returns. *)
Lemma ubi_add_to_av_book ubi ai pnum ec vid_hdr bitflips err ubi' ai' :
  ai_counted ai ->
  ubi_add_to_av P ubi ai pnum ec vid_hdr bitflips = (err, ubi', ai') ->
  ai_counted ai'.
Proof.
  intros Hc. unfold ubi_add_to_av.
  destruct (add_volume _ _ _ _ _ _) as [[r u] a] eqn:Ev.
  destruct (add_volume_counted _ _ _ _ _ _ _ _ Hc Ev) as [Hc1 _].
  destruct r as [av | e]; [|intros H; inversion H; subst; exact Hc1].
  destruct (add_volume_sorted _ _ _ _ _ _ _ _ _ (proj1 Hc) Ev) as (Hs1 & Hin & Hk).
  assert (Hsq : vh_sqnum vid_hdr <=
                max_sqnum (if max_sqnum a <? vh_sqnum vid_hdr
                           then set_max_sqnum (vh_sqnum vid_hdr) a else a))
    by (destruct (Z.ltb_spec (max_sqnum a) (vh_sqnum vid_hdr)); simpl; lia).
  pose proof (ai_counted_max_sqnum a (vh_sqnum vid_hdr) Hc1) as Hc2.
  assert (Hin2 : In av (rb_inorder (ai_volumes
                   (if max_sqnum a <? vh_sqnum vid_hdr
                    then set_max_sqnum (vh_sqnum vid_hdr) a else a))))
    by (destruct (max_sqnum a <? vh_sqnum vid_hdr); exact Hin).
  set (a1 := if max_sqnum a <? vh_sqnum vid_hdr
             then set_max_sqnum (vh_sqnum vid_hdr) a else a) in *.
  clearbody a1.
  assert (Hav : used_sorted av /\ av_counted (max_sqnum a1) av).
  { destruct Hc2 as ([_ Hu] & Hall & _). rewrite Forall_forall in Hu, Hall.
    split; [apply Hu | apply Hall]; exact Hin2. }
  destruct Hav as [Hu Hav].
  repeat break_match; intros H; inversion H; subst;
    repeat match goal with
      | Ha : add_to_list _ _ _ _ _ _ _ _ _ = _ |- _ =>
          apply add_to_list_counted_view in Ha
      end;
    try exact Hc2;
    try (eapply ai_counted_view; [eassumption | exact Hc2]).
  - apply av_store_counted.
    + eapply ai_counted_view; [eassumption | exact Hc2].
    + unfold used_sorted, lnums. simpl.
      apply (used_assign_sorted av u0 _ _ Hu Heqo). reflexivity.
    + inversion Heqp0 as [[E1 E2 E3]]. rewrite E2.
      eapply (av_counted_assign _ av _ u0 _ _ Hav Heqo);
        [| | | reflexivity | reflexivity | reflexivity | reflexivity];
        [reflexivity | exact (eq_sym Hk) | exact Hsq].
  - apply av_store_counted.
    + eapply ai_counted_view; [eassumption | exact Hc2].
    + unfold used_sorted, lnums. simpl.
      apply (used_assign_sorted av u0 _ _ Hu Heqo). reflexivity.
    + inversion Heqp0 as [[E1 E2 E3]]. rewrite E2.
      eapply (av_counted_assign _ av _ u0 _ _ Hav Heqo);
        [| | | reflexivity | reflexivity | reflexivity | reflexivity];
        [reflexivity | exact (eq_sym Hk) | exact Hsq].
  - apply av_store_counted; [exact Hc2 | |].
    + unfold used_sorted, lnums. simpl.
      apply (used_link_sorted av _ _ Hu); [assumption | reflexivity].
    + eapply (av_counted_link _ av _ _ _ Hav Heqo);
        [| | | reflexivity | reflexivity | reflexivity | rewrite Heqb0; reflexivity];
        [reflexivity | exact (eq_sym Hk) | exact Hsq].
  - apply av_store_counted; [exact Hc2 | |].
    + unfold used_sorted, lnums. simpl.
      apply (used_link_sorted av _ _ Hu); [assumption | reflexivity].
    + eapply (av_counted_link _ av _ _ _ Hav Heqo);
        [| | | reflexivity | reflexivity | reflexivity | rewrite Heqb0; reflexivity];
        [reflexivity | exact (eq_sym Hk) | exact Hsq].
Qed.

(** X5: [ubi_add_to_av] keeps the book: whatever it returns, on an
    attach info whose trees are in order and whose counters agree with
    them it leaves one of the same kind.  Of every volume of the
    result, [leb_count] is the number of LEBs in its tree, and every
    LEB has an [lnum] of at most [highest_lnum], the [vol_id] of the
    volume and a sequence number of at most [max_sqnum]; [vols_found]
    is the number of volumes. *)
Theorem ubi_add_to_av_counted ubi ai pnum ec vid_hdr bitflips err ubi' ai' :
  ai_counted ai ->
  ubi_add_to_av P ubi ai pnum ec vid_hdr bitflips = (err, ubi', ai') ->
  ai_counted ai' /\
  vols_found ai' = to_s32 (Z.of_nat (length (rb_inorder (ai_volumes ai')))) /\
  forall av, In av (rb_inorder (ai_volumes ai')) ->
    av_leb_count av = to_s32 (Z.of_nat (length (rb_inorder (av_root av)))) /\
    forall aeb, In aeb (rb_inorder (av_root av)) ->
      aeb_lnum aeb <= av_highest_lnum av /\ aeb_vol_id aeb = av_vol_id av /\
      aeb_sqnum aeb <= max_sqnum ai'.
Proof.
  intros Hc H.
  pose proof (ubi_add_to_av_book _ _ _ _ _ _ _ _ _ Hc H) as Hc'.
  split; [exact Hc'|].
  destruct Hc' as (_ & Hall & Hvf). split; [exact Hvf|].
  intros av Hin. rewrite Forall_forall in Hall.
  destruct (Hall av Hin) as (Hn & _ & Hf). split; [exact Hn|].
  rewrite Forall_forall in Hf. exact Hf.
Qed.


(** ** The scan keeps the book *)

Lemma add_corrupted_counted_view ubi ai pnum ec err ubi' ai' :
  add_corrupted P ubi ai pnum ec = (err, ubi', ai') ->
  counted_view ai' = counted_view ai.
Proof.
  unfold add_corrupted, kmem_cache_alloc. intros H.
  destruct (slab_alloc P (allocs ubi)); inversion H; reflexivity.
Qed.

Lemma adjust_mean_ec_counted_view (ai : ubi_attach_info) (ec_err ec : Z) :
  counted_view (adjust_mean_ec ai ec_err ec) = counted_view ai.
Proof.
  unfold adjust_mean_ec.
  destruct (ec_err =? 0); [|reflexivity].
  simpl. destruct (ec >? max_ec ai); simpl;
    repeat match goal with |- context [if ?c then _ else _] => destruct c end;
    reflexivity.
Qed.

Ltac use_views :=
  repeat match goal with
    | H : add_to_list _ _ _ _ _ _ _ _ _ = _ |- _ =>
        apply add_to_list_counted_view in H
    | H : add_corrupted _ _ _ _ _ = _ |- _ => apply add_corrupted_counted_view in H
    end.

Ltac view_close Hc :=
  repeat match goal with
    | H : context [if ?c then _ else _] |- _ => destruct c
    end;
  use_views;
  (eapply ai_counted_view; [|exact Hc]);
  rewrite ?adjust_mean_ec_counted_view;
  repeat match goal with
    | |- context [if ?c then _ else _] => destruct c
    end;
  unfold counted_view in *; simpl in *; congruence.

Lemma scan_peb_admit_counted ubi ai pnum ec vidh bitflips ec_err err ubi' ai' :
  ai_counted ai ->
  scan_peb_admit P ubi ai pnum ec vidh bitflips ec_err = (err, ubi', ai') ->
  ai_counted ai'.
Proof.
  intros Hc. unfold scan_peb_admit.
  destruct (ubi_add_to_av _ _ _ _ _ _ _) as [[e u] a] eqn:E.
  pose proof (ubi_add_to_av_book _ _ _ _ _ _ _ _ _ Hc E) as Hc1.
  destruct (e !=? 0); intros H; inversion H; subst; [exact Hc1|].
  view_close Hc1.
Qed.

Lemma scan_peb_vol_counted ubi ai pnum ec vidh bitflips ec_err err ubi' ai' :
  ai_counted ai ->
  scan_peb_vol P ubi ai pnum ec vidh bitflips ec_err = (err, ubi', ai') ->
  ai_counted ai'.
Proof.
  intros Hc. unfold scan_peb_vol.
  repeat break_match; intros H;
    try (eapply scan_peb_admit_counted; eassumption);
    inversion H; subst; view_close Hc.
Qed.

Lemma scan_peb_vid_counted ubi ai pnum ec bitflips ec_err err ubi' ai' :
  ai_counted ai ->
  scan_peb_vid P ubi ai pnum ec bitflips ec_err = (err, ubi', ai') ->
  ai_counted ai'.
Proof.
  intros Hc. unfold scan_peb_vid.
  repeat break_match; intros H;
    try (eapply scan_peb_vol_counted; eassumption);
    inversion H; subst; view_close Hc.
Qed.

Lemma scan_peb_counted ubi ai pnum err ubi' ai' :
  ai_counted ai ->
  scan_peb P ubi ai pnum = (err, ubi', ai') ->
  ai_counted ai'.
Proof.
  intros Hc. unfold scan_peb, scan_peb_ec.
  repeat break_match; intros H;
    try (eapply scan_peb_vid_counted; eassumption);
    inversion H; subst; view_close Hc.
Qed.

Lemma scan_pebs_counted (n : nat) :
  forall ubi ai pnum err ubi' ai',
    ai_counted ai ->
    scan_pebs P n ubi ai pnum = (err, ubi', ai') ->
    ai_counted ai'.
Proof.
  induction n as [|n IH]; simpl; intros ubi ai pnum err ubi' ai' Hc H.
  - inversion H; subst; exact Hc.
  - destruct (scan_peb P ubi ai pnum) as [[e u] a] eqn:E.
    pose proof (scan_peb_counted _ _ _ _ _ _ Hc E) as Hc1.
    destruct (e <? 0); [inversion H; subst; exact Hc1|].
    eapply IH; eassumption.
Qed.

Lemma late_analysis_counted_view ubi ai err ubi' ai' :
  late_analysis P ubi ai = (err, ubi', ai') -> counted_view ai' = counted_view ai.
Proof.
  unfold late_analysis.
  repeat break_match; intros H; inversion H; reflexivity.
Qed.

Lemma fill_ec_fields (mean : Z) (aeb : ubi_ainf_peb) :
  aeb_lnum (fill_ec mean aeb) = aeb_lnum aeb /\
  aeb_vol_id (fill_ec mean aeb) = aeb_vol_id aeb /\
  aeb_sqnum (fill_ec mean aeb) = aeb_sqnum aeb /\
  aeb_pnum (fill_ec mean aeb) = aeb_pnum aeb.
Proof.
  unfold fill_ec. destruct (aeb_ec aeb =? UBI_UNKNOWN); repeat split; reflexivity.
Qed.

Lemma fill_unknown_ec_counted (ai : ubi_attach_info) :
  ai_counted ai -> ai_counted (fill_unknown_ec ai).
Proof.
  intros ([Hs Hu] & Hall & Hv).
  assert (Hl : forall av,
            map aeb_lnum (map (fill_ec (mean_ec ai)) (rb_inorder (av_root av)))
            = map aeb_lnum (rb_inorder (av_root av))).
  { intros av. rewrite map_map. apply map_ext. intros a. apply fill_ec_fields. }
  unfold ai_counted, volumes_sorted, vol_ids, fill_unknown_ec. simpl.
  rewrite rb_map_inorder, map_map, length_map. simpl.
  repeat split; try assumption.
  - apply Forall_map. eapply Forall_impl; [|exact Hu].
    intros av. unfold used_sorted, lnums. simpl.
    rewrite rb_map_inorder, Hl. exact (fun H => H).
  - apply Forall_map. eapply Forall_impl; [|exact Hall].
    intros av. unfold av_counted, lnums. simpl.
    rewrite rb_map_inorder, Hl, length_map. intros (H1 & H2 & H3).
    repeat split; try assumption.
    apply Forall_map. eapply Forall_impl; [|exact H3]. simpl.
    intros a. destruct (fill_ec_fields (mean_ec ai) a) as (-> & -> & -> & _).
    exact (fun H => H).
Qed.

(** X6: [scan_all] keeps the book: whatever it returns - 0 or an error
    of a PEB, of the analysis or of the self-check - the attach info it
    leaves has its trees in order and its counters in agreement with
    them, when the one it was given has. *)
Theorem scan_all_counted ubi ai start err ubi' ai' :
  ai_counted ai ->
  scan_all P ubi ai start = (err, ubi', ai') ->
  ai_counted ai'.
Proof.
  intros Hc. unfold scan_all, ubi_zalloc_vid_hdr, kzalloc.
  destruct (kmalloc_ok P (allocs ubi)); [|intros H; inversion H; subst; exact Hc].
  destruct (kmalloc_ok P (allocs (alloc_done ubi)));
    [|intros H; inversion H; subst; exact Hc].
  destruct (scan_pebs _ _ _ _ _) as [[e u] a] eqn:Es.
  pose proof (scan_pebs_counted _ _ _ _ _ _ _ Hc Es) as Hc1.
  destruct (e <? 0); [intros H; inversion H; subst; exact Hc1|].
  destruct (late_analysis _ _ _) as [[e1 u1] a1] eqn:El.
  apply late_analysis_counted_view in El.
  assert (Hc2 : ai_counted a1).
  { eapply ai_counted_view; [exact El|].
    destruct (ec_count a !=? 0); [|exact Hc1].
    eapply ai_counted_view; [|exact Hc1]. reflexivity. }
  destruct (e1 !=? 0); [intros H; inversion H; subst; exact Hc2|].
  destruct (self_check_ai _ _ _) as [e2 u2].
  destruct (e2 !=? 0); intros H; inversion H; subst;
    apply fill_unknown_ec_counted; exact Hc2.
Qed.

End Bookkeeping.

(** * What the self-check accepts *)

(** ** The byte map of the third pass *)

Lemma buf_set_length (buf : list Z) (i v : Z) :
  length (buf_set buf i v) = length buf.
Proof.
  unfold buf_set.
  destruct (Z.leb_spec 0 i); cbn [andb]; [|reflexivity].
  destruct (Z.ltb_spec i (Z.of_nat (length buf))); [|reflexivity].
  rewrite length_app, length_firstn. cbn [length]. rewrite length_skipn. lia.
Qed.

(** A store sets the byte of its index, if it is in the map, and no
    other. *)
Lemma buf_set_nth (buf : list Z) (i v : Z) (j : nat) :
  nth j (buf_set buf i v) 0 <> nth j buf 0 -> Z.of_nat j = i.
Proof.
  unfold buf_set.
  destruct (Z.leb_spec 0 i); cbn [andb]; [|congruence].
  destruct (Z.ltb_spec i (Z.of_nat (length buf))); [|congruence].
  intros Hne.
  destruct (Nat.lt_trichotomy j (Z.to_nat i)) as [Hlt | [Heq | Hgt]]; [|lia|];
    exfalso; apply Hne.
  - rewrite app_nth1 by (rewrite length_firstn; lia).
    rewrite nth_firstn.
    destruct (Nat.ltb_spec j (Z.to_nat i)); [reflexivity | lia].
  - rewrite app_nth2 by (rewrite length_firstn; lia).
    rewrite length_firstn, Nat.min_l by lia.
    replace (j - Z.to_nat i)%nat with (S (j - S (Z.to_nat i))) by lia.
    cbn [nth]. rewrite nth_skipn. f_equal. lia.
Qed.

Lemma mark_pebs_length (aebs : list ubi_ainf_peb) :
  forall buf, length (mark_pebs aebs buf) = length buf.
Proof.
  unfold mark_pebs.
  induction aebs as [|a aebs IH]; simpl; intros buf; [reflexivity|].
  rewrite IH. apply buf_set_length.
Qed.

Lemma mark_pebs_nth (aebs : list ubi_ainf_peb) (j : nat) :
  forall buf,
    nth j (mark_pebs aebs buf) 0 <> 0 ->
    nth j buf 0 <> 0 \/ In (Z.of_nat j) (map aeb_pnum aebs).
Proof.
  unfold mark_pebs.
  induction aebs as [|a aebs IH]; simpl; intros buf H; [left; exact H|].
  destruct (IH _ H) as [Hn | Hin]; [|right; right; exact Hin].
  destruct (Z.eq_dec (nth j (buf_set buf (aeb_pnum a) 1) 0) (nth j buf 0)) as [E | E].
  - left. rewrite <- E. exact Hn.
  - right. left. symmetry. exact (buf_set_nth _ _ _ _ E).
Qed.

Lemma mark_trees_nth (avs : list ubi_ainf_volume) (j : nat) :
  forall buf,
    nth j (fold_left (fun buf av => mark_pebs (rb_inorder (av_root av)) buf) avs buf) 0
      <> 0 ->
    nth j buf 0 <> 0 \/
    exists av, In av avs /\ In (Z.of_nat j) (map aeb_pnum (rb_inorder (av_root av))).
Proof.
  induction avs as [|av avs IH]; simpl; intros buf H; [left; exact H|].
  destruct (IH _ H) as [Hn | (av' & Hin & Hp)].
  - apply mark_pebs_nth in Hn. destruct Hn as [Hn | Hp]; [left; exact Hn|].
    right. exists av. split; [left; reflexivity | exact Hp].
  - right. exists av'. split; [right; exact Hin | exact Hp].
Qed.

Lemma mark_trees_length (avs : list ubi_ainf_volume) :
  forall buf,
    length (fold_left (fun buf av => mark_pebs (rb_inorder (av_root av)) buf) avs buf)
    = length buf.
Proof.
  induction avs as [|av avs IH]; simpl; intros buf; [reflexivity|].
  rewrite IH. apply mark_pebs_length.
Qed.

Section SelfCheck.

Context {RB : RbTreeLib}.
Variable P : ubi_platform.

Lemma self_check_mark_bad_spec (n : nat) :
  forall ubi pnum buf err buf' ubi',
    self_check_mark_bad P n ubi pnum buf = (err, buf', ubi') ->
    length buf' = length buf /\
    forall j, nth j buf' 0 <> 0 ->
      nth j buf 0 <> 0 \/ exists t, 0 < io_is_bad P t (Z.of_nat j).
Proof.
  induction n as [|n IH]; simpl; intros ubi pnum buf err buf' ubi' H.
  - inversion H; subst. split; [reflexivity | intros j Hj; left; exact Hj].
  - destruct (Z.ltb_spec (io_is_bad P (now ubi) pnum) 0) as [Hneg | Hpos].
    + inversion H; subst. split; [reflexivity | intros j Hj; left; exact Hj].
    + apply IH in H. destruct H as [Hlen Hnth].
      destruct (Z.eqb_spec (io_is_bad P (now ubi) pnum) 0) as [E0 | E0]; simpl in *.
      * split; assumption.
      * rewrite buf_set_length in Hlen. split; [exact Hlen|].
        intros j Hj. destruct (Hnth j Hj) as [Hn | Hex]; [|right; exact Hex].
        destruct (Z.eq_dec (nth j (buf_set buf pnum 1) 0) (nth j buf 0)) as [E | E].
        -- left. rewrite <- E. exact Hn.
        -- right. exists (now ubi). rewrite (buf_set_nth _ _ _ _ E). lia.
Qed.

(** ** The first pass *)

(** What the first pass wants of a LEB and of a volume. *)
Definition aeb_checked (ubi : ubi_device) (ai : ubi_attach_info)
    (av : ubi_ainf_volume) (aeb : ubi_ainf_peb) : Prop :=
  0 <= aeb_pnum aeb < peb_count ubi /\
  0 <= aeb_ec aeb /\ min_ec ai <= aeb_ec aeb <= max_ec ai /\
  aeb_lnum aeb <= av_highest_lnum av /\
  (if av_vol_type av =? UBI_STATIC_VOLUME
   then aeb_lnum aeb < av_used_ebs av
   else av_used_ebs av = 0).

Definition av_checked (ubi : ubi_device) (ai : ubi_attach_info)
    (av : ubi_ainf_volume) : Prop :=
  is_empty ai = 0 /\
  0 <= av_vol_id av <= highest_vol_id ai /\
  (av_vol_id av < UBI_MAX_VOLUMES \/ UBI_INTERNAL_VOL_START <= av_vol_id av) /\
  (av_vol_type av = UBI_DYNAMIC_VOLUME \/ av_vol_type av = UBI_STATIC_VOLUME) /\
  0 <= av_data_pad av <= Z.quot (leb_size ubi) 2 /\
  0 <= av_used_ebs av /\ 0 <= av_last_data_size av /\ 0 <= av_highest_lnum av /\
  av_leb_count av = to_s32 (Z.of_nat (length (rb_inorder (av_root av)))) /\
  Forall (aeb_checked ubi ai av) (rb_inorder (av_root av)) /\
  (forall front last_aeb,
     rb_inorder (av_root av) = front ++ [last_aeb] ->
     aeb_lnum last_aeb = av_highest_lnum av).

Lemma self_check_aeb_false ubi ai av aeb :
  self_check_aeb ubi ai av aeb = false -> aeb_checked ubi ai av aeb.
Proof.
  unfold self_check_aeb, aeb_checked. intros H.
  destruct (av_vol_type av =? UBI_STATIC_VOLUME); zb_hyps; repeat split; lia.
Qed.

Lemma self_check_av_false ubi ai av :
  self_check_av ubi ai av = false -> av_checked ubi ai av.
Proof.
  unfold self_check_av, av_checked. intros H.
  repeat (apply orb_false_iff in H; destruct H as [H ?]).
  match goal with
  | Hx : existsb _ _ = false |- _ => rename Hx into Hex
  end.
  match goal with
  | Hx : match rev _ with _ => _ end = false |- _ => rename Hx into Hlast
  end.
  match goal with
  | Hx : (av_vol_id av >=? _) && _ = false |- _ => rename Hx into Hid
  end.
  match goal with
  | Hx : (av_vol_type av !=? _) && _ = false |- _ => rename Hx into Hty
  end.
  assert (Hid' : av_vol_id av < UBI_MAX_VOLUMES \/ UBI_INTERNAL_VOL_START <= av_vol_id av).
  { apply andb_false_iff in Hid. destruct Hid as [Hid | Hid]; zb_hyps;
      [left | right]; lia. }
  assert (Hty' : av_vol_type av = UBI_DYNAMIC_VOLUME \/
                 av_vol_type av = UBI_STATIC_VOLUME).
  { apply andb_false_iff in Hty. destruct Hty as [Hty | Hty]; zb_hyps;
      [left | right]; assumption. }
  clear Hid Hty.
  assert (Haebs : Forall (aeb_checked ubi ai av) (rb_inorder (av_root av))).
  { apply Forall_forall. intros aeb Hin. apply self_check_aeb_false.
    destruct (self_check_aeb ubi ai av aeb) eqn:E; [|reflexivity].
    assert (Ht : existsb (self_check_aeb ubi ai av) (rb_inorder (av_root av)) = true)
      by (apply existsb_exists; exists aeb; split; assumption).
    congruence. }
  assert (Hl : forall front last_aeb,
            rb_inorder (av_root av) = front ++ [last_aeb] ->
            aeb_lnum last_aeb = av_highest_lnum av).
  { intros front last_aeb E. rewrite E, rev_app_distr in Hlast. simpl in Hlast.
    zb_hyps. exact Hlast. }
  clear Hex Hlast.
  zb_hyps.
  split; [assumption|]. split; [lia|]. split; [exact Hid'|]. split; [exact Hty'|].
  split; [lia|]. split; [lia|]. split; [lia|]. split; [lia|].
  split; [assumption|]. split; [exact Haebs | exact Hl].
Qed.

(** X7: with the general checks on, [self_check_ai] returns 0 only for
    an attach info that passed its first pass: [vols_found] is the
    number of volumes, and of every volume the identifier, type and
    padding are in range, [leb_count] is the number of its LEBs, the
    LEB visited last has [highest_lnum], and every LEB has a PEB number
    of the device, an erase counter between [min_ec] and [max_ec] and an
    [lnum] the volume allows. *)
Theorem self_check_ai_first_pass ubi ai ubi' :
  dbg_chk_gen ubi = true ->
  self_check_ai P ubi ai = (0, ubi') ->
  vols_found ai = to_s32 (Z.of_nat (length (rb_inorder (ai_volumes ai)))) /\
  Forall (av_checked ubi ai) (rb_inorder (ai_volumes ai)).
Proof.
  intros Hdbg. unfold self_check_ai. rewrite Hdbg. simpl.
  destruct (existsb _ _) eqn:Eav; [intros H; inversion H|].
  destruct (Z.eqb_spec (to_s32 (Z.of_nat (length (rb_inorder (ai_volumes ai)))))
              (vols_found ai)) as [Ev | Ev]; [|intros H; inversion H].
  intros _. split; [symmetry; exact Ev|].
  apply Forall_forall. intros av Hin. apply self_check_av_false.
  destruct (self_check_av ubi ai av) eqn:E; [|reflexivity].
  assert (Ht : existsb (self_check_av ubi ai) (rb_inorder (ai_volumes ai)) = true)
    by (apply existsb_exists; exists av; split; assumption).
  congruence.
Qed.

(** ** The third pass *)

Lemma self_check_vid_aebs_peb_count (av : ubi_ainf_volume) (aebs : list ubi_ainf_peb) :
  forall ubi last err last' ubi',
    self_check_vid_aebs P ubi av aebs last = (err, last', ubi') ->
    peb_count ubi' = peb_count ubi.
Proof.
  induction aebs as [|aeb aebs IH]; simpl; intros ubi last err last' ubi' H.
  - inversion H; reflexivity.
  - revert H. repeat break_match; intros H; try (inversion H; reflexivity).
    apply IH in H. exact H.
Qed.

Lemma self_check_vid_avs_peb_count (avs : list ubi_ainf_volume) :
  forall ubi err ubi',
    self_check_vid_avs P ubi avs = (err, ubi') -> peb_count ubi' = peb_count ubi.
Proof.
  induction avs as [|av avs IH]; simpl; intros ubi err ubi' H.
  - inversion H; reflexivity.
  - destruct (self_check_vid_aebs _ _ _ _ _) as [[e l] u] eqn:E.
    apply self_check_vid_aebs_peb_count in E.
    revert H. repeat break_match; intros H; try (inversion H; subst; exact E);
      apply IH in H; congruence.
Qed.

(** The PEB numbers an attach info refers to: those of the LEBs of its
    volumes and those of its free, corrupted, erase and alien lists. *)
Definition ai_pnums (ai : ubi_attach_info) : list Z :=
  concat (map (fun av => map aeb_pnum (rb_inorder (av_root av)))
            (rb_inorder (ai_volumes ai)))
  ++ map aeb_pnum (ai_free ai) ++ map aeb_pnum (ai_corr ai)
  ++ map aeb_pnum (ai_erase ai) ++ map aeb_pnum (ai_alien ai).

Lemma existsb_zero_nth (buf : list Z) (j : nat) :
  existsb (Z.eqb 0) buf = false -> (j < length buf)%nat -> nth j buf 0 <> 0.
Proof.
  intros H Hj E.
  assert (Ht : existsb (Z.eqb 0) buf = true).
  { apply existsb_exists. exists (nth j buf 0). split; [apply nth_In; exact Hj|].
    rewrite E. reflexivity. }
  congruence.
Qed.

(** X8: with the general checks on, [self_check_ai] returns 0 only when
    every PEB of the device is accounted for: it was reported bad, or a
    LEB of a volume or an entry of the free, corrupted, erase or alien
    list refers to it. *)
Theorem self_check_ai_all_referred ubi ai ubi' (pnum : Z) :
  dbg_chk_gen ubi = true ->
  self_check_ai P ubi ai = (0, ubi') ->
  0 <= pnum < peb_count ubi ->
  (exists t, 0 < io_is_bad P t pnum) \/ In pnum (ai_pnums ai).
Proof.
  intros Hdbg. unfold self_check_ai, kzalloc. rewrite Hdbg. cbn [negb].
  destruct (existsb _ _); [intros H; inversion H|].
  destruct (_ !=? _); [intros H; inversion H|].
  destruct (self_check_vid_avs _ _ _) as [e u] eqn:Ev.
  apply self_check_vid_avs_peb_count in Ev.
  destruct (e !=? 0) eqn:Ee; [intros H; inversion H; subst; discriminate|].
  destruct (kmalloc_ok P (allocs u)); [|intros H; inversion H].
  replace (peb_count (alloc_done u)) with (peb_count ubi) by (rewrite <- Ev; reflexivity).
  destruct (self_check_mark_bad _ _ _ _ _) as [[e1 buf] u1] eqn:Em.
  apply self_check_mark_bad_spec in Em. destruct Em as [Hlen Hbad].
  rewrite repeat_length in Hlen.
  destruct (e1 <? 0) eqn:Ee1; [intros H; inversion H; subst; discriminate|].
  destruct (existsb (Z.eqb 0) _) eqn:Ez; [intros H; inversion H|].
  intros _ Hp.
  apply (existsb_zero_nth _ (Z.to_nat pnum)) in Ez.
  2:{ rewrite !mark_pebs_length, mark_trees_length, Hlen. lia. }
  unfold ai_pnums. rewrite !in_app_iff.
  apply mark_pebs_nth in Ez. rewrite Z2Nat.id in Ez by lia.
  destruct Ez as [Ez | Ez]; [|right; tauto].
  apply mark_pebs_nth in Ez. rewrite Z2Nat.id in Ez by lia.
  destruct Ez as [Ez | Ez]; [|right; tauto].
  apply mark_pebs_nth in Ez. rewrite Z2Nat.id in Ez by lia.
  destruct Ez as [Ez | Ez]; [|right; tauto].
  apply mark_pebs_nth in Ez. rewrite Z2Nat.id in Ez by lia.
  destruct Ez as [Ez | Ez]; [|right; tauto].
  apply mark_trees_nth in Ez. rewrite Z2Nat.id in Ez by lia.
  destruct Ez as [Ez | (av & Hin & Hpn)].
  - apply Hbad in Ez. rewrite Z2Nat.id in Ez by lia.
    destruct Ez as [Ez | Ez]; [|left; exact Ez].
    exfalso. apply Ez. apply nth_repeat.
  - right. left. apply in_concat.
    exists (map aeb_pnum (rb_inorder (av_root av))). split; [|exact Hpn].
    apply in_map_iff. exists av. split; [reflexivity | exact Hin].
Qed.

End SelfCheck.

(** * Every PEB is recorded once *)

(** A store through a volume pointer replaces that volume and no
    other. *)
Lemma av_store_split (av0 av : ubi_ainf_volume) (ai : ubi_attach_info) :
  StronglySorted Z.gt (vol_ids (ai_volumes ai)) ->
  In av0 (rb_inorder (ai_volumes ai)) ->
  av_vol_id av = av_vol_id av0 ->
  exists l1 l2,
    rb_inorder (ai_volumes ai) = l1 ++ av0 :: l2 /\
    rb_inorder (ai_volumes (av_store av ai)) = l1 ++ av :: l2.
Proof.
  intros Hs Hin Hk.
  destruct (in_split _ _ Hin) as (l1 & l2 & E).
  exists l1, l2. split; [exact E|].
  unfold av_store. simpl. rewrite rb_map_inorder.
  unfold vol_ids in Hs. rewrite E in Hs. rewrite E.
  rewrite map_app in Hs. simpl in Hs.
  apply StronglySorted_app in Hs. destruct Hs as (_ & H2 & H1).
  inversion H2 as [|? ? _ Hgt]; subst.
  rewrite map_app. simpl. rewrite Hk, Z.eqb_refl. f_equal; [|f_equal].
  - rewrite <- (map_id l1) at 2. apply map_ext_in. intros v Hv.
    rewrite Forall_forall in H1. specialize (H1 _ (in_map av_vol_id _ _ Hv)).
    inversion H1 as [|? ? Hv0 _]; subst.
    destruct (Z.eqb_spec (av_vol_id v) (av_vol_id av0)); [lia | reflexivity].
  - rewrite <- (map_id l2) at 2. apply map_ext_in. intros v Hv.
    rewrite Forall_forall in Hgt. specialize (Hgt _ (in_map av_vol_id _ _ Hv)).
    destruct (Z.eqb_spec (av_vol_id v) (av_vol_id av0)); [lia | reflexivity].
Qed.

(** The PEB numbers of the LEBs of the volumes. *)
Definition tree_pnums (t : rb_root ubi_ainf_volume) : list Z :=
  concat (map (fun av => map aeb_pnum (rb_inorder (av_root av))) (rb_inorder t)).

(** The PEB numbers an attach info has a record of: [ai_pnums] and
    the waiting list. *)
Definition ai_records (ai : ubi_attach_info) : list Z :=
  tree_pnums (ai_volumes ai)
  ++ map aeb_pnum (ai_free ai) ++ map aeb_pnum (ai_corr ai)
  ++ map aeb_pnum (ai_erase ai) ++ map aeb_pnum (ai_alien ai)
  ++ map aeb_pnum (ai_waiting ai).

(** One PEB more on record, the bad PEBs counted as before. *)
Definition peb_recorded (pnum : Z) (ai ai' : ubi_attach_info) : Prop :=
  Permutation (ai_records ai') (pnum :: ai_records ai) /\
  bad_peb_count ai' = bad_peb_count ai.

Abbreviation pcount := (count_occ Z.eq_dec).

Lemma peb_recorded_count (pnum : Z) (ai ai' : ubi_attach_info) :
  (forall p, pcount (ai_records ai') p = pcount (pnum :: ai_records ai) p) ->
  bad_peb_count ai' = bad_peb_count ai ->
  peb_recorded pnum ai ai'.
Proof.
  intros H Hb. split; [|exact Hb]. apply (Permutation_count_occ Z.eq_dec). exact H.
Qed.

Lemma tree_pnums_split (t : rb_root ubi_ainf_volume) (l1 l2 : list ubi_ainf_volume)
    (av : ubi_ainf_volume) (p : Z) :
  rb_inorder t = l1 ++ av :: l2 ->
  pcount (tree_pnums t) p =
  (pcount (concat (map (fun av => map aeb_pnum (rb_inorder (av_root av))) l1)) p
   + pcount (map aeb_pnum (rb_inorder (av_root av))) p
   + pcount (concat (map (fun av => map aeb_pnum (rb_inorder (av_root av))) l2)) p)%nat.
Proof.
  intros E. unfold tree_pnums. rewrite E, map_app, concat_app. simpl.
  rewrite !count_occ_app. lia.
Qed.

Ltac pcount_norm :=
  repeat (rewrite ?map_app, ?count_occ_app; cbn [map count_occ]);
  repeat match goal with
    | |- context [Z.eq_dec ?a ?b] => destruct (Z.eq_dec a b)
    end;
  cbn in *; try lia.

Section Accounting.

Context {RB : RbTreeLib}.
Variable P : ubi_platform.

Lemma add_to_list_recorded ubi ai pnum vol_id lnum ec to_head lst err ubi' ai' :
  add_to_list P ubi ai pnum vol_id lnum ec to_head lst = (err, ubi', ai') ->
  0 <= err ->
  peb_recorded pnum ai ai' /\ ai_volumes ai' = ai_volumes ai.
Proof.
  unfold add_to_list, kmem_cache_alloc. intros H Herr.
  destruct (slab_alloc P (allocs ubi)) as [obj|];
    [|inversion H; subst; unfold ENOMEM in Herr; lia].
  destruct lst; destruct (to_head !=? 0); inversion H; subst;
    (split; [apply peb_recorded_count; [|reflexivity] | reflexivity]);
    intros p; unfold ai_records, list_add, list_add_tail; simpl; pcount_norm.
Qed.

Lemma add_corrupted_recorded ubi ai pnum ec err ubi' ai' :
  add_corrupted P ubi ai pnum ec = (err, ubi', ai') ->
  0 <= err ->
  peb_recorded pnum ai ai' /\ ai_volumes ai' = ai_volumes ai.
Proof.
  unfold add_corrupted, kmem_cache_alloc. intros H Herr.
  destruct (slab_alloc P (allocs ubi)) as [obj|];
    [|inversion H; subst; unfold ENOMEM in Herr; lia].
  inversion H; subst.
  split; [apply peb_recorded_count; [|reflexivity] | reflexivity].
  intros p. unfold ai_records, list_add; simpl; pcount_norm.
Qed.

Lemma validate_vid_hdr_result (vid_hdr : ubi_vid_hdr) (av : ubi_ainf_volume) (pnum : Z) :
  validate_vid_hdr vid_hdr av pnum = 0 \/
  validate_vid_hdr vid_hdr av pnum = - EINVAL.
Proof.
  unfold validate_vid_hdr.
  repeat break_match; (left; reflexivity) || (right; reflexivity).
Qed.

(** A volume [add_volume] makes has no LEB: the records stay as they
    are. *)
Lemma add_volume_records ubi ai vol_id pnum vid_hdr r ubi' ai' :
  add_volume P ubi ai vol_id pnum vid_hdr = (r, ubi', ai') ->
  ai_records ai' = ai_records ai /\ bad_peb_count ai' = bad_peb_count ai.
Proof.
  intros H.
  destruct (rb_walk (vol_cmp vol_id) (ai_volumes ai)) as [a|] eqn:Ew.
  { unfold add_volume in H. rewrite Ew in H. inversion H; subst.
    split; reflexivity. }
  destruct (add_volume_made _ _ _ _ _ _ _ _ _ H Ew) as [-> | (obj & _ & ->)];
    [split; reflexivity|].
  destruct (rb_link_node_elems (vol_cmp vol_id) (new_volume obj vol_id vid_hdr) _ Ew)
    as (l1 & l2 & E1 & E2).
  assert (Et : tree_pnums
                 (rb_insert_color (new_volume obj vol_id vid_hdr)
                    (rb_link_node (vol_cmp vol_id) (new_volume obj vol_id vid_hdr)
                       (ai_volumes ai)))
               = tree_pnums (ai_volumes ai)).
  { unfold tree_pnums. rewrite rb_insert_color_inorder, E1, E2, !map_app, !concat_app.
    reflexivity. }
  unfold ai_records.
  destruct (vol_id >? highest_vol_id ai); simpl; rewrite Et; split; reflexivity.
Qed.

Lemma add_to_list_result ubi ai pnum vol_id lnum ec to_head lst err ubi' ai' :
  add_to_list P ubi ai pnum vol_id lnum ec to_head lst = (err, ubi', ai') ->
  err = 0 \/ err = - ENOMEM.
Proof.
  unfold add_to_list, kmem_cache_alloc. intros H.
  destruct (slab_alloc P (allocs ubi)); [|inversion H; right; reflexivity].
  destruct (to_head !=? 0); inversion H; left; reflexivity.
Qed.

Lemma add_corrupted_result ubi ai pnum ec err ubi' ai' :
  add_corrupted P ubi ai pnum ec = (err, ubi', ai') ->
  err = 0 \/ err = - ENOMEM.
Proof.
  unfold add_corrupted, kmem_cache_alloc. intros H.
  destruct (slab_alloc P (allocs ubi)); inversion H; [left | right]; reflexivity.
Qed.

Ltac refute_negative :=
  exfalso;
  match goal with
  | Hge : 0 <= _ |- _ => lia
  | Hge : 0 <= - EINVAL |- _ => unfold EINVAL in Hge; lia
  | Hge : 0 <= - ENOMEM |- _ => unfold ENOMEM in Hge; lia
  | Hlt : (?z <? 0) = true, Hge : 0 <= ?z |- _ => apply Z.ltb_lt in Hlt; lia
  | Hv : (validate_vid_hdr ?v ?a ?p !=? 0) = true,
    Hge : 0 <= validate_vid_hdr ?v ?a ?p |- _ =>
      destruct (validate_vid_hdr_result v a p) as [E | E]; rewrite E in Hv, Hge;
      [discriminate | unfold EINVAL in Hge; lia]
  | Ha : add_to_list _ _ _ _ _ _ _ _ _ = (?e, _, _),
    Hne : (?e !=? 0) = true, Hge : 0 <= ?e |- _ =>
      destruct (add_to_list_result _ _ _ _ _ _ _ _ _ _ _ Ha) as [E | E];
      rewrite E in Hne, Hge; [discriminate | unfold ENOMEM in Hge; lia]
  | Ha : add_corrupted _ _ _ _ _ = (?e, _, _),
    Hne : (?e !=? 0) = true, Hge : 0 <= ?e |- _ =>
      destruct (add_corrupted_result _ _ _ _ _ _ _ Ha) as [E | E];
      rewrite E in Hne, Hge; [discriminate | unfold ENOMEM in Hge; lia]
  end.

(** A store through a volume pointer exchanges the records of that
    volume. *)
Lemma av_store_records (av av' : ubi_ainf_volume) (ai : ubi_attach_info) (p : Z) :
  StronglySorted Z.gt (vol_ids (ai_volumes ai)) ->
  In av (rb_inorder (ai_volumes ai)) ->
  av_vol_id av' = av_vol_id av ->
  (pcount (ai_records (av_store av' ai)) p
   + pcount (map aeb_pnum (rb_inorder (av_root av))) p
   = pcount (ai_records ai) p
     + pcount (map aeb_pnum (rb_inorder (av_root av'))) p)%nat.
Proof.
  intros Hs Hin Hk.
  destruct (av_store_split av av' ai Hs Hin Hk) as (l1 & l2 & E1 & E2).
  unfold ai_records. rewrite !count_occ_app.
  rewrite (tree_pnums_split _ l1 l2 av p E1), (tree_pnums_split _ l1 l2 av' p E2).
  unfold av_store. simpl. lia.
Qed.

Lemma ubi_add_to_av_recorded ubi ai pnum ec vid_hdr bitflips err ubi' ai' :
  volumes_sorted (ai_volumes ai) ->
  ubi_add_to_av P ubi ai pnum ec vid_hdr bitflips = (err, ubi', ai') ->
  0 <= err ->
  peb_recorded pnum ai ai'.
Proof.
  intros Hs. unfold ubi_add_to_av.
  destruct (add_volume _ _ _ _ _ _) as [[r u] a] eqn:Ev.
  destruct (add_volume_records _ _ _ _ _ _ _ _ Ev) as [Er Eb].
  destruct r as [av | e].
  2:{ apply add_volume_cases in Ev.
      destruct Ev as [(? & E & _) | [(? & E & _) | [E _]]]; try discriminate.
      inversion E; subst. intros H Herr. inversion H; subst.
      unfold ENOMEM in Herr. lia. }
  destruct (add_volume_sorted _ _ _ _ _ _ _ _ _ Hs Ev) as ([Hs1 _] & Hin & Hk).
  set (a1 := if max_sqnum a <? vh_sqnum vid_hdr
             then set_max_sqnum (vh_sqnum vid_hdr) a else a).
  assert (Ha1 : ai_volumes a1 = ai_volumes a /\ ai_records a1 = ai_records ai /\
                bad_peb_count a1 = bad_peb_count ai).
  { unfold a1. destruct (max_sqnum a <? vh_sqnum vid_hdr); repeat split; assumption. }
  clearbody a1. destruct Ha1 as (Ev1 & Er1 & Eb1).
  rewrite <- Ev1 in Hs1, Hin.
  repeat break_match; intros H Herr; inversion H; subst; try refute_negative;
    try match goal with
      | |- context [rb_assign ?c ?x ?t] => set (aeb' := x) in *
      | |- context [rb_link_node ?c ?x ?t] => set (aeb' := x) in *
      end;
    try match goal with
      | |- peb_recorded _ _ (av_store ?x _) => set (av2 := x) in *
      end.
  - apply negb_false_iff, Z.eqb_eq in Heqb3. subst z0.
    destruct (add_to_list_recorded _ _ _ _ _ _ _ _ _ _ _ Heqp0 (Z.le_refl 0))
      as [[Hperm Hbad] Hvol].
    destruct (rb_assign_split (lnum_cmp (to_s32 (vh_lnum vid_hdr))) aeb' _ u0 Heqo)
      as (m1 & m2 & E1 & E2).
    rewrite <- Hvol in Hs1, Hin.
    apply peb_recorded_count; [|unfold av_store; simpl; congruence].
    intros p.
    pose proof (av_store_records av av2 u2 p Hs1 Hin eq_refl) as Hc.
    apply (Permutation_count_occ Z.eq_dec) with (x := p) in Hperm.
    rewrite Er1 in Hperm.
    unfold av2 in Hc at 2. cbn [av_root set_av_root set_av_last_data_size] in Hc.
    rewrite E1, E2 in Hc. unfold aeb' in Hc. revert Hc Hperm. pcount_norm.
  - apply negb_false_iff, Z.eqb_eq in Heqb3. subst z0.
    destruct (add_to_list_recorded _ _ _ _ _ _ _ _ _ _ _ Heqp0 (Z.le_refl 0))
      as [[Hperm Hbad] Hvol].
    destruct (rb_assign_split (lnum_cmp (to_s32 (vh_lnum vid_hdr))) aeb' _ u0 Heqo)
      as (m1 & m2 & E1 & E2).
    rewrite <- Hvol in Hs1, Hin.
    apply peb_recorded_count; [|unfold av_store; simpl; congruence].
    intros p.
    pose proof (av_store_records av av2 u2 p Hs1 Hin eq_refl) as Hc.
    apply (Permutation_count_occ Z.eq_dec) with (x := p) in Hperm.
    rewrite Er1 in Hperm.
    unfold av2 in Hc at 2. cbn [av_root set_av_root set_av_last_data_size] in Hc.
    rewrite E1, E2 in Hc. unfold aeb' in Hc. revert Hc Hperm. pcount_norm.
  - destruct (add_to_list_recorded _ _ _ _ _ _ _ _ _ _ _ H Herr) as [[Hperm Hbad] _].
    split; [rewrite <- Er1; exact Hperm | congruence].
  - destruct (rb_link_node_elems (lnum_cmp (to_s32 (vh_lnum vid_hdr))) aeb' _ Heqo)
      as (m1 & m2 & E1 & E2).
    apply peb_recorded_count; [|unfold av_store; simpl; congruence].
    intros p.
    pose proof (av_store_records av av2 a1 p Hs1 Hin eq_refl) as Hc.
    unfold av2 in Hc at 2.
    cbn [av_root set_av_root set_av_last_data_size set_av_leb_count
         set_av_highest_lnum] in Hc.
    rewrite rb_insert_color_inorder, E2 in Hc. rewrite E1 in Hc.
    unfold aeb' in Hc. rewrite <- Er1. revert Hc. pcount_norm.
  - destruct (rb_link_node_elems (lnum_cmp (to_s32 (vh_lnum vid_hdr))) aeb' _ Heqo)
      as (m1 & m2 & E1 & E2).
    apply peb_recorded_count; [|unfold av_store; simpl; congruence].
    intros p.
    pose proof (av_store_records av av2 a1 p Hs1 Hin eq_refl) as Hc.
    unfold av2 in Hc at 2.
    cbn [av_root set_av_root set_av_last_data_size set_av_leb_count
         set_av_highest_lnum] in Hc.
    rewrite rb_insert_color_inorder, E2 in Hc. rewrite E1 in Hc.
    unfold aeb' in Hc. rewrite <- Er1. revert Hc. pcount_norm.
Qed.

(** The fields [peb_recorded] reads. *)
Definition records_view (ai : ubi_attach_info) : list Z * Z :=
  (ai_records ai, bad_peb_count ai).

Lemma peb_recorded_view (pnum : Z) (a a' b b' : ubi_attach_info) :
  records_view b = records_view a -> records_view b' = records_view a' ->
  peb_recorded pnum a a' -> peb_recorded pnum b b'.
Proof.
  unfold records_view, peb_recorded. intros E E'.
  inversion E as [[E1 E2]]. inversion E' as [[E1' E2']].
  rewrite E1, E2, E1', E2'. exact (fun H => H).
Qed.

Lemma adjust_mean_ec_records_view (ai : ubi_attach_info) (ec_err ec : Z) :
  records_view (adjust_mean_ec ai ec_err ec) = records_view ai.
Proof.
  unfold adjust_mean_ec.
  destruct (ec_err =? 0); [|reflexivity].
  simpl. destruct (ec >? max_ec ai); simpl;
    repeat match goal with |- context [if ?c then _ else _] => destruct c end;
    reflexivity.
Qed.

Ltac recorded_close :=
  repeat match goal with
    | H : (_ !=? 0) = false |- _ => apply negb_false_iff, Z.eqb_eq in H; subst
    end;
  repeat match goal with
    | H : context [if ?c then _ else _] |- _ => destruct c
    end;
  match goal with
  | Ha : add_to_list _ _ _ _ _ _ _ _ _ = _ |- _ =>
      apply add_to_list_recorded in Ha; [destruct Ha as [Ha _] | lia];
      eapply peb_recorded_view; [| |exact Ha]
  | Ha : add_corrupted _ _ _ _ _ = _ |- _ =>
      apply add_corrupted_recorded in Ha; [destruct Ha as [Ha _] | lia];
      eapply peb_recorded_view; [| |exact Ha]
  end;
  rewrite ?adjust_mean_ec_records_view; reflexivity.

Lemma scan_peb_admit_recorded ubi ai pnum ec vidh bitflips ec_err err ubi' ai' :
  volumes_sorted (ai_volumes ai) ->
  scan_peb_admit P ubi ai pnum ec vidh bitflips ec_err = (err, ubi', ai') ->
  0 <= err ->
  peb_recorded pnum ai ai'.
Proof.
  intros Hs. unfold scan_peb_admit.
  destruct (ubi_add_to_av _ _ _ _ _ _ _) as [[e u] a] eqn:E.
  destruct (e !=? 0) eqn:Ee; intros H Herr; inversion H; subst.
  - eapply ubi_add_to_av_recorded; eassumption.
  - apply negb_false_iff, Z.eqb_eq in Ee. subst e.
    eapply peb_recorded_view;
      [reflexivity | apply adjust_mean_ec_records_view |].
    eapply ubi_add_to_av_recorded; [exact Hs | exact E | lia].
Qed.

Lemma scan_peb_vol_recorded ubi ai pnum ec vidh bitflips ec_err err ubi' ai' :
  volumes_sorted (ai_volumes ai) ->
  scan_peb_vol P ubi ai pnum ec vidh bitflips ec_err = (err, ubi', ai') ->
  0 <= err ->
  peb_recorded pnum ai ai'.
Proof.
  intros Hs. unfold scan_peb_vol.
  repeat break_match; intros H Herr;
    try (eapply scan_peb_admit_recorded; eassumption);
    inversion H; subst; try refute_negative; recorded_close.
Qed.

Lemma scan_peb_vid_recorded ubi ai pnum ec bitflips ec_err err ubi' ai' :
  volumes_sorted (ai_volumes ai) ->
  scan_peb_vid P ubi ai pnum ec bitflips ec_err = (err, ubi', ai') ->
  0 <= err ->
  peb_recorded pnum ai ai'.
Proof.
  intros Hs. unfold scan_peb_vid.
  repeat break_match; intros H Herr;
    try (eapply scan_peb_vol_recorded; eassumption);
    inversion H; subst; try refute_negative; recorded_close.
Qed.

(** One round of the scan: the PEB is put on record, or counted as bad. *)
Lemma scan_peb_records ubi ai pnum err ubi' ai' :
  volumes_sorted (ai_volumes ai) ->
  scan_peb P ubi ai pnum = (err, ubi', ai') ->
  0 <= err ->
  (io_is_bad P (now ubi) pnum = 0 /\ peb_recorded pnum ai ai') \/
  (0 < io_is_bad P (now ubi) pnum /\
   ai_records ai' = ai_records ai /\
   bad_peb_count ai' = to_s32 (bad_peb_count ai + 1)).
Proof.
  intros Hs. unfold scan_peb, scan_peb_ec, ubi_io_is_bad.
  destruct (Z.ltb_spec (io_is_bad P (now ubi) pnum) 0) as [Hneg | Hpos];
    [intros H Herr; inversion H; subst; lia|].
  destruct (Z.eqb_spec (io_is_bad P (now ubi) pnum) 0) as [E0 | E0]; simpl.
  2:{ intros H _. inversion H; subst. right. repeat split. lia. }
  intros H Herr. left. split; [exact E0|]. revert H Herr.
  repeat break_match; intros H Herr;
    try (eapply scan_peb_vid_recorded; eassumption);
    inversion H; subst; try refute_negative; recorded_close.
Qed.

(** X9: a PEB that [scan_peb] accepts is put on record exactly once -
    as a LEB of a volume (where it may displace an older copy to the
    erase list) or on one of the lists - unless the flash reports it
    bad, and then it is counted in [bad_peb_count] and not recorded. *)
Theorem scan_peb_recorded ubi ai pnum err ubi' ai' :
  volumes_sorted (ai_volumes ai) ->
  scan_peb P ubi ai pnum = (err, ubi', ai') ->
  0 <= err ->
  (io_is_bad P (now ubi) pnum = 0 /\
   Permutation (ai_records ai') (pnum :: ai_records ai) /\
   bad_peb_count ai' = bad_peb_count ai) \/
  (0 < io_is_bad P (now ubi) pnum /\
   ai_records ai' = ai_records ai /\
   bad_peb_count ai' = to_s32 (bad_peb_count ai + 1)).
Proof.
  intros Hs H Herr.
  destruct (scan_peb_records _ _ _ _ _ _ Hs H Herr) as [(Hok & Hperm & Hbad) | Hb].
  - left. split; [exact Hok|]. split; [exact Hperm | exact Hbad].
  - right. exact Hb.
Qed.


(** The PEB numbers [pnum], [pnum + 1], ... of [n] iterations. *)
Fixpoint peb_range (pnum : Z) (n : nat) : list Z :=
  match n with
  | O => []
  | S n' => pnum :: peb_range (pnum + 1) n'
  end.

Lemma to_s32_add_l (x y : Z) : to_s32 (to_s32 x + y) = to_s32 (x + y).
Proof.
  unfold to_s32.
  replace ((x + 2 ^ 31) mod 2 ^ 32 - 2 ^ 31 + y + 2 ^ 31)
    with ((x + 2 ^ 31) mod 2 ^ 32 + y) by lia.
  replace (x + y + 2 ^ 31) with ((x + 2 ^ 31) + y) by lia.
  rewrite Zplus_mod_idemp_l. reflexivity.
Qed.

(** What a run of [scan_pebs] that did not fail leaves: the PEBs it
    went over are on record, but for those reported bad, which are
    counted. *)
Definition pebs_accounted (pebs : list Z) (ai ai' : ubi_attach_info) : Prop :=
  exists bad,
    Permutation (ai_records ai' ++ bad) (pebs ++ ai_records ai) /\
    Forall (fun p => exists t, 0 < io_is_bad P t p) bad /\
    bad_peb_count ai' = to_s32 (bad_peb_count ai + Z.of_nat (length bad)).

Lemma scan_pebs_recorded (n : nat) :
  forall ubi ai pnum err ubi' ai',
    ai_counted ai ->
    - 2 ^ 31 <= bad_peb_count ai <= INT_MAX ->
    scan_pebs P n ubi ai pnum = (err, ubi', ai') ->
    0 <= err ->
    pebs_accounted (peb_range pnum n) ai ai'.
Proof.
  induction n as [|n IH]; simpl; intros ubi ai pnum err ubi' ai' Hc Hb H Herr.
  - inversion H; subst. exists []. rewrite app_nil_r. simpl.
    split; [apply Permutation_refl | split; [constructor|]].
    rewrite Z.add_0_r, to_s32_id; [reflexivity | exact Hb].
  - destruct (scan_peb P ubi ai pnum) as [[e u] a] eqn:E.
    pose proof (scan_peb_counted _ _ _ _ _ _ _ Hc E) as Hc1.
    destruct (Z.ltb_spec e 0) as [Hneg | Hpos]; [inversion H; subst; lia|].
    destruct (scan_peb_records _ _ _ _ _ _ (proj1 Hc) E Hpos)
      as [(_ & Hperm & Hbad) | (Hisbad & Hrec & Hbad)].
    + assert (Hb1 : - 2 ^ 31 <= bad_peb_count a <= INT_MAX) by (rewrite Hbad; exact Hb).
      destruct (IH _ _ _ _ _ _ Hc1 Hb1 H Herr) as (bad & Hp & Hf & Hn).
      exists bad. split; [|split; [exact Hf | rewrite Hn, Hbad; reflexivity]].
      eapply Permutation_trans; [exact Hp|].
      eapply Permutation_trans;
        [apply Permutation_app_head; exact Hperm|].
      apply Permutation_sym, Permutation_middle.
    + assert (Hb1 : - 2 ^ 31 <= bad_peb_count a <= INT_MAX)
        by (rewrite Hbad; apply to_s32_range).
      destruct (IH _ _ _ _ _ _ Hc1 Hb1 H Herr) as (bad & Hp & Hf & Hn).
      exists (pnum :: bad).
      split; [|split].
      * rewrite Hrec in Hp.
        eapply Permutation_trans; [apply Permutation_sym, Permutation_middle|].
        constructor. exact Hp.
      * constructor; [exists (now ubi); exact Hisbad | exact Hf].
      * rewrite Hn, Hbad, to_s32_add_l. f_equal. simpl length. lia.
Qed.

Lemma late_analysis_records_view ubi ai err ubi' ai' :
  late_analysis P ubi ai = (err, ubi', ai') -> records_view ai' = records_view ai.
Proof.
  unfold late_analysis.
  repeat break_match; intros H; inversion H; reflexivity.
Qed.

Lemma fill_unknown_ec_records (ai : ubi_attach_info) :
  records_view (fill_unknown_ec ai) = records_view ai.
Proof.
  assert (Hm : forall l, map aeb_pnum (map (fill_ec (mean_ec ai)) l) = map aeb_pnum l).
  { intros l. rewrite map_map. apply map_ext. intros a. apply fill_ec_fields. }
  unfold records_view, ai_records, tree_pnums, fill_unknown_ec. simpl.
  rewrite !Hm, rb_map_inorder, map_map. simpl.
  f_equal. f_equal. f_equal. apply map_ext. intros av.
  rewrite rb_map_inorder. apply Hm.
Qed.

(** X10: a scan that succeeds accounts for every PEB from [start] to
    the end of the device exactly once: the PEB numbers on record
    afterwards (LEBs of volumes, free, corrupted, erase, alien and
    waiting lists) together with those reported bad are, up to order,
    the scanned PEB numbers and what was on record before, and
    [bad_peb_count] has grown by the number of bad ones. *)
Theorem scan_all_accounts ubi ai start ubi' ai' :
  ai_counted ai ->
  - 2 ^ 31 <= bad_peb_count ai <= INT_MAX ->
  scan_all P ubi ai start = (0, ubi', ai') ->
  pebs_accounted (peb_range start (Z.to_nat (peb_count ubi - start))) ai ai'.
Proof.
  intros Hc Hb H.
  destruct (scan_all_success _ _ _ _ _ _ H)
    as (ubi0 & ubi1 & ai1 & ubi2 & ai2 & _ & Hscan & Hlate & -> & _).
  destruct (scan_pebs_recorded _ _ _ _ _ _ _ Hc Hb Hscan (Z.le_refl 0))
    as (bad & Hp & Hf & Hn).
  apply late_analysis_records_view in Hlate.
  assert (Ev : records_view (fill_unknown_ec ai2) = records_view ai1).
  { rewrite fill_unknown_ec_records, Hlate.
    destruct (ec_count ai1 !=? 0); reflexivity. }
  pose proof (f_equal fst Ev) as E1. pose proof (f_equal snd Ev) as E2.
  unfold records_view in E1, E2. cbn [fst snd] in E1, E2.
  exists bad. rewrite E1, E2. split; [exact Hp | split; [exact Hf | exact Hn]].
Qed.

End Accounting.

(** * Two copies of one LEB *)

(** The descent over a tree whose entries were rewritten without a
    change of their keys. *)
Lemma rb_walk_map {A} (cmp : A -> rb_step) (f : A -> A) (t : rb_root A) :
  (forall x, cmp (f x) = cmp x) ->
  rb_walk cmp (rb_map f t) = option_map f (rb_walk cmp t).
Proof.
  intros Hf. induction t as [|c l IHl x r IHr]; simpl; [reflexivity|].
  rewrite Hf. destruct (cmp x); [exact IHl | exact IHr | reflexivity].
Qed.

(** The descent finds what was stored where it had stopped. *)
Lemma rb_walk_assign {A} (cmp : A -> rb_step) (node old : A) (t : rb_root A) :
  rb_walk cmp t = Some old -> cmp node = FOUND ->
  rb_walk cmp (rb_assign cmp node t) = Some node.
Proof.
  intros Hw Hn. induction t as [|c l IHl x r IHr]; simpl in *; [discriminate|].
  destruct (cmp x) eqn:E; simpl; rewrite ?E, ?Hn; auto.
Qed.

Lemma vol_cmp_store (vol_id : Z) (av v : ubi_ainf_volume) :
  vol_cmp vol_id (if av_vol_id v =? av_vol_id av then av else v) = vol_cmp vol_id v.
Proof.
  unfold vol_cmp.
  destruct (Z.eqb_spec (av_vol_id v) (av_vol_id av)) as [E | E];
    [rewrite E|]; reflexivity.
Qed.

(** A store through the volume pointer the descent returned is seen by
    the next descent. *)
Lemma find_av_store (ai : ubi_attach_info) (vol_id : Z) (av av' : ubi_ainf_volume) :
  ubi_find_av ai vol_id = Some av -> av_vol_id av' = av_vol_id av ->
  ubi_find_av (av_store av' ai) vol_id = Some av'.
Proof.
  unfold ubi_find_av, av_store. rewrite !find_av_loop_walk. simpl. intros Hw Hk.
  rewrite rb_walk_map by (intros x; apply vol_cmp_store).
  rewrite Hw. simpl. rewrite Hk, Z.eqb_refl. reflexivity.
Qed.

Section Copies.

Context {RB : RbTreeLib}.
Variable P : ubi_platform.

(** X11: a newer PEB replaces an older one.  When the volume holds the
    LEB with a lower sequence number, the new PEB is no copy
    ([copy_flag] clear), its header agrees with the volume and a record
    can be allocated, [ubi_add_to_av] returns 0 without reading the
    flash: the LEB is now the new PEB, with its erase counter and
    sequence number, the volume has as many LEBs as before, and the old
    PEB is at the tail of the erase list with its erase counter. *)
Theorem ubi_add_to_av_newer_replaces ubi ai pnum ec vid_hdr bitflips av old obj :
  let vol_id := to_s32 (vh_vol_id vid_hdr) in
  let lnum := to_s32 (vh_lnum vid_hdr) in
  ubi_find_av ai vol_id = Some av ->
  rb_walk (lnum_cmp lnum) (av_root av) = Some old ->
  aeb_sqnum old < vh_sqnum vid_hdr ->
  vh_copy_flag vid_hdr = 0 ->
  validate_vid_hdr vid_hdr av pnum = 0 ->
  slab_alloc P (allocs ubi) = Some obj ->
  exists ai' av' aeb',
    ubi_add_to_av P ubi ai pnum ec vid_hdr bitflips = (0, alloc_done ubi, ai') /\
    ubi_find_av ai' vol_id = Some av' /\
    rb_walk (lnum_cmp lnum) (av_root av') = Some aeb' /\
    aeb_pnum aeb' = pnum /\ aeb_ec aeb' = ec /\ aeb_sqnum aeb' = vh_sqnum vid_hdr /\
    aeb_lnum aeb' = lnum /\
    av_leb_count av' = av_leb_count av /\
    map aeb_pnum (ai_erase ai') = map aeb_pnum (ai_erase ai) ++ [aeb_pnum old] /\
    map aeb_ec (ai_erase ai') = map aeb_ec (ai_erase ai) ++ [aeb_ec old].
Proof.
  cbv zeta. intros Hv Hl Hsq Hcopy Hval Hslab.
  unfold ubi_find_av in Hv. rewrite find_av_loop_walk in Hv.
  unfold ubi_add_to_av, add_volume. rewrite Hv, Hl.
  assert (E1 : (aeb_sqnum old =? vh_sqnum vid_hdr) = false) by (apply Z.eqb_neq; lia).
  rewrite E1. cbn [andb].
  unfold ubi_compare_lebs.
  assert (E2 : (vh_sqnum vid_hdr =? aeb_sqnum old) = false) by (apply Z.eqb_neq; lia).
  assert (E3 : (vh_sqnum vid_hdr >? aeb_sqnum old) = true)
    by (rewrite Z.gtb_ltb; apply Z.ltb_lt; exact Hsq).
  rewrite E2, E3, Hcopy, Hval. simpl.
  unfold add_to_list, kmem_cache_alloc. rewrite Hslab. simpl.
  match goal with
  | |- context [rb_assign ?c ?x ?t] => set (aeb' := x)
  end.
  match goal with
  | |- context [av_store ?x ?a] => set (av' := x); set (a2 := a)
  end.
  exists (av_store av' a2), av', aeb'.
  assert (Hk : av_vol_id av' = av_vol_id av)
    by (unfold av'; destruct (av_highest_lnum _ =? _); reflexivity).
  assert (Hroot : av_root av' = rb_assign (lnum_cmp (to_s32 (vh_lnum vid_hdr))) aeb' (av_root av))
    by (unfold av'; destruct (av_highest_lnum _ =? _); reflexivity).
  split; [reflexivity|]. split.
  { apply find_av_store with (av := av); [|exact Hk].
    unfold ubi_find_av. rewrite find_av_loop_walk.
    unfold a2. destruct (max_sqnum ai <? vh_sqnum vid_hdr); exact Hv. }
  split.
  { rewrite Hroot. apply rb_walk_assign with (old := old); [exact Hl|].
    unfold lnum_cmp, aeb'. simpl. rewrite Z.eqb_refl. reflexivity. }
  repeat split; try reflexivity.
  - unfold av'. destruct (av_highest_lnum _ =? _); reflexivity.
  - unfold a2, list_add_tail.
    destruct (max_sqnum ai <? vh_sqnum vid_hdr); simpl; rewrite map_app; reflexivity.
  - unfold a2, list_add_tail.
    destruct (max_sqnum ai <? vh_sqnum vid_hdr); simpl; rewrite map_app; reflexivity.
Qed.

(** X12: an older PEB is discarded.  When the volume holds the LEB
    with a higher sequence number and that PEB is no copy, the new PEB
    goes to the tail of the erase list with its erase counter, whatever
    its header says otherwise; the volumes stay as they are and the
    flash is not read. *)
Theorem ubi_add_to_av_older_discarded ubi ai pnum ec vid_hdr bitflips av old obj :
  let vol_id := to_s32 (vh_vol_id vid_hdr) in
  let lnum := to_s32 (vh_lnum vid_hdr) in
  ubi_find_av ai vol_id = Some av ->
  rb_walk (lnum_cmp lnum) (av_root av) = Some old ->
  vh_sqnum vid_hdr < aeb_sqnum old ->
  aeb_copy_flag old = false ->
  slab_alloc P (allocs ubi) = Some obj ->
  exists ai',
    ubi_add_to_av P ubi ai pnum ec vid_hdr bitflips = (0, alloc_done ubi, ai') /\
    ai_volumes ai' = ai_volumes ai /\
    ai_erase ai' =
      ai_erase ai ++
      [set_aeb_ec ec (set_aeb_lnum lnum (set_aeb_vol_id vol_id (set_aeb_pnum pnum obj)))] /\
    ai_free ai' = ai_free ai /\ ai_corr ai' = ai_corr ai /\ ai_alien ai' = ai_alien ai.
Proof.
  cbv zeta. intros Hv Hl Hsq Hcopy Hslab.
  unfold ubi_find_av in Hv. rewrite find_av_loop_walk in Hv.
  unfold ubi_add_to_av, add_volume. rewrite Hv, Hl.
  assert (E1 : (aeb_sqnum old =? vh_sqnum vid_hdr) = false) by (apply Z.eqb_neq; lia).
  rewrite E1. cbn [andb].
  unfold ubi_compare_lebs.
  assert (E2 : (vh_sqnum vid_hdr =? aeb_sqnum old) = false) by (apply Z.eqb_neq; lia).
  assert (E3 : (vh_sqnum vid_hdr >? aeb_sqnum old) = false)
    by (rewrite Z.gtb_ltb; apply Z.ltb_ge; lia).
  rewrite E2, E3, Hcopy. simpl.
  unfold add_to_list, kmem_cache_alloc. rewrite Hslab. simpl.
  eexists. split; [reflexivity|].
  unfold list_add_tail.
  destruct (max_sqnum ai <? vh_sqnum vid_hdr); simpl; repeat split; reflexivity.
Qed.

(** The flash driver returns 0, [UBI_IO_BITFLIPS] or a negative error
    code from a read. *)
Definition io_read_codes : Prop :=
  forall t pnum offset len,
    fst (io_read P t pnum offset len) <= 0 \/
    fst (io_read P t pnum offset len) = UBI_IO_BITFLIPS.

Lemma compare_lebs_crc_bits ubi pnum vh (second : bool) bitflips r ubi' :
  io_read_codes ->
  bitflips = 0 \/ bitflips = 1 ->
  compare_lebs_crc P ubi pnum vh second bitflips = (r, ubi') ->
  0 <= r ->
  0 <= r <= 5 /\
  Z.testbit r 0 = xorb second (Z.testbit r 2) /\
  (Z.testbit r 2 = true -> Z.testbit r 1 = false).
Proof.
  intros Hio Hbf. unfold compare_lebs_crc, ubi_io_read_data, ubi_io_read.
  specialize (Hio (now ubi) pnum (to_s32 (0 + leb_start ubi))
                (to_s32 (vh_data_size vh))).
  destruct (io_read P (now ubi) pnum (to_s32 (0 + leb_start ubi))
              (to_s32 (vh_data_size vh))) as [err data].
  cbn [fst] in Hio.
  destruct ((err !=? 0) && (err !=? UBI_IO_BITFLIPS) && negb (mtd_is_eccerr err)) eqn:Eerr.
  { intros H Hr. inversion H; subst. exfalso.
    apply andb_true_iff in Eerr. destruct Eerr as [Eerr _].
    apply andb_true_iff in Eerr. destruct Eerr as [E0 Eb].
    apply negb_true_iff, Z.eqb_neq in E0. apply negb_true_iff, Z.eqb_neq in Eb.
    lia. }
  destruct (to_u32 (crc32 _ _) !=? _); intros H Hr; inversion H; subst; clear H.
  - destruct second; simpl; repeat split; try lia; discriminate.
  - destruct (err !=? 0); destruct second; destruct Hbf as [-> | ->]; simpl;
      repeat split; try lia; discriminate.
Qed.

(** X13: what a result of [ubi_compare_lebs] that is no error says,
    when the flash driver keeps to its return codes: the sequence
    numbers differ, the result is between 0 and 5, bit 0 - the second
    PEB is the one to keep - is "the second is newer" unless bit 2
    reports the newer one corrupted, and then bit 1 is clear. *)
Theorem ubi_compare_lebs_bits ubi aeb pnum vid_hdr r ubi' :
  io_read_codes ->
  ubi_compare_lebs P ubi aeb pnum vid_hdr = (r, ubi') ->
  0 <= r ->
  vh_sqnum vid_hdr <> aeb_sqnum aeb /\
  0 <= r <= 5 /\
  Z.testbit r 0 = xorb (vh_sqnum vid_hdr >? aeb_sqnum aeb) (Z.testbit r 2) /\
  (Z.testbit r 2 = true -> Z.testbit r 1 = false).
Proof.
  intros Hio. unfold ubi_compare_lebs, ubi_zalloc_vid_hdr, kzalloc, ubi_io_read_vid_hdr.
  destruct (Z.eqb_spec (vh_sqnum vid_hdr) (aeb_sqnum aeb)) as [E | E].
  { intros H Hr. inversion H; subst. unfold EINVAL in Hr. lia. }
  intros H Hr. split; [exact E|]. revert H Hr.
  destruct (vh_sqnum vid_hdr >? aeb_sqnum aeb).
  - destruct (vh_copy_flag vid_hdr =? 0).
    + intros H Hr. inversion H; subst. simpl. repeat split; try lia; discriminate.
    + intros H Hr.
      exact (compare_lebs_crc_bits _ _ _ _ _ _ _ Hio (or_introl eq_refl) H Hr).
  - destruct (aeb_copy_flag aeb); cbn [negb].
    2:{ intros H Hr. inversion H; subst. simpl. repeat split; try lia; discriminate. }
    destruct (kmalloc_ok P (allocs ubi));
      [|intros H Hr; inversion H; subst; unfold ENOMEM in Hr; lia].
    destruct (io_read_vid_hdr P (now (alloc_done ubi)) (aeb_pnum aeb)) as [e vh].
    destruct (e !=? 0) eqn:Ee.
    + destruct (e =? UBI_IO_BITFLIPS).
      * intros H Hr.
        exact (compare_lebs_crc_bits _ _ _ _ _ _ _ Hio (or_intror eq_refl) H Hr).
      * intros H Hr. inversion H; subst. exfalso.
        apply negb_true_iff, Z.eqb_neq in Ee. revert Hr.
        destruct (Z.gtb_spec e 0); unfold EIO; lia.
    + intros H Hr.
      exact (compare_lebs_crc_bits _ _ _ _ _ _ _ Hio (or_introl eq_refl) H Hr).
Qed.

End Copies.

(** * Taking a PEB before the wear-levelling is up

    [early_erase_peb] and [ubi_early_get_peb] write to the flash.  The
    writing side of the driver is a second collaborator; what it was
    asked to do is kept in a trace of its own. *)

(** [ubi_io_sync_erase(ubi, pnum, 0)] and [ubi_io_write_ec_hdr] of io.c,
    indexed by the number of writing calls made so far. *)
Record ubi_flash_writer : Type := mk_writer {
  io_sync_erase : nat -> Z -> Z;
  io_write_ec_hdr : nat -> Z -> ubi_ec_hdr -> Z
}.

Inductive wr_event : Type :=
| WR_SYNC_ERASE (pnum : Z)
| WR_EC_HDR (pnum : Z) (ec_hdr : ubi_ec_hdr).

Definition wr_pnum (e : wr_event) : Z :=
  match e with
  | WR_SYNC_ERASE pnum => pnum
  | WR_EC_HDR pnum _ => pnum
  end.

Definition ENOSPC : Z := 28.

Section EarlyGet.

Variable P : ubi_platform.
Variable W : ubi_flash_writer.

(** *** early_erase_peb *)

Definition early_erase_peb (ubi : ubi_device) (wlog : list wr_event) (pnum ec : Z)
    : Z * ubi_device * list wr_event :=
  if ec >=? UBI_MAX_ERASECOUNTER then (- EINVAL, ubi, wlog)
  else
    match kzalloc P ubi with
    | (false, ubi) => (- ENOMEM, ubi, wlog)
    | (true, ubi) =>
        let ec_hdr := mk_ec_hdr 0 (to_u64 ec) 0 in
        let err := io_sync_erase W (length wlog) pnum in
        let wlog := wlog ++ [WR_SYNC_ERASE pnum] in
        if err <? 0 then (err, ubi, wlog)
        else
          let err := io_write_ec_hdr W (length wlog) pnum ec_hdr in
          (err, ubi, wlog ++ [WR_EC_HDR pnum ec_hdr])
    end.

(** *** ubi_early_get_peb *)

(** The loop over the erase list: [seen] are the entries the loop has
    passed, [rest] those to come. *)
Fixpoint early_get_erase (mean : Z) (ubi : ubi_device) (wlog : list wr_event)
    (seen rest : list ubi_ainf_peb)
    : ptr_or_err ubi_ainf_peb * ubi_device * list wr_event * list ubi_ainf_peb :=
  match rest with
  | [] => (ERR_PTR (- ENOSPC), ubi, wlog, seen)
  | aeb :: rest' =>
      let aeb := if aeb_ec aeb =? UBI_UNKNOWN then set_aeb_ec mean aeb else aeb in
      let '(err, ubi, wlog) :=
        early_erase_peb ubi wlog (aeb_pnum aeb) (to_s32 (aeb_ec aeb + 1)) in
      if err !=? 0 then early_get_erase mean ubi wlog (seen ++ [aeb]) rest'
      else (PTR (set_aeb_ec (to_s32 (aeb_ec aeb + 1)) aeb), ubi, wlog, seen ++ rest')
  end.

Definition ubi_early_get_peb (ubi : ubi_device) (wlog : list wr_event)
    (ai : ubi_attach_info)
    : ptr_or_err ubi_ainf_peb * ubi_device * list wr_event * ubi_attach_info :=
  match ai_free ai with
  | aeb :: free' => (PTR aeb, ubi, wlog, set_ai_free free' ai)
  | [] =>
      let '(r, ubi, wlog, erase) :=
        early_get_erase (mean_ec ai) ubi wlog [] (ai_erase ai) in
      (r, ubi, wlog, set_ai_erase erase ai)
  end.

(** ** Properties *)

(** What [early_erase_peb] did when it returned 0: it erased the PEB and
    wrote the EC header with [ec], which is below the maximum. *)
Definition erased_with (wlog' : list wr_event) (pnum ec : Z) : Prop :=
  exists wl,
    wlog' = wl ++ [WR_SYNC_ERASE pnum; WR_EC_HDR pnum (mk_ec_hdr 0 (to_u64 ec) 0)] /\
    0 <= io_sync_erase W (length wl) pnum /\
    io_write_ec_hdr W (S (length wl)) pnum (mk_ec_hdr 0 (to_u64 ec) 0) = 0 /\
    ec < UBI_MAX_ERASECOUNTER.

Lemma early_erase_peb_spec ubi wlog pnum ec err ubi' wlog' :
  early_erase_peb ubi wlog pnum ec = (err, ubi', wlog') ->
  (exists new, wlog' = wlog ++ new /\ Forall (fun e => wr_pnum e = pnum) new) /\
  (err = 0 -> erased_with wlog' pnum ec).
Proof.
  unfold early_erase_peb, kzalloc.
  destruct (Z.geb_spec ec UBI_MAX_ERASECOUNTER) as [Hge | Hlt].
  { intros H. inversion H; subst. split; [exists []; rewrite app_nil_r; split; constructor|].
    unfold EINVAL. discriminate. }
  destruct (kmalloc_ok P (allocs ubi)).
  2:{ intros H. inversion H; subst. split; [exists []; rewrite app_nil_r; split; constructor|].
      unfold ENOMEM. discriminate. }
  destruct (Z.ltb_spec (io_sync_erase W (length wlog) pnum) 0) as [Hneg | Hpos].
  { intros H. inversion H; subst. split.
    - exists [WR_SYNC_ERASE pnum]. split; [reflexivity | repeat constructor].
    - intros E. lia. }
  intros H. inversion H; subst. split.
  - exists [WR_SYNC_ERASE pnum; WR_EC_HDR pnum (mk_ec_hdr 0 (to_u64 ec) 0)].
    split; [rewrite <- app_assoc; reflexivity | repeat constructor].
  - intros E. exists wlog. rewrite <- app_assoc. simpl.
    repeat split; try assumption.
    rewrite length_app, Nat.add_comm in E. exact E.
Qed.

(** The erase counter [ubi_early_get_peb] erases a PEB of the erase
    list with: one more than its own, or than the mean if it is
    unknown. *)
Definition next_ec (mean : Z) (aeb : ubi_ainf_peb) : Z :=
  to_s32 ((if aeb_ec aeb =? UBI_UNKNOWN then mean else aeb_ec aeb) + 1).

(** The loop of [ubi_early_get_peb] over the PEBs [l], from the device
    [ubi] and the trace [wlog] on, when it takes none of them: each was
    tried in its turn and [early_erase_peb] failed on it; [l'] are their
    records as the loop leaves them (an unknown erase counter replaced
    by the mean), [ubi1] and [wlog1] the device and the trace after the
    last of them. *)
Fixpoint tried_in_vain (mean : Z) (ubi : ubi_device) (wlog : list wr_event)
    (l l' : list ubi_ainf_peb) (ubi1 : ubi_device) (wlog1 : list wr_event) : Prop :=
  match l, l' with
  | [], [] => ubi1 = ubi /\ wlog1 = wlog
  | a :: l, a' :: l' =>
      a' = (if aeb_ec a =? UBI_UNKNOWN then set_aeb_ec mean a else a) /\
      exists err u wl,
        early_erase_peb ubi wlog (aeb_pnum a) (next_ec mean a) = (err, u, wl) /\
        err <> 0 /\
        tried_in_vain mean u wl l l' ubi1 wlog1
  | _, _ => False
  end.

Lemma early_get_erase_spec (mean : Z) (rest : list ubi_ainf_peb) :
  forall ubi wlog seen r ubi' wlog' erase',
    early_get_erase mean ubi wlog seen rest = (r, ubi', wlog', erase') ->
    (exists new,
       wlog' = wlog ++ new /\
       Forall (fun e => In (wr_pnum e) (map aeb_pnum rest)) new) /\
    match r with
    | ERR_PTR e =>
        e = - ENOSPC /\
        exists rest', erase' = seen ++ rest' /\ map aeb_pnum rest' = map aeb_pnum rest
    | PTR aeb =>
        exists l1 old l2 l1',
          rest = l1 ++ old :: l2 /\ erase' = seen ++ l1' ++ l2 /\
          map aeb_pnum l1' = map aeb_pnum l1 /\
          aeb_pnum aeb = aeb_pnum old /\ aeb_ec aeb = next_ec mean old /\
          aeb_lnum aeb = aeb_lnum old /\ aeb_vol_id aeb = aeb_vol_id old /\
          erased_with wlog' (aeb_pnum aeb) (aeb_ec aeb) /\
          exists ubi1 wlog1,
            tried_in_vain mean ubi wlog l1 l1' ubi1 wlog1 /\
            early_erase_peb ubi1 wlog1 (aeb_pnum old) (next_ec mean old)
              = (0, ubi', wlog')
    end.
Proof.
  induction rest as [|a rest IH]; simpl; intros ubi wlog seen r ubi' wlog' erase' H.
  - inversion H; subst. split.
    + exists []. rewrite app_nil_r. split; constructor.
    + split; [reflexivity|]. exists []. rewrite app_nil_r. split; reflexivity.
  - set (a' := if aeb_ec a =? UBI_UNKNOWN then set_aeb_ec mean a else a) in *.
    assert (Hp : aeb_pnum a' = aeb_pnum a /\ aeb_lnum a' = aeb_lnum a /\
                 aeb_vol_id a' = aeb_vol_id a /\
                 to_s32 (aeb_ec a' + 1) = next_ec mean a).
    { unfold a', next_ec. destruct (aeb_ec a =? UBI_UNKNOWN); repeat split; reflexivity. }
    destruct Hp as (Hp & Hl & Hv & He).
    destruct (early_erase_peb ubi wlog (aeb_pnum a') (to_s32 (aeb_ec a' + 1)))
      as [[err u] wl] eqn:E.
    destruct (early_erase_peb_spec _ _ _ _ _ _ _ E) as ((new & Hnew & Hfor) & Hok).
    destruct (Z.eqb_spec err 0) as [E0 | E0]; simpl in H.
    + inversion H; subst. split.
      * exists new. split; [reflexivity|].
        eapply Forall_impl; [|exact Hfor]. simpl. intros e ->. left. exact (eq_sym Hp).
      * exists [], a, rest, []. simpl. rewrite <- He, <- Hp.
        split; [reflexivity|]. split; [reflexivity|]. split; [reflexivity|].
        split; [reflexivity|]. split; [reflexivity|].
        split; [exact Hl|]. split; [exact Hv|].
        split; [apply Hok; reflexivity|].
        exists ubi, wlog. split; [split; reflexivity | exact E].
    + apply IH in H. destruct H as ((new2 & Hnew2 & Hfor2) & Hr). split.
      * exists (new ++ new2). split; [rewrite Hnew2, Hnew, app_assoc; reflexivity|].
        apply Forall_app. split.
        -- eapply Forall_impl; [|exact Hfor]. simpl. intros e ->. left. exact (eq_sym Hp).
        -- eapply Forall_impl; [|exact Hfor2]. simpl. intros e He2. right. exact He2.
      * destruct r as [aeb | e].
        -- destruct Hr as (l1 & old & l2 & l1' & -> & -> & Hm & Hpn & Hec & Hln &
                           Hvi & Hw & u1 & wl1 & Htried & Hlast).
           exists (a :: l1), old, l2, (a' :: l1'). simpl.
           rewrite <- !app_assoc. simpl. rewrite Hm, Hp.
           split; [reflexivity|]. split; [reflexivity|]. split; [reflexivity|].
           split; [exact Hpn|]. split; [exact Hec|].
           split; [exact Hln|]. split; [exact Hvi|]. split; [exact Hw|].
           exists u1, wl1. split; [|exact Hlast].
           split; [reflexivity|]. exists err, u, wl.
           rewrite <- Hp, <- He. split; [exact E|]. split; [exact E0 | exact Htried].
        -- destruct Hr as (-> & rest' & -> & Hm). split; [reflexivity|].
           exists (a' :: rest'). rewrite <- app_assoc. simpl. rewrite Hm, Hp.
           split; reflexivity.
Qed.

(** X14: the PEB [ubi_early_get_peb] returns.  It is the head of the
    free list, taken off it with nothing written; or, the free list
    being empty, the first PEB of the erase list whose erasure and EC
    header write succeeded: the PEBs before it on the list were tried
    one after the other, [early_erase_peb] failed on each of them, and
    then returned 0 on this one; the record returned has its erase
    counter raised by one (from the mean for an unknown one), that
    counter is below the maximum and is the one written to the flash,
    and the erase list keeps its other PEBs in order. *)
Theorem ubi_early_get_peb_taken ubi wlog ai aeb ubi' wlog' ai' :
  ubi_early_get_peb ubi wlog ai = (PTR aeb, ubi', wlog', ai') ->
  (ai_free ai = aeb :: ai_free ai' /\ ai_erase ai' = ai_erase ai /\
   wlog' = wlog /\ ubi' = ubi) \/
  (ai_free ai = [] /\ ai_free ai' = [] /\
   exists l1 old l2 l1',
     ai_erase ai = l1 ++ old :: l2 /\ ai_erase ai' = l1' ++ l2 /\
     map aeb_pnum l1' = map aeb_pnum l1 /\
     aeb_pnum aeb = aeb_pnum old /\ aeb_ec aeb = next_ec (mean_ec ai) old /\
     erased_with wlog' (aeb_pnum aeb) (aeb_ec aeb) /\
     exists ubi1 wlog1,
       tried_in_vain (mean_ec ai) ubi wlog l1 l1' ubi1 wlog1 /\
       early_erase_peb ubi1 wlog1 (aeb_pnum old) (next_ec (mean_ec ai) old)
         = (0, ubi', wlog')).
Proof.
  unfold ubi_early_get_peb.
  destruct (ai_free ai) as [|a free'] eqn:Ef.
  - destruct (early_get_erase _ _ _ _ _) as [[[r u] wl] erase] eqn:E.
    intros H. inversion H; subst. right.
    apply early_get_erase_spec in E. destruct E as (_ & l1 & old & l2 & l1' & Hr).
    simpl. rewrite Ef. split; [reflexivity|]. split; [reflexivity|].
    exists l1, old, l2, l1'. simpl in Hr.
    destruct Hr as (H1 & H2 & H3 & H4 & H5 & _ & _ & H6 & H7).
    repeat (split; [assumption|]). exact H7.
  - intros H. inversion H; subst. left. simpl. repeat split; reflexivity.
Qed.

(** X15: [ubi_early_get_peb] writes to PEBs of the erase list only,
    and not at all while the free list has a PEB. *)
Theorem ubi_early_get_peb_writes ubi wlog ai r ubi' wlog' ai' :
  ubi_early_get_peb ubi wlog ai = (r, ubi', wlog', ai') ->
  exists new,
    wlog' = wlog ++ new /\
    Forall (fun e => In (wr_pnum e) (map aeb_pnum (ai_erase ai))) new /\
    (ai_free ai <> [] -> new = []).
Proof.
  unfold ubi_early_get_peb.
  destruct (ai_free ai) as [|a free'] eqn:Ef.
  - destruct (early_get_erase _ _ _ _ _) as [[[r0 u] wl] erase] eqn:E.
    intros H. inversion H; subst.
    apply early_get_erase_spec in E. destruct E as ((new & Hnew & Hfor) & _).
    exists new. repeat split; try assumption. intros Hne. elim Hne. reflexivity.
  - intros H. inversion H; subst. exists []. rewrite app_nil_r.
    repeat split; constructor.
Qed.

(** X16: [ubi_early_get_peb] fails with -ENOSPC only, and only when
    the free list is empty; the erase list then still holds its PEBs,
    in order, and the other lists and the volumes are untouched. *)
Theorem ubi_early_get_peb_enospc ubi wlog ai e ubi' wlog' ai' :
  ubi_early_get_peb ubi wlog ai = (ERR_PTR e, ubi', wlog', ai') ->
  e = - ENOSPC /\ ai_free ai = [] /\
  map aeb_pnum (ai_erase ai') = map aeb_pnum (ai_erase ai) /\
  ai_free ai' = [] /\ ai_volumes ai' = ai_volumes ai /\
  ai_corr ai' = ai_corr ai /\ ai_alien ai' = ai_alien ai.
Proof.
  unfold ubi_early_get_peb.
  destruct (ai_free ai) as [|a free'] eqn:Ef; [|intros H; inversion H].
  destruct (early_get_erase _ _ _ _ _) as [[[r u] wl] erase] eqn:E.
  intros H. inversion H; subst.
  apply early_get_erase_spec in E. destruct E as (_ & -> & rest' & -> & Hm).
  simpl. rewrite Ef. repeat split; try reflexivity. exact Hm.
Qed.

End EarlyGet.

(** * Deleting a volume *)

(** [rb_first] of lib/rbtree.c: the leftmost node. *)
Fixpoint rb_first {A} (t : rb_root A) : option A :=
  match t with
  | RB_ROOT => None
  | rb_node _ l x _ =>
      match rb_first l with
      | Some y => Some y
      | None => Some x
      end
  end.

(** The sequence without its first entry that [sel] holds of. *)
Fixpoint remove_first {A} (sel : A -> bool) (l : list A) : list A :=
  match l with
  | [] => []
  | x :: l' => if sel x then l' else x :: remove_first sel l'
  end.

(** [rb_erase(node, root)] of lib/rbtree.c, for the node that [sel]
    designates (the first in order, if it holds of several): the node
    is unlinked and the tree re-balanced, which leaves the other nodes
    in their order. *)
Class RbEraseLib : Type := {
  rb_erase : forall {A : Type}, (A -> bool) -> rb_root A -> rb_root A;
  rb_erase_inorder :
    forall (A : Type) (sel : A -> bool) (t : rb_root A),
      rb_inorder (rb_erase sel t) = remove_first sel (rb_inorder t)
}.

Section RemoveAv.

Context {RE : RbEraseLib}.

(** The loop [while ((rb = rb_first(&av->root)))], for at most [n]
    rounds. *)
Fixpoint remove_av_loop (n : nat) (root : rb_root ubi_ainf_peb)
    (erase : list ubi_ainf_peb) : rb_root ubi_ainf_peb * list ubi_ainf_peb :=
  match n with
  | O => (root, erase)
  | S n' =>
      match rb_first root with
      | None => (root, erase)
      | Some aeb =>
          remove_av_loop n' (rb_erase (fun _ => true) root) (list_add_tail aeb erase)
      end
  end.

(** The volume pointer [av] is the node of the volume tree with its
    [vol_id]; the loop is given as many rounds as the used tree has
    nodes (see [remove_av_loop_done]). *)
Definition ubi_remove_av (ai : ubi_attach_info) (av : ubi_ainf_volume)
    : ubi_attach_info :=
  let '(_, erase) :=
    remove_av_loop (length (rb_inorder (av_root av))) (av_root av) (ai_erase ai) in
  let ai := set_ai_erase erase ai in
  let ai :=
    set_ai_volumes
      (rb_erase (fun v => av_vol_id v =? av_vol_id av) (ai_volumes ai)) ai in
  set_vols_found (to_s32 (vols_found ai - 1)) ai.

(** ** Properties *)

Lemma rb_first_inorder {A} (t : rb_root A) : rb_first t = hd_error (rb_inorder t).
Proof.
  induction t as [|c l IHl x r _]; simpl; [reflexivity|].
  rewrite IHl. destruct (rb_inorder l); reflexivity.
Qed.

(** The loop moves the LEBs to the tail of the erase list in their
    order, and stops on an empty tree: the rounds suffice. *)
Lemma remove_av_loop_done (n : nat) :
  forall root erase,
    (length (rb_inorder root) <= n)%nat ->
    exists root',
      remove_av_loop n root erase = (root', erase ++ rb_inorder root) /\
      rb_first root' = None.
Proof.
  induction n as [|n IH]; simpl; intros root erase Hn.
  - exists root. rewrite rb_first_inorder.
    destruct (rb_inorder root); [|simpl in Hn; lia].
    rewrite app_nil_r. split; reflexivity.
  - rewrite rb_first_inorder.
    destruct (rb_inorder root) as [|a l] eqn:E; simpl.
    + exists root. rewrite rb_first_inorder, E, app_nil_r. split; reflexivity.
    + destruct (IH (rb_erase (fun _ => true) root) (list_add_tail a erase))
        as (root' & Hl & Hf).
      { rewrite rb_erase_inorder, E. simpl in *. lia. }
      exists root'. rewrite Hl, rb_erase_inorder, E. simpl.
      unfold list_add_tail. rewrite <- app_assoc. split; [reflexivity | exact Hf].
Qed.

(** Erasing the node of a volume from a tree in order removes that
    volume and no other. *)
Lemma erase_volume_split (av : ubi_ainf_volume) (t : rb_root ubi_ainf_volume) :
  StronglySorted Z.gt (vol_ids t) -> In av (rb_inorder t) ->
  exists l1 l2,
    rb_inorder t = l1 ++ av :: l2 /\
    rb_inorder (rb_erase (fun v => av_vol_id v =? av_vol_id av) t) = l1 ++ l2.
Proof.
  intros Hs Hin.
  destruct (in_split _ _ Hin) as (l1 & l2 & E).
  exists l1, l2. split; [exact E|].
  rewrite rb_erase_inorder, E.
  unfold vol_ids in Hs. rewrite E, map_app in Hs. simpl in Hs.
  apply StronglySorted_app in Hs. destruct Hs as (_ & _ & H1).
  clear E Hin. induction l1 as [|v l1 IH]; simpl.
  - rewrite Z.eqb_refl. reflexivity.
  - inversion H1 as [|? ? Hv Hrest]; subst.
    inversion Hv as [|? ? Hgt _]; subst.
    destruct (Z.eqb_spec (av_vol_id v) (av_vol_id av)); [lia|].
    rewrite (IH Hrest). reflexivity.
Qed.

Lemma ubi_remove_av_fields (ai : ubi_attach_info) (av : ubi_ainf_volume) :
  ai_erase (ubi_remove_av ai av) = ai_erase ai ++ rb_inorder (av_root av) /\
  ai_volumes (ubi_remove_av ai av)
  = rb_erase (fun v => av_vol_id v =? av_vol_id av) (ai_volumes ai) /\
  vols_found (ubi_remove_av ai av) = to_s32 (vols_found ai - 1) /\
  ai_free (ubi_remove_av ai av) = ai_free ai /\
  ai_corr (ubi_remove_av ai av) = ai_corr ai /\
  ai_alien (ubi_remove_av ai av) = ai_alien ai /\
  ai_waiting (ubi_remove_av ai av) = ai_waiting ai /\
  bad_peb_count (ubi_remove_av ai av) = bad_peb_count ai.
Proof.
  unfold ubi_remove_av.
  destruct (remove_av_loop_done (length (rb_inorder (av_root av))) (av_root av)
              (ai_erase ai) (Nat.le_refl _)) as (root' & -> & _).
  simpl. repeat split; reflexivity.
Qed.

(** X17: [ubi_remove_av] loses no PEB.  For a volume of a volume tree
    in order, it appends the PEBs of the volume's LEBs to the erase
    list in the order of their [lnum]s, counts one volume less, and
    leaves the other lists alone; the PEB numbers on record are those
    of before. *)
Theorem ubi_remove_av_moves_lebs (ai : ubi_attach_info) (av : ubi_ainf_volume) :
  StronglySorted Z.gt (vol_ids (ai_volumes ai)) ->
  In av (rb_inorder (ai_volumes ai)) ->
  ai_erase (ubi_remove_av ai av) = ai_erase ai ++ rb_inorder (av_root av) /\
  vols_found (ubi_remove_av ai av) = to_s32 (vols_found ai - 1) /\
  length (rb_inorder (ai_volumes (ubi_remove_av ai av)))
  = pred (length (rb_inorder (ai_volumes ai))) /\
  Permutation (ai_records (ubi_remove_av ai av)) (ai_records ai).
Proof.
  intros Hs Hin.
  destruct (ubi_remove_av_fields ai av) as (He & Hv & Hn & Hf & Hc & Ha & Hw & _).
  destruct (erase_volume_split av _ Hs Hin) as (l1 & l2 & E1 & E2).
  rewrite <- Hv in E2.
  split; [exact He|]. split; [exact Hn|]. split.
  { rewrite E1, E2, !length_app. simpl. lia. }
  apply (Permutation_count_occ Z.eq_dec). intros p.
  unfold ai_records, tree_pnums. rewrite He, Hf, Hc, Ha, Hw, E1, E2.
  repeat (rewrite ?map_app, ?concat_app, ?count_occ_app; cbn [map concat]).
  lia.
Qed.

(** X18: after [ubi_remove_av] the volume is gone and the others are
    where they were: [ubi_find_av] returns NULL for its [vol_id] and
    answers for every other [vol_id] as before; the volume tree is
    still in order. *)
Theorem ubi_remove_av_lookup (ai : ubi_attach_info) (av : ubi_ainf_volume) :
  volumes_sorted (ai_volumes ai) ->
  In av (rb_inorder (ai_volumes ai)) ->
  volumes_sorted (ai_volumes (ubi_remove_av ai av)) /\
  ubi_find_av (ubi_remove_av ai av) (av_vol_id av) = None /\
  forall other, other <> av_vol_id av ->
    ubi_find_av (ubi_remove_av ai av) other = ubi_find_av ai other.
Proof.
  intros [Hs Hu] Hin.
  destruct (ubi_remove_av_fields ai av) as (_ & Hv & _).
  destruct (erase_volume_split av _ Hs Hin) as (l1 & l2 & E1 & E2).
  rewrite <- Hv in E2.
  assert (Hs' : StronglySorted Z.gt (vol_ids (ai_volumes (ubi_remove_av ai av)))).
  { unfold vol_ids in *. rewrite E2, map_app. rewrite E1, map_app in Hs. simpl in Hs.
    apply StronglySorted_app in Hs. destruct Hs as (H1 & H2 & H3).
    inversion H2 as [|? ? H2' _]; subst.
    apply StronglySorted_app. repeat split; try assumption.
    eapply Forall_impl; [|exact H3]. intros a Ha. inversion Ha; assumption. }
  assert (Hids : forall v, In v (l1 ++ l2) -> av_vol_id v <> av_vol_id av).
  { intros v Hv0 Hk.
    assert (Hinv : In v (rb_inorder (ai_volumes ai))).
    { rewrite E1. apply in_app_or in Hv0. apply in_or_app.
      destruct Hv0; [left | right; right]; assumption. }
    pose proof (volumes_sorted_unique _ _ _ Hs Hinv Hin Hk) as ->.
    unfold vol_ids in Hs. rewrite E1, map_app in Hs. simpl in Hs.
    apply StronglySorted_app in Hs. destruct Hs as (_ & H2 & H3).
    inversion H2 as [|? ? _ Hgt]; subst.
    rewrite Forall_forall in H3, Hgt.
    apply in_app_or in Hv0. destruct Hv0 as [Hv0 | Hv0].
    - specialize (H3 _ (in_map av_vol_id _ _ Hv0)).
      inversion H3 as [|? ? Hlt _]; subst. lia.
    - specialize (Hgt _ (in_map av_vol_id _ _ Hv0)). lia. }
  split; [|split].
  - split; [exact Hs'|]. rewrite E2. rewrite E1 in Hu.
    apply Forall_app in Hu. destruct Hu as [Hu1 Hu2].
    inversion Hu2; subst. apply Forall_app. split; assumption.
  - apply find_av_none; [exact Hs'|]. rewrite E2. exact Hids.
  - intros other Hne.
    destruct (ubi_find_av ai other) as [a|] eqn:Eo.
    + apply find_av_some; [exact Hs'|].
      apply find_av_some in Eo; [|exact Hs]. destruct Eo as [Ha Hk].
      split; [|exact Hk]. rewrite E2. rewrite E1 in Ha.
      apply in_app_or in Ha. apply in_or_app.
      destruct Ha as [Ha | [Ha | Ha]]; [left; exact Ha | | right; exact Ha].
      subst a. congruence.
    + apply find_av_none; [exact Hs'|]. intros a Ha Hk.
      apply (proj1 (find_av_none ai other Hs) Eo a); [|exact Hk].
      rewrite E2 in Ha. rewrite E1. apply in_app_or in Ha. apply in_or_app.
      destruct Ha; [left | right; right]; assumption.
Qed.

End RemoveAv.

Section RemoveAvBook.

Context {RE : RbEraseLib}.

(** X22: [ubi_remove_av] keeps the book: on an attach info whose trees
    are in order and whose counters agree with them, removing one of
    its volumes leaves one of the same kind. *)
Theorem ubi_remove_av_counted (ai : ubi_attach_info) (av : ubi_ainf_volume) :
  ai_counted ai ->
  In av (rb_inorder (ai_volumes ai)) ->
  ai_counted (ubi_remove_av ai av).
Proof.
  intros ([Hs Hu] & Hall & Hvf) Hin.
  destruct (ubi_remove_av_fields ai av) as (_ & Hv & Hn & _).
  destruct (erase_volume_split av _ Hs Hin) as (l1 & l2 & E1 & E2).
  rewrite <- Hv in E2.
  assert (Hmax : max_sqnum (ubi_remove_av ai av) = max_sqnum ai).
  { unfold ubi_remove_av. destruct (remove_av_loop _ _ _). reflexivity. }
  unfold ai_counted, volumes_sorted, vol_ids. rewrite Hmax, Hn, E2, Hvf, E1.
  unfold vol_ids in Hs. rewrite E1 in Hs, Hu, Hall. rewrite map_app in *. simpl in Hs.
  apply StronglySorted_app in Hs. destruct Hs as (H1 & H2 & H3).
  inversion H2 as [|? ? H2' _]; subst.
  apply Forall_app in Hu. destruct Hu as [Hu1 Hu2]. inversion Hu2; subst.
  apply Forall_app in Hall. destruct Hall as [Ha1 Ha2]. inversion Ha2; subst.
  repeat split.
  - apply StronglySorted_app. repeat split; try assumption.
    eapply Forall_impl; [|exact H3]. intros a Ha. inversion Ha; assumption.
  - apply Forall_app. split; assumption.
  - apply Forall_app. split; assumption.
  - unfold Z.sub. rewrite to_s32_add_l. f_equal.
    rewrite !length_app. simpl. lia.
Qed.

End RemoveAvBook.

(** * The first empty page of a backup block

    [check_pattern] and [ubi_backup_search_empty] of the low-page backup
    ([CONFIG_MTD_UBI_LOWPAGE_BACKUP]). *)

(** What the search reads of the device and of the MTD layer:
    [ubi->peb_size], [ubi->mtd->writesize], [ubi->mtd->oobavail],
    [blb_get_startpage()] and [ubi_io_read_oob], which gives an error
    code, the page and its spare bytes; the reads are numbered. *)
Record flash_pages : Type := mk_flash_pages {
  peb_size : Z;
  writesize : Z;
  oobavail : Z;
  blb_get_startpage : Z;
  io_read_oob : nat -> Z -> Z -> Z * list Z * list Z
}.

(** *** check_pattern *)

(** 1 - here [true] - iff the first [size] bytes of [buf], which holds
    that many, are all [patt]. *)

Definition check_pattern (buf : list Z) (patt : Z) (size : Z) : bool :=
  forallb (Z.eqb patt) (firstn (Z.to_nat size) buf).

Section BackupSearch.

Variable G : flash_pages.

(** The test of the loop body on page [mid], as read number [t]. *)
Definition page_is_empty (t : nat) (pnum mid : Z) : bool :=
  let offset := to_s32 (mid * writesize G) in
  let '(err, databuf, oobbuf) := io_read_oob G t pnum offset in
  (err =? 0) && check_pattern oobbuf 0xFF (oobavail G)
  && check_pattern databuf 0xFF (writesize G).

(** *** ubi_backup_search_empty *)

(** The loop [while (low <= high)], for at most [n] rounds; [reads] are
    the offsets read so far. *)
Fixpoint search_empty_loop (n : nat) (pnum : Z) (reads : list Z)
    (low high first : Z) : Z * list Z :=
  match n with
  | O => (first, reads)
  | S n' =>
      if low <=? high then
        let mid := Z.quot (to_s32 (low + high)) 2 in
        let offset := to_s32 (mid * writesize G) in
        if page_is_empty (length reads) pnum mid
        then search_empty_loop n' pnum (reads ++ [offset]) low (to_s32 (mid - 1)) offset
        else search_empty_loop n' pnum (reads ++ [offset]) (to_s32 (mid + 1)) high first
      else (first, reads)
  end.

(** The interval halves in every round: as many rounds as it has pages
    are enough (see [search_empty_loop_first]). *)
Definition ubi_backup_search_empty (pnum : Z) : Z * list Z :=
  let first := peb_size G in
  let low := blb_get_startpage G in
  let high := to_s32 (Z.quot (peb_size G) (writesize G) - 1) in
  search_empty_loop (Z.to_nat (high - low + 1)) pnum [] low high first.

(** ** Properties *)

Section SearchSpec.

Variable pnum : Z.

(** The pages the search looks at: from the start page to the last
    page of the block. *)
Let start : Z := blb_get_startpage G.
Let last : Z := Z.quot (peb_size G) (writesize G) - 1.

Hypothesis writesize_pos : 0 < writesize G.
Hypothesis start_nonneg : 0 <= start.
Hypothesis peb_size_int : 0 <= peb_size G <= INT_MAX.
Hypothesis pages_bound : last < 2 ^ 30.

(** The flash does not change while it is searched. *)
Hypothesis reads_agree :
  forall t t' mid, page_is_empty t pnum mid = page_is_empty t' pnum mid.

(** The block is written from its start: after an empty page there are
    empty pages only. *)
Hypothesis empty_upwards :
  forall p q, start <= p -> p <= q -> q <= last ->
    page_is_empty 0 pnum p = true -> page_is_empty 0 pnum q = true.

Definition first_empty_found (r : Z) : Prop :=
  (r = peb_size G /\
   forall p, start <= p <= last -> page_is_empty 0 pnum p = false) \/
  (exists p,
     start <= p <= last /\ r = p * writesize G /\
     page_is_empty 0 pnum p = true /\
     forall q, start <= q < p -> page_is_empty 0 pnum q = false).

Lemma page_offset_int (mid : Z) :
  0 <= mid <= last -> to_s32 (mid * writesize G) = mid * writesize G.
Proof.
  intros Hm. apply to_s32_id. unfold INT_MAX in *. subst last.
  assert (Hq : Z.quot (peb_size G) (writesize G) * writesize G <= peb_size G).
  { rewrite Z.quot_div_nonneg by lia.
    pose proof (Z.mul_div_le (peb_size G) (writesize G) writesize_pos). lia. }
  nia.
Qed.

Lemma search_empty_loop_first (n : nat) :
  forall reads low high first,
    start <= low -> high <= last -> low <= high + 1 ->
    high - low + 1 <= Z.of_nat n ->
    (forall q, start <= q < low -> page_is_empty 0 pnum q = false) ->
    (forall q, high < q <= last -> page_is_empty 0 pnum q = true) ->
    first = (if high <? last then (high + 1) * writesize G else peb_size G) ->
    first_empty_found (fst (search_empty_loop n pnum reads low high first)).
Proof.
  assert (Hdone : forall low high first,
            start <= low -> high <= last -> low = high + 1 ->
            (forall q, start <= q < low -> page_is_empty 0 pnum q = false) ->
            (forall q, high < q <= last -> page_is_empty 0 pnum q = true) ->
            first = (if high <? last then (high + 1) * writesize G else peb_size G) ->
            first_empty_found first).
  { intros low high first Hl Hh E Hlow Hhigh Hf.
    destruct (Z.ltb_spec high last) as [Hlt | Hge].
    - right. exists low. subst low. repeat split; try lia; try assumption.
      apply Hhigh. lia.
    - left. split; [exact Hf|]. intros p Hp. apply Hlow. lia. }
  induction n as [|n IH]; intros reads low high first Hl Hh Hle Hn Hlow Hhigh Hf.
  - simpl. apply (Hdone low high); try assumption. lia.
  - simpl. destruct (Z.leb_spec low high) as [Hin | Hout].
    2:{ simpl. apply (Hdone low high); try assumption. lia. }
    assert (Hsum : to_s32 (low + high) = low + high).
    { apply to_s32_id. unfold INT_MAX. lia. }
    rewrite Hsum.
    assert (Hmid : low <= Z.quot (low + high) 2 <= high).
    { rewrite Z.quot_div_nonneg by lia.
      pose proof (Z.div_le_lower_bound (low + high) 2 low ltac:(lia) ltac:(lia)).
      pose proof (Z.div_le_upper_bound (low + high) 2 high ltac:(lia) ltac:(lia)).
      lia. }
    set (mid := Z.quot (low + high) 2) in *.
    rewrite (page_offset_int mid) by lia.
    rewrite (reads_agree (length reads) 0%nat mid).
    destruct (page_is_empty 0 pnum mid) eqn:Em.
    + assert (Hm1 : to_s32 (mid - 1) = mid - 1)
        by (apply to_s32_id; unfold INT_MAX; lia).
      rewrite Hm1. apply IH; try lia.
      * intros q Hq. apply Hlow. lia.
      * intros q Hq. apply (empty_upwards mid q); try lia. exact Em.
      * destruct (Z.ltb_spec (mid - 1) last); [f_equal; lia | lia].
    + assert (Hm1 : to_s32 (mid + 1) = mid + 1)
        by (apply to_s32_id; unfold INT_MAX; lia).
      rewrite Hm1. apply IH; try lia; try assumption.
      intros q Hq.
      destruct (page_is_empty 0 pnum q) eqn:Eq; [|reflexivity].
      rewrite (empty_upwards q mid) in Em by (lia || exact Eq). discriminate.
Qed.

(** X19: [ubi_backup_search_empty] finds the first empty page.  On a
    block that is written from its start and does not change during
    the search, with a page count below 2^30, it returns the offset of
    the first page from the start page on that reads as empty, or
    [peb_size] if there is none. *)
Theorem ubi_backup_search_empty_first :
  first_empty_found (fst (ubi_backup_search_empty pnum)).
Proof.
  unfold ubi_backup_search_empty.
  assert (Hlast : -1 <= last).
  { subst last. rewrite Z.quot_div_nonneg by lia.
    pose proof (Z.div_pos (peb_size G) (writesize G) ltac:(lia) writesize_pos). lia. }
  assert (Hh : to_s32 (Z.quot (peb_size G) (writesize G) - 1) = last)
    by (apply to_s32_id; unfold INT_MAX; subst last; lia).
  rewrite Hh. fold start.
  destruct (Z.le_gt_cases start (last + 1)) as [Hle | Hgt].
  - apply search_empty_loop_first; try lia.
    rewrite Z.ltb_irrefl. reflexivity.
  - replace (Z.to_nat (last - start + 1)) with 0%nat by lia. simpl.
    left. split; [reflexivity|]. intros p Hp. lia.
Qed.

End SearchSpec.

End BackupSearch.

(** * A blank flash *)

Section BlankFlash.

Context {RB : RbTreeLib}.
Variable P : ubi_platform.

(** No PEB is bad, every EC header reads as all 0xFF, and memory does
    not run out. *)
Definition blank_flash : Prop :=
  (forall t pnum, io_is_bad P t pnum = 0) /\
  (forall t pnum, fst (io_read_ec_hdr P t pnum) = UBI_IO_FF) /\
  (forall n, slab_alloc P n <> None) /\
  (forall n, kmalloc_ok P n = true).

(** The fields a scan of a blank flash leaves alone. *)
Definition blank_view (ai : ubi_attach_info) :=
  (ai_volumes ai, ai_free ai, ai_corr ai, ai_alien ai, ai_waiting ai,
   (corr_peb_count ai, alien_peb_count ai, bad_peb_count ai, maybe_bad_peb_count ai),
   (ec_count ai, mean_ec ai, is_empty ai, vols_found ai)).

Lemma scan_peb_blank ubi ai pnum :
  blank_flash ->
  exists ubi' ai' aeb,
    scan_peb P ubi ai pnum = (0, ubi', ai') /\
    ai_erase ai' = ai_erase ai ++ [aeb] /\
    aeb_pnum aeb = pnum /\ aeb_ec aeb = UBI_UNKNOWN /\
    empty_peb_count ai' = to_s32 (empty_peb_count ai + 1) /\
    blank_view ai' = blank_view ai /\
    peb_count ubi' = peb_count ubi /\ dbg_chk_gen ubi' = dbg_chk_gen ubi.
Proof.
  intros (Hbad & Hff & Hslab & _).
  unfold scan_peb, ubi_io_is_bad, ubi_io_read_ec_hdr.
  rewrite Hbad. simpl.
  specialize (Hff (now (io_done (IO_IS_BAD pnum) ubi)) pnum).
  destruct (io_read_ec_hdr P (now (io_done (IO_IS_BAD pnum) ubi)) pnum) as [err ech].
  simpl in Hff. subst err. simpl.
  unfold add_to_list, kmem_cache_alloc.
  match goal with
  | |- context [slab_alloc P ?n] =>
      specialize (Hslab n); destruct (slab_alloc P n) as [obj|]; [|elim Hslab; reflexivity]
  end.
  simpl. do 3 eexists. split; [reflexivity|].
  unfold list_add_tail. simpl. repeat split; reflexivity.
Qed.

Lemma scan_pebs_blank (n : nat) :
  forall ubi ai pnum,
    blank_flash ->
    - 2 ^ 31 <= empty_peb_count ai <= INT_MAX ->
    exists ubi' ai' l,
      scan_pebs P n ubi ai pnum = (0, ubi', ai') /\
      ai_erase ai' = ai_erase ai ++ l /\
      map aeb_pnum l = peb_range pnum n /\
      Forall (fun aeb => aeb_ec aeb = UBI_UNKNOWN) l /\
      empty_peb_count ai' = to_s32 (empty_peb_count ai + Z.of_nat n) /\
      blank_view ai' = blank_view ai /\
      peb_count ubi' = peb_count ubi /\ dbg_chk_gen ubi' = dbg_chk_gen ubi.
Proof.
  induction n as [|n IH]; intros ubi ai pnum Hb Hr.
  - exists ubi, ai, []. simpl. rewrite app_nil_r, Z.add_0_r, to_s32_id by exact Hr.
    repeat split; constructor.
  - destruct (scan_peb_blank ubi ai pnum Hb)
      as (u1 & a1 & aeb & E & He & Hp & Hec & Hn & Hv & Hc & Hd).
    assert (Hr1 : - 2 ^ 31 <= empty_peb_count a1 <= INT_MAX)
      by (rewrite Hn; apply to_s32_range).
    destruct (IH u1 a1 (pnum + 1) Hb Hr1)
      as (u2 & a2 & l & E2 & He2 & Hp2 & Hec2 & Hn2 & Hv2 & Hc2 & Hd2).
    exists u2, a2, (aeb :: l). simpl scan_pebs. rewrite E. simpl. rewrite E2.
    split; [reflexivity|]. split; [rewrite He2, He, <- app_assoc; reflexivity|].
    split; [simpl; rewrite Hp, Hp2; reflexivity|].
    split; [constructor; assumption|].
    split; [rewrite Hn2, Hn, to_s32_add_l; f_equal; lia|].
    repeat split; congruence.
Qed.

(** *** The self-check of the result *)

Lemma peb_range_In (n : nat) :
  forall pnum x, pnum <= x < pnum + Z.of_nat n -> In x (peb_range pnum n).
Proof.
  induction n as [|n IH]; simpl; intros pnum x H; [lia|].
  destruct (Z.eq_dec pnum x) as [E | E]; [left; exact E|].
  right. apply IH. lia.
Qed.

(** A store within the map sets the byte of its index. *)
Lemma buf_set_nth_same (buf : list Z) (j : nat) (v : Z) :
  (j < length buf)%nat -> nth j (buf_set buf (Z.of_nat j) v) 0 = v.
Proof.
  intros Hj. unfold buf_set.
  destruct (Z.leb_spec 0 (Z.of_nat j)); [|lia]. cbn [andb].
  destruct (Z.ltb_spec (Z.of_nat j) (Z.of_nat (length buf))); [|lia].
  rewrite Nat2Z.id.
  rewrite app_nth2 by (rewrite length_firstn; lia).
  rewrite length_firstn, Nat.min_l by lia.
  rewrite Nat.sub_diag. reflexivity.
Qed.

Lemma buf_set_marked (buf : list Z) (i : Z) (j : nat) :
  (j < length buf)%nat ->
  nth j buf 0 <> 0 \/ Z.of_nat j = i ->
  nth j (buf_set buf i 1) 0 <> 0.
Proof.
  intros Hj [Hn | <-].
  - destruct (Z.eq_dec (nth j (buf_set buf i 1) 0) (nth j buf 0)) as [E | E].
    + rewrite E. exact Hn.
    + apply buf_set_nth in E. subst i. rewrite buf_set_nth_same by exact Hj.
      discriminate.
  - rewrite buf_set_nth_same by exact Hj. discriminate.
Qed.

Lemma mark_pebs_marked (aebs : list ubi_ainf_peb) (j : nat) :
  forall buf,
    (j < length buf)%nat ->
    nth j buf 0 <> 0 \/ In (Z.of_nat j) (map aeb_pnum aebs) ->
    nth j (mark_pebs aebs buf) 0 <> 0.
Proof.
  unfold mark_pebs.
  induction aebs as [|a aebs IH]; simpl; intros buf Hj H.
  - destruct H as [H | []]. exact H.
  - apply IH; [rewrite buf_set_length; exact Hj|].
    destruct H as [H | [H | H]]; [left | left | right; exact H];
      apply buf_set_marked; auto.
Qed.

Lemma mark_pebs_nil (buf : list Z) : mark_pebs [] buf = buf.
Proof. reflexivity. Qed.

Lemma existsb_zero_none (buf : list Z) :
  (forall j, (j < length buf)%nat -> nth j buf 0 <> 0) ->
  existsb (Z.eqb 0) buf = false.
Proof.
  intros H. destruct (existsb (Z.eqb 0) buf) eqn:E; [|reflexivity].
  apply existsb_exists in E. destruct E as (x & Hin & Hx).
  apply Z.eqb_eq in Hx. subst x.
  destruct (In_nth _ _ 0 Hin) as (j & Hj & Hnth).
  elim (H j Hj). exact Hnth.
Qed.

(** With no bad PEB the first pass over the PEBs marks nothing. *)
Lemma self_check_mark_bad_blank (n : nat) :
  (forall t pnum, io_is_bad P t pnum = 0) ->
  forall ubi pnum buf,
    exists ubi',
      self_check_mark_bad P n ubi pnum buf = (0, buf, ubi') /\
      image_seq ubi' = image_seq ubi.
Proof.
  intros Hbad. induction n as [|n IH]; simpl; intros ubi pnum buf.
  - exists ubi. split; reflexivity.
  - rewrite Hbad. simpl.
    destruct (IH (io_done (IO_IS_BAD pnum) ubi) (pnum + 1) buf) as (u & E & Hs).
    exists u. split; [exact E|]. rewrite Hs. destruct ubi; reflexivity.
Qed.

(** [self_check_ai] passes an attach info without volumes whose erase
    list names every PEB of the device. *)
Lemma self_check_ai_blank (ubi : ubi_device) (ai : ubi_attach_info) :
  blank_flash ->
  ai_volumes ai = RB_ROOT -> vols_found ai = 0 ->
  ai_free ai = [] -> ai_corr ai = [] -> ai_alien ai = [] ->
  map aeb_pnum (ai_erase ai) = peb_range 0 (Z.to_nat (peb_count ubi)) ->
  exists ubi',
    self_check_ai P ubi ai = (0, ubi') /\ image_seq ubi' = image_seq ubi.
Proof.
  intros (Hbad & _ & _ & Hmem) Hvol Hfound Hfree Hcorr Halien Herase.
  unfold self_check_ai.
  destruct (dbg_chk_gen ubi); cbn [negb]; [|exists ubi; split; reflexivity].
  rewrite Hvol, Hfound, Hfree, Hcorr, Halien.
  cbn [rb_inorder existsb length Z.of_nat self_check_vid_avs fold_left].
  change (to_s32 0 !=? 0) with false. cbn iota.
  change (0 !=? 0) with false. cbn iota.
  unfold kzalloc. rewrite Hmem.
  replace (peb_count (alloc_done ubi)) with (peb_count ubi) by (destruct ubi; reflexivity).
  destruct (self_check_mark_bad_blank (Z.to_nat (peb_count ubi)) Hbad (alloc_done ubi) 0
              (repeat 0 (Z.to_nat (peb_count ubi)))) as (u & E & Hs).
  rewrite E. cbn [Z.ltb Z.compare].
  rewrite !mark_pebs_nil.
  rewrite existsb_zero_none.
  - exists u. split; [reflexivity|]. rewrite Hs. destruct ubi; reflexivity.
  - intros j Hj. rewrite mark_pebs_length, repeat_length in Hj.
    apply mark_pebs_marked; [rewrite repeat_length; exact Hj|].
    right. rewrite Herase. apply peb_range_In. lia.
Qed.

Lemma blank_view_fields (ai ai' : ubi_attach_info) :
  blank_view ai' = blank_view ai ->
  ai_volumes ai' = ai_volumes ai /\ ai_free ai' = ai_free ai /\
  ai_corr ai' = ai_corr ai /\ ai_alien ai' = ai_alien ai /\
  corr_peb_count ai' = corr_peb_count ai /\
  alien_peb_count ai' = alien_peb_count ai /\
  bad_peb_count ai' = bad_peb_count ai /\
  maybe_bad_peb_count ai' = maybe_bad_peb_count ai /\
  ec_count ai' = ec_count ai /\ mean_ec ai' = mean_ec ai /\
  vols_found ai' = vols_found ai.
Proof.
  unfold blank_view. intros H. injection H. intros. repeat split; assumption.
Qed.

(** X20: the scan of a blank flash.  When no PEB is bad, every EC
    header reads as all 0xFF and memory does not run out, [scan_all]
    from PEB 0 on a fresh attach info succeeds: the result is marked
    empty, a random image sequence number is drawn, there is no volume
    and no free, corrupted or alien PEB, and the erase list holds all
    the PEBs of the device in their order, each counted as empty and
    with the (zero) mean erase counter. *)
Theorem scan_all_blank_flash (ubi : ubi_device) :
  blank_flash ->
  0 <= peb_count ubi <= INT_MAX ->
  exists ubi' ai',
    scan_all P ubi ai_zeroed 0 = (0, ubi', ai') /\
    is_empty ai' = 1 /\
    (exists t, image_seq ubi' = to_s32 (random_bytes P t)) /\
    map aeb_pnum (ai_erase ai') = peb_range 0 (Z.to_nat (peb_count ubi)) /\
    Forall (fun aeb => aeb_ec aeb = 0) (ai_erase ai') /\
    empty_peb_count ai' = peb_count ubi /\
    ai_volumes ai' = RB_ROOT /\ ai_free ai' = [] /\ ai_corr ai' = [] /\
    ai_alien ai' = [].
Proof.
  intros Hb Hcount.
  pose proof Hb as (_ & _ & _ & Hmem).
  unfold scan_all, ubi_zalloc_vid_hdr, kzalloc. rewrite !Hmem.
  replace (peb_count (alloc_done (alloc_done ubi))) with (peb_count ubi) by reflexivity.
  rewrite Z.sub_0_r.
  destruct (scan_pebs_blank (Z.to_nat (peb_count ubi)) (alloc_done (alloc_done ubi))
              ai_zeroed 0 Hb)
    as (u1 & a1 & l & E & He & Hp & Hec & Hn & Hv & Hc & Hd).
  { simpl. unfold INT_MAX. lia. }
  rewrite E. simpl in He, Hn. rewrite Z2Nat.id in Hn by lia.
  rewrite to_s32_id in Hn by (unfold INT_MAX in *; lia).
  apply blank_view_fields in Hv. simpl in Hv.
  destruct Hv as (Hvol & Hfree & Hcorr & Halien & Hcc & Hac & Hbc & Hmc & Hecn & Hmean
                  & Hfound).
  cbn [Z.ltb Z.compare]. rewrite Hecn. cbn [Z.eqb negb].
  unfold late_analysis. rewrite Hcc, Hbc, Hac, Hmc, Hn, Hc.
  cbn [Z.eqb negb andb]. rewrite !Z.sub_0_r, Z.add_0_r.
  change (peb_count (alloc_done (alloc_done ubi))) with (peb_count ubi).
  rewrite !to_s32_id by (unfold INT_MAX in *; lia).
  rewrite Z.eqb_refl. cbn [Z.leb Z.compare].
  assert (Hpn : map aeb_pnum (ai_erase (fill_unknown_ec (set_is_empty 1 a1))) =
                peb_range 0 (Z.to_nat (peb_count ubi))).
  { simpl. rewrite He, map_map, <- Hp. apply map_ext_in. intros a Ha.
    unfold fill_ec. destruct (aeb_ec a =? UBI_UNKNOWN); reflexivity. }
  destruct (self_check_ai_blank
              (set_image_seq (to_s32 (random_bytes P (now u1))) u1)
              (fill_unknown_ec (set_is_empty 1 a1)) Hb)
    as (u2 & Echk & Hseq);
    [simpl; rewrite Hvol; reflexivity | exact Hfound
    | simpl; rewrite Hfree; reflexivity | simpl; rewrite Hcorr; reflexivity
    | exact Halien | rewrite Hpn; cbn [peb_count set_image_seq]; rewrite Hc; reflexivity |].
  cbn [Z.eqb negb]. rewrite Echk. cbn [Z.eqb negb].
  exists u2, (fill_unknown_ec (set_is_empty 1 a1)). split; [reflexivity|].
  split; [reflexivity|].
  split; [rewrite Hseq; eexists; reflexivity|].
  split; [exact Hpn|].
  split.
  { simpl. rewrite He, Hmean. apply Forall_map.
    eapply Forall_impl; [|exact Hec]. simpl. intros a Ha.
    unfold fill_ec. rewrite Ha. reflexivity. }
  simpl. rewrite Hvol, Hfree, Hcorr.
  repeat split; try reflexivity; assumption.
Qed.

End BlankFlash.

(** * The first header of a volume *)

Section FirstHeader.

Context {RB : RbTreeLib}.
Variable P : ubi_platform.

(** The volume type a VID header stands for, as [add_volume] and
    [validate_vid_hdr] take it: dynamic, and static for anything else. *)
Definition vid_type (vid_hdr : ubi_vid_hdr) : Z :=
  if vh_vol_type vid_hdr =? UBI_VID_DYNAMIC then UBI_VID_DYNAMIC else UBI_VID_STATIC.

(** X21: the first PEB of a volume fixes what later headers must say.
    When [ubi_add_to_av] admits a PEB for a volume the tree did not
    hold, the volume is made from its header with one LEB, and from
    then on [validate_vid_hdr] accepts a header for this volume exactly
    if its volume type is the one the first header stands for and its
    [used_ebs] and [data_pad] are those of the first header. *)
Theorem ubi_add_to_av_first_header ubi ai pnum ec vid_hdr bitflips ubi' ai' :
  let vol_id := to_s32 (vh_vol_id vid_hdr) in
  volumes_sorted (ai_volumes ai) ->
  ubi_find_av ai vol_id = None ->
  ubi_add_to_av P ubi ai pnum ec vid_hdr bitflips = (0, ubi', ai') ->
  exists av,
    ubi_find_av ai' vol_id = Some av /\
    av_leb_count av = 1 /\
    av_highest_lnum av = Z.max 0 (to_s32 (vh_lnum vid_hdr)) /\
    forall vid_hdr2 pnum2,
      to_s32 (vh_vol_id vid_hdr2) = vol_id ->
      (validate_vid_hdr vid_hdr2 av pnum2 = 0 <->
       vh_vol_type vid_hdr2 = vid_type vid_hdr /\
       to_s32 (vh_used_ebs vid_hdr2) = to_s32 (vh_used_ebs vid_hdr) /\
       to_s32 (vh_data_pad vid_hdr2) = to_s32 (vh_data_pad vid_hdr)).
Proof.
  cbv zeta. intros Hs Hnone.
  unfold ubi_find_av in Hnone. rewrite find_av_loop_walk in Hnone.
  unfold ubi_add_to_av.
  destruct (add_volume _ _ _ _ _ _) as [[r u] a] eqn:Ev.
  destruct r as [av0 | e].
  2:{ apply add_volume_cases in Ev.
      destruct Ev as [(? & E & _) | [(? & E & _) | [E _]]]; try discriminate.
      inversion E; subst. intros H. inversion H. }
  destruct (add_volume_sorted _ _ _ _ _ _ _ _ _ Hs Ev) as ([Hs1 _] & Hin & Hk).
  pose proof (volume_found _ _ Hs1 Hin) as Hw. rewrite Hk in Hw.
  apply add_volume_cases in Ev.
  destruct Ev as [(x & _ & Hx & _) | [(obj & E & _) | [E _]]];
    [congruence | | discriminate].
  inversion E; subst av0. clear E.
  set (a1 := if max_sqnum a <? vh_sqnum vid_hdr
             then set_max_sqnum (vh_sqnum vid_hdr) a else a).
  assert (Hw1 : ubi_find_av a1 (to_s32 (vh_vol_id vid_hdr))
                = Some (new_volume obj (to_s32 (vh_vol_id vid_hdr)) vid_hdr)).
  { unfold ubi_find_av. rewrite find_av_loop_walk.
    unfold a1. destruct (max_sqnum a <? vh_sqnum vid_hdr); exact Hw. }
  clearbody a1. simpl rb_walk.
  assert (Hval : validate_vid_hdr vid_hdr
                   (new_volume obj (to_s32 (vh_vol_id vid_hdr)) vid_hdr) pnum = 0)
    by reflexivity.
  rewrite Hval. simpl.
  destruct (slab_alloc P (allocs u)) as [o|]; [|intros H; inversion H].
  match goal with
  | |- context [av_store ?x a1] => set (av' := x)
  end.
  intros H. inversion H; subst. clear H.
  exists av'. split.
  { apply find_av_store with (av := new_volume obj (to_s32 (vh_vol_id vid_hdr)) vid_hdr);
      [exact Hw1|].
    unfold av'. destruct (0 <=? to_s32 (vh_lnum vid_hdr)); reflexivity. }
  split; [unfold av'; destruct (0 <=? to_s32 (vh_lnum vid_hdr)); reflexivity|].
  split.
  { unfold av'. simpl. destruct (Z.leb_spec 0 (to_s32 (vh_lnum vid_hdr))); simpl; lia. }
  intros h2 pnum2 Hid.
  assert (Hf : av_leb_count av' = 1 /\
               av_vol_id av' = to_s32 (vh_vol_id vid_hdr) /\
               av_used_ebs av' = to_s32 (vh_used_ebs vid_hdr) /\
               av_data_pad av' = to_s32 (vh_data_pad vid_hdr) /\
               av_vol_type av' = (if vh_vol_type vid_hdr =? UBI_VID_DYNAMIC
                                  then UBI_DYNAMIC_VOLUME else UBI_STATIC_VOLUME)).
  { unfold av'. destruct (0 <=? to_s32 (vh_lnum vid_hdr)); repeat split; reflexivity. }
  destruct Hf as (Hc & Hi & Hu & Hd & Ht).
  unfold validate_vid_hdr, vid_type. rewrite Hc, Hi, Hu, Hd, Ht, Hid.
  rewrite Z.eqb_refl. cbn [negb Z.eqb].
  unfold UBI_VID_DYNAMIC, UBI_VID_STATIC, UBI_DYNAMIC_VOLUME, UBI_STATIC_VOLUME, EINVAL.
  destruct (Z.eqb_spec (vh_vol_type vid_hdr) 1); simpl;
    zb_cases; simpl; split; try (intros (? & ? & ?)); try intros; 
    repeat split; try lia; try congruence; try discriminate.
Qed.

End FirstHeader.

(** * The second pass of the self-check *)

Section SelfCheckVid.

Variable P : ubi_platform.

(** The VID header of the PEB of a LEB, as some read of the flash gave
    it, says what the records say. *)
Definition vid_agrees (av : ubi_ainf_volume) (aeb : ubi_ainf_peb) : Prop :=
  exists t,
    let '(err, vidh) := io_read_vid_hdr P t (aeb_pnum aeb) in
    (err = 0 \/ err = UBI_IO_BITFLIPS) /\
    aeb_sqnum aeb = vh_sqnum vidh /\
    aeb_lnum aeb = to_s32 (vh_lnum vidh) /\
    av_vol_id av = to_s32 (vh_vol_id vidh) /\
    av_compat av = vh_compat vidh /\
    av_used_ebs av = to_s32 (vh_used_ebs vidh) /\
    av_data_pad av = to_s32 (vh_data_pad vidh) /\
    av_vol_type av =
      (if vh_vol_type vidh =? UBI_VID_DYNAMIC then UBI_DYNAMIC_VOLUME
       else UBI_STATIC_VOLUME).

Lemma self_check_vid_aebs_agree (av : ubi_ainf_volume) (aebs : list ubi_ainf_peb) :
  forall ubi last last' ubi',
    self_check_vid_aebs P ubi av aebs last = (0, last', ubi') ->
    Forall (vid_agrees av) aebs.
Proof.
  induction aebs as [|aeb aebs IH]; simpl; intros ubi last last' ubi' H;
    [constructor|].
  destruct (io_read_vid_hdr P (now ubi) (aeb_pnum aeb)) as [err vidh] eqn:Er.
  destruct ((err !=? 0) && (err !=? UBI_IO_BITFLIPS)) eqn:Eerr.
  { exfalso. injection H as He Hl Hu.
    apply andb_true_iff in Eerr. destruct Eerr as [E0 _].
    apply negb_true_iff, Z.eqb_neq in E0. revert He.
    destruct (Z.gtb_spec err 0); lia. }
  match type of H with
  | (if ?c then _ else _) = _ => destruct c eqn:Echk
  end.
  { injection H as He Hl Hu. unfold EINVAL in He. lia. }
  constructor; [|eapply IH; exact H].
  exists (now ubi). rewrite Er.
  repeat (apply orb_false_iff in Echk; destruct Echk as [Echk ?]).
  zb_hyps.
  split.
  - apply andb_false_iff in Eerr. destruct Eerr as [E0 | E0];
      apply negb_false_iff, Z.eqb_eq in E0; [left | right]; exact E0.
  - repeat split; assumption.
Qed.

Lemma self_check_vid_avs_agree (avs : list ubi_ainf_volume) :
  forall ubi ubi',
    self_check_vid_avs P ubi avs = (0, ubi') ->
    Forall (fun av => Forall (vid_agrees av) (rb_inorder (av_root av))) avs.
Proof.
  induction avs as [|av avs IH]; simpl; intros ubi ubi' H; [constructor|].
  destruct (self_check_vid_aebs P ubi av (rb_inorder (av_root av)) None)
    as [[e l] u] eqn:E.
  destruct (Z.eqb_spec e 0) as [E0 | E0]; simpl in H.
  2:{ inversion H; subst. congruence. }
  subst e. apply self_check_vid_aebs_agree in E.
  constructor; [exact E|].
  destruct l as [vidh|]; [|eapply IH; exact H].
  match type of H with
  | (if ?c then _ else _) = _ => destruct c
  end; [injection H as He Hu; unfold EINVAL in He; lia|].
  eapply IH; exact H.
Qed.

(** X23: with the general checks on, [self_check_ai] returns 0 only if
    the second pass found the flash to agree with the records: for
    every LEB of every volume, the VID header of its PEB was read
    (without error, or with bit-flips only) and has the sequence number
    and the [lnum] of the LEB and the [vol_id], [compat], [used_ebs],
    [data_pad] and volume type of the volume. *)
Theorem self_check_ai_vid_headers ubi ai ubi' :
  dbg_chk_gen ubi = true ->
  self_check_ai P ubi ai = (0, ubi') ->
  forall av aeb,
    In av (rb_inorder (ai_volumes ai)) -> In aeb (rb_inorder (av_root av)) ->
    vid_agrees av aeb.
Proof.
  intros Hdbg. unfold self_check_ai. rewrite Hdbg. cbn [negb].
  destruct (existsb _ _); [intros H; inversion H|].
  destruct (_ !=? _); [intros H; inversion H|].
  destruct (self_check_vid_avs _ _ _) as [e u] eqn:Ev.
  destruct (Z.eqb_spec e 0) as [E0 | E0]; simpl.
  2:{ intros H. inversion H; subst. congruence. }
  subst e. intros _ av aeb Hav Haeb.
  apply self_check_vid_avs_agree in Ev.
  rewrite Forall_forall in Ev. specialize (Ev av Hav).
  rewrite Forall_forall in Ev. exact (Ev aeb Haeb).
Qed.

End SelfCheckVid.

(** * The highest sequence number *)

Section MaxSqnum.

Context {RB : RbTreeLib}.
Variable P : ubi_platform.

Lemma add_to_list_max_sqnum ubi ai pnum vol_id lnum ec to_head lst err ubi' ai' :
  add_to_list P ubi ai pnum vol_id lnum ec to_head lst = (err, ubi', ai') ->
  max_sqnum ai' = max_sqnum ai.
Proof.
  intros H. apply add_to_list_counted_view in H.
  unfold counted_view in H. congruence.
Qed.

Lemma add_volume_max_sqnum ubi ai vol_id pnum vid_hdr r ubi' ai' :
  add_volume P ubi ai vol_id pnum vid_hdr = (r, ubi', ai') ->
  max_sqnum ai' = max_sqnum ai.
Proof.
  unfold add_volume, kmalloc_volume.
  destruct (rb_walk _ _); [intros H; inversion H; reflexivity|].
  destruct (kmalloc_av P (allocs ubi)); [|intros H; inversion H; reflexivity].
  destruct (vol_id >? highest_vol_id ai); intros H; inversion H; reflexivity.
Qed.

(** X24: [max_sqnum] is the running maximum of the sequence numbers
    [ubi_add_to_av] was given, of the PEBs it rejects too: afterwards
    it is the larger of its old value and the sequence number of the
    header, unless the volume could not be allocated, and then the
    attach info is as it was. *)
Theorem ubi_add_to_av_max_sqnum ubi ai pnum ec vid_hdr bitflips err ubi' ai' :
  ubi_add_to_av P ubi ai pnum ec vid_hdr bitflips = (err, ubi', ai') ->
  max_sqnum ai' = Z.max (max_sqnum ai) (vh_sqnum vid_hdr) \/
  (err = - ENOMEM /\ ai' = ai /\ ubi_find_av ai (to_s32 (vh_vol_id vid_hdr)) = None).
Proof.
  unfold ubi_add_to_av.
  destruct (add_volume _ _ _ _ _ _) as [[r u] a] eqn:Ev.
  destruct r as [av | e].
  2:{ intros H. injection H as He Hu Ha. subst. right.
      unfold ubi_find_av. rewrite find_av_loop_walk.
      pose proof Ev as Ev'. apply add_volume_cases in Ev'.
      destruct Ev' as [(? & E & _) | [(? & E & _) | [E Ea]]]; try discriminate.
      injection E as E. subst. split; [reflexivity|]. split; [reflexivity|].
      unfold add_volume in Ev.
      destruct (rb_walk _ _); [discriminate | reflexivity]. }
  pose proof (add_volume_max_sqnum _ _ _ _ _ _ _ _ Ev) as Hm.
  set (a1 := if max_sqnum a <? vh_sqnum vid_hdr
             then set_max_sqnum (vh_sqnum vid_hdr) a else a).
  assert (H1 : max_sqnum a1 = Z.max (max_sqnum ai) (vh_sqnum vid_hdr)).
  { unfold a1. destruct (Z.ltb_spec (max_sqnum a) (vh_sqnum vid_hdr)); simpl; lia. }
  clearbody a1. rewrite <- H1. left. revert H.
  repeat break_match; intros H; inversion H; subst;
    repeat match goal with
      | Ha : add_to_list _ _ _ _ _ _ _ _ _ = _ |- _ =>
          apply add_to_list_max_sqnum in Ha
      end;
    unfold av_store; simpl; congruence.
Qed.

End MaxSqnum.

(** * The further properties on the scenarios *)

Lemma ai_zeroed_counted : ai_counted ai_zeroed.
Proof.
  split; [split; constructor | split; [constructor | reflexivity]].
Qed.

Lemma ai_vol0_sorted : volumes_sorted (ai_volumes ai_vol0).
Proof.
  apply (@attach_built_sorted rb_rotating (platform_of false [])).
  eapply (@built_add_volume rb_rotating (platform_of false []) (ubi_of 1) ai_zeroed 0 0
            (vid_of 0 0 1 0 0 0) (PTR (new_volume av0 0 (vid_of 0 0 1 0 0 0)))
            (alloc_done (ubi_of 1))).
  - apply built_empty.
  - vm_compute. reflexivity.
Qed.

Lemma add_volume_vol01 :
  @add_volume rb_rotating (platform_of false []) (ubi_of 1) ai_vol0 1 1
    (vid_of 1 0 2 0 0 0)
  = (PTR (new_volume av0 1 (vid_of 1 0 2 0 0 0)), alloc_done (ubi_of 1), ai_vol01).
Proof. vm_compute. reflexivity. Qed.

(** X1 on the two volumes: the lookup of volume 1. *)
Lemma find_av_lookup_witness :
  (forall av,
     ubi_find_av ai_vol01 1 = Some av <->
     In av (rb_inorder (ai_volumes ai_vol01)) /\ av_vol_id av = 1) /\
  (ubi_find_av ai_vol01 1 = None <->
   forall av, In av (rb_inorder (ai_volumes ai_vol01)) -> av_vol_id av <> 1).
Proof.
  apply find_av_lookup.
  exact (proj1 (@attach_built_sorted rb_rotating (platform_of false []) ai_vol01
                  attach_built_vol01)).
Defined.

(** X2 on the two volumes: adding volume 1 leaves the answer for
    volume 0. *)
Lemma add_volume_other_ids_witness :
  ubi_find_av ai_vol01 0 = ubi_find_av ai_vol0 0.
Proof.
  apply (@add_volume_other_ids rb_rotating (platform_of false []) (ubi_of 1) ai_vol0
           1 1 (vid_of 1 0 2 0 0 0) _ _ ai_vol01 0 ai_vol0_sorted add_volume_vol01).
  discriminate.
Defined.

(** X3 on the two volumes: volume 1 is added once. *)
Lemma add_volume_again_witness :
  @add_volume rb_rotating (platform_of false []) (ubi_of 2) ai_vol01 1 5
    (vid_of 1 3 9 0 0 0)
  = (PTR (new_volume av0 1 (vid_of 1 0 2 0 0 0)), ubi_of 2, ai_vol01).
Proof.
  exact (@add_volume_again rb_rotating (platform_of false []) (ubi_of 1) ai_vol0
           1 1 (vid_of 1 0 2 0 0 0) _ _ ai_vol01 ai_vol0_sorted add_volume_vol01
           (ubi_of 2) 5 (vid_of 1 3 9 0 0 0)).
Defined.

(** X4 on the two volumes: volume 1 is counted when it is made. *)
Lemma add_volume_vols_found_witness :
  (ubi_find_av ai_vol0 1 = None /\
   vols_found ai_vol01 = to_s32 (vols_found ai_vol0 + 1) /\
   length (rb_inorder (ai_volumes ai_vol01))
   = S (length (rb_inorder (ai_volumes ai_vol0))) /\
   highest_vol_id ai_vol01 = Z.max (highest_vol_id ai_vol0) 1 /\
   av_leb_count (new_volume av0 1 (vid_of 1 0 2 0 0 0)) = 0 /\
   av_root (new_volume av0 1 (vid_of 1 0 2 0 0 0)) = RB_ROOT) \/
  (ubi_find_av ai_vol0 1 = Some (new_volume av0 1 (vid_of 1 0 2 0 0 0)) /\
   ai_vol01 = ai_vol0 /\ alloc_done (ubi_of 1) = ubi_of 1).
Proof.
  exact (@add_volume_vols_found rb_rotating (platform_of false []) (ubi_of 1) ai_vol0
           1 1 (vid_of 1 0 2 0 0 0) _ _ ai_vol01 add_volume_vol01).
Defined.

(** X5 on scenario S6: the book after PEB 0 was admitted. *)
Lemma ubi_add_to_av_counted_witness :
  ai_counted ai_s6 /\
  vols_found ai_s6 = to_s32 (Z.of_nat (length (rb_inorder (ai_volumes ai_s6)))) /\
  forall av, In av (rb_inorder (ai_volumes ai_s6)) ->
    av_leb_count av = to_s32 (Z.of_nat (length (rb_inorder (av_root av)))) /\
    forall aeb, In aeb (rb_inorder (av_root av)) ->
      aeb_lnum aeb <= av_highest_lnum av /\ aeb_vol_id aeb = av_vol_id av /\
      aeb_sqnum aeb <= max_sqnum ai_s6.
Proof.
  assert (Hfirst : @ubi_add_to_av rb_rotating (platform_of false pebs_s6) (ubi_of 2)
                     ai_zeroed 0 1 vid_s6 0
                   = (0, alloc_done (alloc_done (ubi_of 2)), ai_s6))
    by (vm_compute; reflexivity).
  exact (@ubi_add_to_av_counted rb_rotating (platform_of false pebs_s6) (ubi_of 2)
           ai_zeroed 0 1 vid_s6 0 _ _ ai_s6 ai_zeroed_counted Hfirst).
Defined.

(** X6 on the image with the alien PEB: the book after the scan. *)
Lemma scan_all_counted_witness : ai_counted (snd scan_alien).
Proof.
  destruct scan_alien as [[e ubi'] ai'] eqn:E. simpl.
  exact (@scan_all_counted rb_rotating (platform_of false pebs_alien) (ubi_of 3)
           ai_zeroed 0 e ubi' ai' ai_zeroed_counted E).
Defined.

Lemma self_check_alien_passes :
  fst (self_check_ai (platform_of false pebs_alien) (ubi_chk 3) (snd scan_alien)) = 0.
Proof. vm_compute. reflexivity. Qed.

(** X7 on the image with the alien PEB: what the first pass found of
    the attach info of the scan. *)
Lemma self_check_ai_first_pass_witness :
  vols_found (snd scan_alien)
  = to_s32 (Z.of_nat (length (rb_inorder (ai_volumes (snd scan_alien))))) /\
  Forall (av_checked (ubi_chk 3) (snd scan_alien))
    (rb_inorder (ai_volumes (snd scan_alien))).
Proof.
  pose proof self_check_alien_passes as H0. revert H0.
  destruct (self_check_ai (platform_of false pebs_alien) (ubi_chk 3) (snd scan_alien))
    as [e ubi'] eqn:E.
  cbn [fst]. intros ->.
  exact (@self_check_ai_first_pass (platform_of false pebs_alien) (ubi_chk 3)
           (snd scan_alien) ubi' eq_refl E).
Defined.

(** X8 on the image with the alien PEB: PEB 1 is referred to. *)
Lemma self_check_ai_all_referred_witness :
  (exists t, 0 < io_is_bad (platform_of false pebs_alien) t 1) \/
  In 1 (ai_pnums (snd scan_alien)).
Proof.
  pose proof self_check_alien_passes as H0. revert H0.
  destruct (self_check_ai (platform_of false pebs_alien) (ubi_chk 3) (snd scan_alien))
    as [e ubi'] eqn:E.
  cbn [fst]. intros ->.
  apply (@self_check_ai_all_referred (platform_of false pebs_alien) (ubi_chk 3)
           (snd scan_alien) ubi' 1 eq_refl E).
  split; [lia | reflexivity].
Defined.

(** X9 on scenario S4: the PEB with the corrupted VID header is put on
    record once. *)
Lemma scan_peb_recorded_witness :
  (io_is_bad (platform_of false pebs_s4) 0%nat 0 = 0 /\
   Permutation
     (ai_records
        (snd (@scan_peb rb_rotating (platform_of false pebs_s4) (ubi_of 1) ai_zeroed 0)))
     (0 :: ai_records ai_zeroed) /\
   bad_peb_count
     (snd (@scan_peb rb_rotating (platform_of false pebs_s4) (ubi_of 1) ai_zeroed 0))
   = bad_peb_count ai_zeroed) \/
  (0 < io_is_bad (platform_of false pebs_s4) 0%nat 0 /\
   ai_records
     (snd (@scan_peb rb_rotating (platform_of false pebs_s4) (ubi_of 1) ai_zeroed 0))
   = ai_records ai_zeroed /\
   bad_peb_count
     (snd (@scan_peb rb_rotating (platform_of false pebs_s4) (ubi_of 1) ai_zeroed 0))
   = to_s32 (bad_peb_count ai_zeroed + 1)).
Proof.
  assert (H0 : fst (fst (@scan_peb rb_rotating (platform_of false pebs_s4) (ubi_of 1)
                           ai_zeroed 0)) = 0)
    by (vm_compute; reflexivity).
  revert H0.
  destruct (@scan_peb rb_rotating (platform_of false pebs_s4) (ubi_of 1) ai_zeroed 0)
    as [[e ubi'] ai'] eqn:E.
  cbn [fst snd]. intros He.
  apply (@scan_peb_recorded rb_rotating (platform_of false pebs_s4) (ubi_of 1)
           ai_zeroed 0 e ubi' ai' (proj1 ai_zeroed_counted) E).
  rewrite He. apply Z.le_refl.
Defined.

(** X10 on the image with the alien PEB: the three PEBs are on record. *)
Lemma scan_all_accounts_witness :
  pebs_accounted (platform_of false pebs_alien) (peb_range 0 3) ai_zeroed
    (snd scan_alien).
Proof.
  assert (H0 : fst (fst scan_alien) = 0) by (vm_compute; reflexivity).
  revert H0. destruct scan_alien as [[e ubi'] ai'] eqn:E. simpl. intros ->.
  apply (@scan_all_accounts rb_rotating (platform_of false pebs_alien) (ubi_of 3)
           ai_zeroed 0 ubi' ai' ai_zeroed_counted).
  - vm_compute. split; discriminate.
  - exact E.
Defined.

(** ** A second PEB for LEB 0:3 of scenario S6 *)

(** The volume and the LEB that the first PEB of scenario S6 made. *)
Definition av_s6 : ubi_ainf_volume :=
  match ubi_find_av ai_s6 0 with Some av => av | None => av0 end.
Definition aeb_s6 : ubi_ainf_peb :=
  match rb_walk (lnum_cmp 3) (av_root av_s6) with Some aeb => aeb | None => aeb0 end.

(** Headers for LEB 0:3 with a higher and with a lower sequence number
    than the 7 of [vid_s6]. *)
Definition vid_s6_newer : ubi_vid_hdr := vid_of 0 3 9 0 0 0.
Definition vid_s6_older : ubi_vid_hdr := vid_of 0 3 5 0 0 0.

(** X11 on scenario S6: a PEB 1 with sequence number 9 takes the place
    of PEB 0. *)
Lemma ubi_add_to_av_newer_replaces_witness :
  exists ai' av' aeb',
    @ubi_add_to_av rb_rotating (platform_of false pebs_s6) (ubi_of 2) ai_s6 1 4
      vid_s6_newer 0 = (0, alloc_done (ubi_of 2), ai') /\
    ubi_find_av ai' (to_s32 (vh_vol_id vid_s6_newer)) = Some av' /\
    rb_walk (lnum_cmp (to_s32 (vh_lnum vid_s6_newer))) (av_root av') = Some aeb' /\
    aeb_pnum aeb' = 1 /\ aeb_ec aeb' = 4 /\ aeb_sqnum aeb' = vh_sqnum vid_s6_newer /\
    aeb_lnum aeb' = to_s32 (vh_lnum vid_s6_newer) /\
    av_leb_count av' = av_leb_count av_s6 /\
    map aeb_pnum (ai_erase ai') = map aeb_pnum (ai_erase ai_s6) ++ [aeb_pnum aeb_s6] /\
    map aeb_ec (ai_erase ai') = map aeb_ec (ai_erase ai_s6) ++ [aeb_ec aeb_s6].
Proof.
  assert (Hv : ubi_find_av ai_s6 (to_s32 (vh_vol_id vid_s6_newer)) = Some av_s6)
    by (vm_compute; reflexivity).
  assert (Hl : rb_walk (lnum_cmp (to_s32 (vh_lnum vid_s6_newer))) (av_root av_s6)
               = Some aeb_s6)
    by (vm_compute; reflexivity).
  assert (Hsq : aeb_sqnum aeb_s6 < vh_sqnum vid_s6_newer) by (vm_compute; reflexivity).
  assert (Hval : validate_vid_hdr vid_s6_newer av_s6 1 = 0) by (vm_compute; reflexivity).
  exact (@ubi_add_to_av_newer_replaces rb_rotating (platform_of false pebs_s6)
           (ubi_of 2) ai_s6 1 4 vid_s6_newer 0 av_s6 aeb_s6 aeb0
           Hv Hl Hsq eq_refl Hval eq_refl).
Defined.

(** X12 on scenario S6: a PEB 1 with sequence number 5 goes to the
    erase list. *)
Lemma ubi_add_to_av_older_discarded_witness :
  exists ai',
    @ubi_add_to_av rb_rotating (platform_of false pebs_s6) (ubi_of 2) ai_s6 1 4
      vid_s6_older 0 = (0, alloc_done (ubi_of 2), ai') /\
    ai_volumes ai' = ai_volumes ai_s6 /\
    ai_erase ai' =
      ai_erase ai_s6 ++
      [set_aeb_ec 4
         (set_aeb_lnum (to_s32 (vh_lnum vid_s6_older))
            (set_aeb_vol_id (to_s32 (vh_vol_id vid_s6_older)) (set_aeb_pnum 1 aeb0)))] /\
    ai_free ai' = ai_free ai_s6 /\ ai_corr ai' = ai_corr ai_s6 /\
    ai_alien ai' = ai_alien ai_s6.
Proof.
  assert (Hv : ubi_find_av ai_s6 (to_s32 (vh_vol_id vid_s6_older)) = Some av_s6)
    by (vm_compute; reflexivity).
  assert (Hl : rb_walk (lnum_cmp (to_s32 (vh_lnum vid_s6_older))) (av_root av_s6)
               = Some aeb_s6)
    by (vm_compute; reflexivity).
  assert (Hsq : vh_sqnum vid_s6_older < aeb_sqnum aeb_s6) by (vm_compute; reflexivity).
  assert (Hcopy : aeb_copy_flag aeb_s6 = false) by (vm_compute; reflexivity).
  exact (@ubi_add_to_av_older_discarded rb_rotating (platform_of false pebs_s6)
           (ubi_of 2) ai_s6 1 4 vid_s6_older 0 av_s6 aeb_s6 aeb0
           Hv Hl Hsq Hcopy eq_refl).
Defined.

Lemma io_read_codes_s6 : io_read_codes (platform_of false pebs_s6).
Proof.
  intros t pnum offset len. left. unfold platform_of, peb_at. simpl.
  destruct (Z.to_nat pnum) as [|[|[|n]]]; simpl; lia.
Qed.

(** X13 on scenario S6: the comparison of PEB 0 with the newer header. *)
Lemma ubi_compare_lebs_bits_witness :
  vh_sqnum vid_s6_newer <> aeb_sqnum aeb_s6 /\
  0 <= 1 <= 5 /\
  Z.testbit 1 0 = xorb (vh_sqnum vid_s6_newer >? aeb_sqnum aeb_s6) (Z.testbit 1 2) /\
  (Z.testbit 1 2 = true -> Z.testbit 1 1 = false).
Proof.
  assert (H : ubi_compare_lebs (platform_of false pebs_s6) (ubi_of 2) aeb_s6 1
                vid_s6_newer = (1, ubi_of 2))
    by (vm_compute; reflexivity).
  apply (@ubi_compare_lebs_bits (platform_of false pebs_s6) (ubi_of 2) aeb_s6 1
           vid_s6_newer 1 (ubi_of 2) io_read_codes_s6 H).
  lia.
Defined.

(** ** Taking a PEB from an erase list of two *)

Definition aeb_at (pnum ec : Z) : ubi_ainf_peb :=
  set_aeb_ec ec (set_aeb_pnum pnum aeb0).

(** No free PEB; PEB 2 (erase counter unknown) and PEB 5 (erase counter
    7) wait for erasure; the mean erase counter is 9. *)
Definition ai_erase2 : ubi_attach_info :=
  set_mean_ec 9 (set_ai_erase [aeb_at 2 UBI_UNKNOWN; aeb_at 5 7] ai_zeroed).

(** A flash on which PEB 2 cannot be erased, and one on which no PEB
    can. *)
Definition writer_bad2 : ubi_flash_writer :=
  mk_writer (fun _ pnum => if pnum =? 2 then - EIO else 1) (fun _ _ _ => 0).
Definition writer_fail : ubi_flash_writer :=
  mk_writer (fun _ _ => - EIO) (fun _ _ _ => 0).

Abbreviation early_bad2 :=
  (ubi_early_get_peb (platform_of false []) writer_bad2 (ubi_of 6) [] ai_erase2).
Abbreviation early_fail :=
  (ubi_early_get_peb (platform_of false []) writer_fail (ubi_of 6) [] ai_erase2).

(** X14 on the erase list of two: PEB 5 is returned. *)
Lemma ubi_early_get_peb_taken_witness :
  match fst (fst (fst early_bad2)) with
  | PTR aeb =>
      (ai_free ai_erase2 = aeb :: ai_free (snd early_bad2) /\
       ai_erase (snd early_bad2) = ai_erase ai_erase2 /\
       snd (fst early_bad2) = [] /\ snd (fst (fst early_bad2)) = ubi_of 6) \/
      (ai_free ai_erase2 = [] /\ ai_free (snd early_bad2) = [] /\
       exists l1 old l2 l1',
         ai_erase ai_erase2 = l1 ++ old :: l2 /\
         ai_erase (snd early_bad2) = l1' ++ l2 /\
         map aeb_pnum l1' = map aeb_pnum l1 /\
         aeb_pnum aeb = aeb_pnum old /\ aeb_ec aeb = next_ec (mean_ec ai_erase2) old /\
         erased_with writer_bad2 (snd (fst early_bad2)) (aeb_pnum aeb) (aeb_ec aeb) /\
         exists ubi1 wlog1,
           tried_in_vain (platform_of false []) writer_bad2 (mean_ec ai_erase2)
             (ubi_of 6) [] l1 l1' ubi1 wlog1 /\
           early_erase_peb (platform_of false []) writer_bad2 ubi1 wlog1
             (aeb_pnum old) (next_ec (mean_ec ai_erase2) old)
             = (0, snd (fst (fst early_bad2)), snd (fst early_bad2)))
  | ERR_PTR _ => False
  end.
Proof.
  assert (H0 : match fst (fst (fst early_bad2)) with
               | PTR _ => true
               | ERR_PTR _ => false
               end = true)
    by (vm_compute; reflexivity).
  revert H0. destruct early_bad2 as [[[r u] wl] a] eqn:E. cbn [fst snd].
  destruct r as [aeb | e]; [intros _ | discriminate].
  exact (@ubi_early_get_peb_taken (platform_of false []) writer_bad2 (ubi_of 6) []
           ai_erase2 aeb u wl a E).
Defined.

(** X15 on the erase list of two: what was written. *)
Lemma ubi_early_get_peb_writes_witness :
  exists new,
    snd (fst early_bad2) = [] ++ new /\
    Forall (fun e => In (wr_pnum e) (map aeb_pnum (ai_erase ai_erase2))) new /\
    (ai_free ai_erase2 <> [] -> new = []).
Proof.
  destruct early_bad2 as [[[r u] wl] a] eqn:E. cbn [fst snd].
  exact (@ubi_early_get_peb_writes (platform_of false []) writer_bad2 (ubi_of 6) []
           ai_erase2 r u wl a E).
Defined.

(** X16 on the erase list of two, when no PEB can be erased. *)
Lemma ubi_early_get_peb_enospc_witness :
  match fst (fst (fst early_fail)) with
  | ERR_PTR e =>
      e = - ENOSPC /\ ai_free ai_erase2 = [] /\
      map aeb_pnum (ai_erase (snd early_fail)) = map aeb_pnum (ai_erase ai_erase2) /\
      ai_free (snd early_fail) = [] /\
      ai_volumes (snd early_fail) = ai_volumes ai_erase2 /\
      ai_corr (snd early_fail) = ai_corr ai_erase2 /\
      ai_alien (snd early_fail) = ai_alien ai_erase2
  | PTR _ => False
  end.
Proof.
  assert (H0 : match fst (fst (fst early_fail)) with
               | PTR _ => false
               | ERR_PTR _ => true
               end = true)
    by (vm_compute; reflexivity).
  revert H0. destruct early_fail as [[[r u] wl] a] eqn:E. cbn [fst snd].
  destruct r as [aeb | e]; [discriminate | intros _].
  exact (@ubi_early_get_peb_enospc (platform_of false []) writer_fail (ubi_of 6) []
           ai_erase2 e u wl a E).
Defined.

(** ** Deleting the volume of scenario S6 *)

(** An [rb_erase] that rebuilds the tree as a right spine. *)
Definition rb_spine {A} (l : list A) : rb_root A :=
  fold_right (fun x t => rb_node RB_BLACK RB_ROOT x t) RB_ROOT l.

Lemma rb_spine_inorder {A} (l : list A) : rb_inorder (rb_spine l) = l.
Proof.
  induction l as [|x l IH]; simpl; [reflexivity|]. rewrite IH. reflexivity.
Qed.

Definition rb_rebuilding : RbEraseLib :=
  {| rb_erase := fun A sel t => rb_spine (remove_first sel (rb_inorder t));
     rb_erase_inorder := fun A sel t => rb_spine_inorder _ |}.

Lemma ai_s6_sorted : volumes_sorted (ai_volumes ai_s6).
Proof.
  split; vm_compute; repeat constructor.
Qed.

Lemma av_s6_in : In av_s6 (rb_inorder (ai_volumes ai_s6)).
Proof. vm_compute. left. reflexivity. Qed.

(** X17 on scenario S6: PEB 0 goes to the erase list. *)
Lemma ubi_remove_av_moves_lebs_witness :
  ai_erase (@ubi_remove_av rb_rebuilding ai_s6 av_s6)
  = ai_erase ai_s6 ++ rb_inorder (av_root av_s6) /\
  vols_found (@ubi_remove_av rb_rebuilding ai_s6 av_s6)
  = to_s32 (vols_found ai_s6 - 1) /\
  length (rb_inorder (ai_volumes (@ubi_remove_av rb_rebuilding ai_s6 av_s6)))
  = pred (length (rb_inorder (ai_volumes ai_s6))) /\
  Permutation (ai_records (@ubi_remove_av rb_rebuilding ai_s6 av_s6))
    (ai_records ai_s6).
Proof.
  exact (@ubi_remove_av_moves_lebs rb_rebuilding ai_s6 av_s6 (proj1 ai_s6_sorted)
           av_s6_in).
Defined.

(** X18 on scenario S6: volume 0 is not found any more. *)
Lemma ubi_remove_av_lookup_witness :
  volumes_sorted (ai_volumes (@ubi_remove_av rb_rebuilding ai_s6 av_s6)) /\
  ubi_find_av (@ubi_remove_av rb_rebuilding ai_s6 av_s6) (av_vol_id av_s6) = None /\
  forall other, other <> av_vol_id av_s6 ->
    ubi_find_av (@ubi_remove_av rb_rebuilding ai_s6 av_s6) other
    = ubi_find_av ai_s6 other.
Proof.
  exact (@ubi_remove_av_lookup rb_rebuilding ai_s6 av_s6 ai_s6_sorted av_s6_in).
Defined.

(** ** A backup block of four pages, two of them written *)

(** Pages of 4 bytes with 2 spare bytes; the search starts at page 1;
    pages 0 and 1 are written, pages 2 and 3 read as 0xFF. *)
Definition pages_half : flash_pages :=
  mk_flash_pages 16 4 2 1
    (fun _ _ offset =>
       if offset <? 8 then (0, [0; 0; 0; 0], [0xFF; 0xFF])
       else (0, [0xFF; 0xFF; 0xFF; 0xFF], [0xFF; 0xFF])).

(** X19 on the block of four pages: the search returns offset 8. *)
Lemma ubi_backup_search_empty_first_witness :
  first_empty_found pages_half 0 (fst (ubi_backup_search_empty pages_half 0)).
Proof.
  apply ubi_backup_search_empty_first.
  - reflexivity.
  - discriminate.
  - split; discriminate.
  - reflexivity.
  - intros t t' mid. reflexivity.
  - intros p q Hp Hpq Hq.
    change (blb_get_startpage pages_half) with 1 in Hp.
    change (Z.quot (peb_size pages_half) (writesize pages_half) - 1) with 3 in Hq.
    assert (Ep : p = 1 \/ p = 2 \/ p = 3) by lia.
    assert (Eq : q = 1 \/ q = 2 \/ q = 3) by lia.
    destruct Ep as [-> | [-> | ->]]; destruct Eq as [-> | [-> | ->]];
      vm_compute; intros H; (exact H || reflexivity || lia).
Defined.

(** ** A blank flash of three PEBs *)

Lemma blank_flash_empty_image : blank_flash (platform_of false []).
Proof.
  repeat split; intros; simpl; unfold peb_at;
    try (destruct (Z.to_nat pnum); reflexivity); discriminate.
Qed.

(** X20 on a blank flash of three PEBs, with the self-check on. *)
Lemma scan_all_blank_flash_witness :
  exists ubi' ai',
    @scan_all rb_rotating (platform_of false []) (ubi_chk 3) ai_zeroed 0 = (0, ubi', ai') /\
    is_empty ai' = 1 /\
    (exists t, image_seq ubi' = to_s32 (random_bytes (platform_of false []) t)) /\
    map aeb_pnum (ai_erase ai') = peb_range 0 (Z.to_nat (peb_count (ubi_chk 3))) /\
    Forall (fun aeb => aeb_ec aeb = 0) (ai_erase ai') /\
    empty_peb_count ai' = peb_count (ubi_chk 3) /\
    ai_volumes ai' = RB_ROOT /\ ai_free ai' = [] /\ ai_corr ai' = [] /\
    ai_alien ai' = [].
Proof.
  apply (@scan_all_blank_flash rb_rotating (platform_of false []) (ubi_chk 3)
           blank_flash_empty_image).
  split; discriminate.
Defined.

(** X21 on scenario S6: what the header of PEB 0 fixed for volume 0. *)
Lemma ubi_add_to_av_first_header_witness :
  exists av,
    ubi_find_av ai_s6 (to_s32 (vh_vol_id vid_s6)) = Some av /\
    av_leb_count av = 1 /\
    av_highest_lnum av = Z.max 0 (to_s32 (vh_lnum vid_s6)) /\
    forall vid_hdr2 pnum2,
      to_s32 (vh_vol_id vid_hdr2) = to_s32 (vh_vol_id vid_s6) ->
      (validate_vid_hdr vid_hdr2 av pnum2 = 0 <->
       vh_vol_type vid_hdr2 = vid_type vid_s6 /\
       to_s32 (vh_used_ebs vid_hdr2) = to_s32 (vh_used_ebs vid_s6) /\
       to_s32 (vh_data_pad vid_hdr2) = to_s32 (vh_data_pad vid_s6)).
Proof.
  assert (Hfirst : @ubi_add_to_av rb_rotating (platform_of false pebs_s6) (ubi_of 2)
                     ai_zeroed 0 1 vid_s6 0
                   = (0, alloc_done (alloc_done (ubi_of 2)), ai_s6))
    by (vm_compute; reflexivity).
  assert (Hnone : ubi_find_av ai_zeroed (to_s32 (vh_vol_id vid_s6)) = None)
    by (vm_compute; reflexivity).
  exact (@ubi_add_to_av_first_header rb_rotating (platform_of false pebs_s6) (ubi_of 2)
           ai_zeroed 0 1 vid_s6 0 _ ai_s6 (proj1 ai_zeroed_counted) Hnone Hfirst).
Defined.

Lemma ai_s6_counted : ai_counted ai_s6.
Proof.
  assert (Hfirst : @ubi_add_to_av rb_rotating (platform_of false pebs_s6) (ubi_of 2)
                     ai_zeroed 0 1 vid_s6 0
                   = (0, alloc_done (alloc_done (ubi_of 2)), ai_s6))
    by (vm_compute; reflexivity).
  exact (@ubi_add_to_av_book rb_rotating (platform_of false pebs_s6) (ubi_of 2)
           ai_zeroed 0 1 vid_s6 0 _ _ ai_s6 ai_zeroed_counted Hfirst).
Qed.

(** X22 on scenario S6: the book after volume 0 was deleted. *)
Lemma ubi_remove_av_counted_witness :
  ai_counted (@ubi_remove_av rb_rebuilding ai_s6 av_s6).
Proof.
  exact (@ubi_remove_av_counted rb_rebuilding ai_s6 av_s6 ai_s6_counted av_s6_in).
Defined.

(** The volume and the LEB that the scan of the image with the alien
    PEB made. *)
Definition av_alien : ubi_ainf_volume :=
  match ubi_find_av (snd scan_alien) 0 with Some av => av | None => av0 end.
Definition aeb_alien : ubi_ainf_peb :=
  match rb_walk (lnum_cmp 0) (av_root av_alien) with Some aeb => aeb | None => aeb0 end.

(** X23 on the image with the alien PEB: the VID header of PEB 0 agrees
    with the records of the scan. *)
Lemma self_check_ai_vid_headers_witness :
  vid_agrees (platform_of false pebs_alien) av_alien aeb_alien.
Proof.
  assert (Hav : In av_alien (rb_inorder (ai_volumes (snd scan_alien))))
    by (vm_compute; left; reflexivity).
  assert (Haeb : In aeb_alien (rb_inorder (av_root av_alien)))
    by (vm_compute; left; reflexivity).
  pose proof self_check_alien_passes as H0. revert H0.
  destruct (self_check_ai (platform_of false pebs_alien) (ubi_chk 3) (snd scan_alien))
    as [e ubi'] eqn:E.
  cbn [fst]. intros ->.
  exact (@self_check_ai_vid_headers (platform_of false pebs_alien) (ubi_chk 3)
           (snd scan_alien) ubi' eq_refl E av_alien aeb_alien Hav Haeb).
Defined.

(** X24 on scenario S6: the sequence number 7 of PEB 0. *)
Lemma ubi_add_to_av_max_sqnum_witness :
  max_sqnum ai_s6 = Z.max (max_sqnum ai_zeroed) (vh_sqnum vid_s6) \/
  (0 = - ENOMEM /\ ai_s6 = ai_zeroed /\
   ubi_find_av ai_zeroed (to_s32 (vh_vol_id vid_s6)) = None).
Proof.
  assert (Hfirst : @ubi_add_to_av rb_rotating (platform_of false pebs_s6) (ubi_of 2)
                     ai_zeroed 0 1 vid_s6 0
                   = (0, alloc_done (alloc_done (ubi_of 2)), ai_s6))
    by (vm_compute; reflexivity).
  exact (@ubi_add_to_av_max_sqnum rb_rotating (platform_of false pebs_s6) (ubi_of 2)
           ai_zeroed 0 1 vid_s6 0 _ _ ai_s6 Hfirst).
Defined.
